(** * EmailService: the bulk-send engine of the Excellence Services mailer

    A shallow embedding of [EmailService] (sendEmail, sendBulkEmails,
    getSummary, reset) and of the part of [Config] it reads, followed by the
    properties of the batch scheduler and of the outcome ledger.

    Conventions of the embedding
    - JavaScript values that flow through the service (the parsed JSON reply
      of the backend, the outcome objects) are terms of [JS.value]; objects
      are association lists in insertion order.
    - [throw] / a rejected promise is the [Throw] branch of [JS.completion];
      [try ... catch] is [JS.tryCatch].
    - The network and the clock are an explicit [World]: the reply to the
      [k]-th call of [fetch] and the reading of [new Date()] in the handler
      of the [k]-th send.  Every call of [fetch] settles (fulfils or rejects)
      and rejects with an [Error] object, as the Fetch standard prescribes.
    - Array indices, lengths and the loop counter are integers ([Z]); the
      quotient of getSummary is an IEEE 754 double ([JS.number]).
    - What the scheduler does to the outside is recorded as a trace of
      [event]s, in program order. *)

From Stdlib Require Import ZArith List String Ascii Bool QArith Lia Sorted
  DecimalString SpecFloat.
Import ListNotations.
Local Open Scope string_scope.
Local Open Scope list_scope.
Local Open Scope Z_scope.
Local Set Warnings "-register-all".

(* ------------------------------------------------------------------------- *)
(** ** JavaScript values, completions and the array primitives used *)

Module JS.

Inductive value : Type :=
| VUndefined
| VNull
| VBool (b : bool)
| VNum (q : Q)
| VStr (s : string)
| VArr (xs : list value)
| VObj (fields : list (string * value))
| VDate (t : value).               (* new Date(t) *)

(** An [Error] object, as thrown by fetch, by response.json() and by a
    property read on null. *)
Record error : Type := mkError { message : string }.

Inductive completion (A : Type) : Type :=
| Normal (a : A)
| Throw (e : error).
Arguments Normal {A} a.
Arguments Throw {A} e.

Definition bind {A B} (c : completion A) (k : A -> completion B)
  : completion B :=
  match c with
  | Normal a => k a
  | Throw e => Throw e
  end.

Definition tryCatch {A} (body : completion A) (handler : error -> completion A)
  : completion A :=
  match body with
  | Normal a => Normal a
  | Throw e => handler e
  end.

(** ToBoolean *)
Definition truthy (v : value) : bool :=
  match v with
  | VUndefined | VNull => false
  | VBool b => b
  | VNum q => negb (Qeq_bool q 0)
  | VStr s => negb (String.eqb s "")
  | VArr _ | VObj _ | VDate _ => true
  end.

Fixpoint assoc (k : string) (fs : list (string * value)) : option value :=
  match fs with
  | [] => None
  | (k', v) :: rest => if String.eqb k k' then Some v else assoc k rest
  end.

Fixpoint update (k : string) (v : value) (fs : list (string * value))
  : list (string * value) :=
  match fs with
  | [] => [(k, v)]
  | (k', v') :: rest =>
      if String.eqb k k' then (k, v) :: rest else (k', v') :: update k v rest
  end.

(** [v.k] for a name [k] that no built-in prototype defines (sentAt,
    attemptedAt, success, errorCode, ...): a TypeError on null and
    undefined, the own property of an object, undefined elsewhere. *)
Definition getProp (v : value) (k : string) : completion value :=
  match v with
  | VUndefined =>
      Throw (mkError ("Cannot read properties of undefined (reading '" ++ k ++ "')")%string)
  | VNull =>
      Throw (mkError ("Cannot read properties of null (reading '" ++ k ++ "')")%string)
  | VObj fs =>
      Normal (match assoc k fs with Some x => x | None => VUndefined end)
  | _ => Normal VUndefined
  end.

(** [v.k = x] on an object; the service only assigns to objects. *)
Definition setProp (v : value) (k : string) (x : value) : value :=
  match v with
  | VObj fs => VObj (update k x fs)
  | _ => v
  end.

(** ToPrimitive fails on [v] with a TypeError. A value parsed from JSON holds
    no function: an object with an own property [toString] has no callable
    toString, and the valueOf it inherits returns the object itself; an
    array is joined, which converts each element that is not null or
    undefined to a string in the same way. *)
Fixpoint notPrimitive (v : value) : bool :=
  match v with
  | VObj fs => match assoc "toString" fs with Some _ => true | None => false end
  | VArr xs => existsb notPrimitive xs
  | _ => false
  end.

(** [new Date(v)] *)
Definition newDate (v : value) : completion value :=
  if notPrimitive v
  then Throw (mkError "Cannot convert object to primitive value")
  else Normal (VDate v).

(** Relative index of Array.prototype.slice. *)
Definition clampIndex (len k : Z) : Z :=
  if k <? 0 then Z.max (len + k) 0 else Z.min k len.

(** [l.slice(from, to)] *)
Definition slice {A} (l : list A) (from to : Z) : list A :=
  let len := Z.of_nat (List.length l) in
  let k := clampIndex len from in
  let final := clampIndex len to in
  firstn (Z.to_nat (final - k)) (skipn (Z.to_nat k) l).

(** [await Promise.all(ps)] over promises that have all settled: the
    values in positional order, or a rejection when one rejected. *)
Fixpoint PromiseAll {A} (ps : list (completion A)) : completion (list A) :=
  match ps with
  | [] => Normal []
  | p :: rest =>
      bind p (fun a => bind (PromiseAll rest) (fun r => Normal (a :: r)))
  end.

(** [s.replace(/\/$/, '')]: drops one slash at the very end. *)
Fixpoint stripTrailingSlash (s : string) : string :=
  match s with
  | EmptyString => EmptyString
  | String c rest =>
      match rest with
      | EmptyString => if Ascii.eqb c "/" then EmptyString else s
      | _ => String c (stripTrailingSlash rest)
      end
  end.

(** The numbers getSummary computes with: IEEE 754 binary64 values, with the
    operations of the Standard Library's SpecFloat, which round to nearest,
    ties to even. *)
Definition number : Type := spec_float.

(** The number of an integer; exact below 2^53. *)
Definition ofInt (z : Z) : number := binary_normalize 53 1024 z 0 false.

(** The number that is the length of an array. *)
Definition ofLength (n : nat) : number := ofInt (Z.of_nat n).

(** [x + y] *)
Definition add (x y : number) : number := SFadd 53 1024 x y.

(** [x / y] *)
Definition div (x y : number) : number := SFdiv 53 1024 x y.

(** [x * y] *)
Definition mul (x y : number) : number := SFmul 53 1024 x y.

(** [x || d] on numbers: NaN, 0 and -0 are falsy. *)
Definition orElse (x d : number) : number :=
  match x with
  | S754_nan | S754_zero _ => d
  | _ => x
  end.

(** A positive integer below 2^53 with its digits moved up to 53 places,
    and the exponent that goes with them. *)
Definition aligned (p : positive) : positive * Z :=
  match Zpos (digits2_pos p) - 53 with
  | Zneg q => (Pos.iter xO p q, Zpos (digits2_pos p) - 53)
  | _ => (p, 0)
  end.

(** Zero, a positive number or infinity. *)
Definition notNegative (x : number) : bool :=
  match x with
  | S754_zero false | S754_infinity false | S754_finite false _ _ => true
  | _ => false
  end.

(** The rational a finite number stands for. *)
Definition toQ (x : number) : Q :=
  match x with
  | S754_finite sign m e =>
      Qmult (inject_Z (if sign then Zneg m else Zpos m)) (Qpower (2 # 1) e)
  | _ => 0%Q
  end.

End JS.

Import JS.

Notation "x <- c ;; k" := (JS.bind c (fun x => k))
  (at level 61, c at next level, right associativity).

(* ------------------------------------------------------------------------- *)
(** ** Config (config/config.js), the fields the service reads *)

Module Cfg.

Record EmailConfig : Type := {
  batchSize : option Z;             (* Config.email.batchSize *)
  delayBetweenBatches : option Z    (* Config.email.delayBetweenBatches *)
}.

Record BackendConfig : Type := {
  apiUrl : option string            (* Config.backend.apiUrl *)
}.

Record t : Type := {
  email : EmailConfig;
  backend : option BackendConfig
}.

End Cfg.

(** The object shipped in config/config.js. *)
Definition Config : Cfg.t := {|
  Cfg.email := {| Cfg.batchSize := Some 10; Cfg.delayBetweenBatches := Some 1000 |};
  Cfg.backend := Some {| Cfg.apiUrl := Some "/api/send-email" |}
|}.

(** [x || d] for an optional number of the configuration. *)
Definition numberOr (x : option Z) (d : Z) : Z :=
  match x with
  | Some z => if z =? 0 then d else z
  | None => d
  end.

(** [Config.backend?.apiUrl || '/api/send-email'] *)
Definition backendApiUrl0 (cfg : Cfg.t) : string :=
  match Cfg.backend cfg with
  | Some b =>
      match Cfg.apiUrl b with
      | Some u => if String.eqb u "" then "/api/send-email" else u
      | None => "/api/send-email"
      end
  | None => "/api/send-email"
  end.

(* ------------------------------------------------------------------------- *)
(** ** The world outside: fetch and the clock *)

Record request : Type := {
  toEmail : string;
  subject : string;
  body : string
}.

Record response : Type := {
  json : completion value           (* response.json() *)
}.

Record World : Type := {
  fetch : nat -> string -> request -> completion response;
  now : nat -> Z
}.

(* ------------------------------------------------------------------------- *)
(** ** EmailService.sendEmail *)

Section SendEmail.

Variable cfg : Cfg.t.
Variable w : World.

(** The body of the [try] block of the [k]-th send. *)
Definition sendEmailTry (k : nat) (to subj bdy : string) : completion value :=
  let backendApiUrl := stripTrailingSlash (backendApiUrl0 cfg) in
  resp <- fetch w k backendApiUrl
            {| toEmail := to; subject := subj; body := bdy |} ;;
  result <- json resp ;;
  sentAt <- getProp result "sentAt" ;;
  result <-
    (if truthy sentAt
     then date <- newDate sentAt ;; Normal (setProp result "sentAt" date)
     else Normal result) ;;
  attemptedAt <- getProp result "attemptedAt" ;;
  result <-
    (if truthy attemptedAt
     then date <- newDate attemptedAt ;;
          Normal (setProp result "attemptedAt" date)
     else Normal result) ;;
  Normal result.

(** The object built by the [catch] block. *)
Definition networkFailure (k : nat) (to subj : string) (err : error) : value :=
  VObj [ ("success", VBool false);
         ("email", VStr to);
         ("subject", VStr subj);
         ("attemptedAt", VDate (VNum (inject_Z (now w k))));
         ("errorMessage",
           VStr (if String.eqb (message err) ""
                 then "Network error or API connection failed"
                 else message err));
         ("errorCode", VStr "NETWORK_ERROR") ].

Definition sendEmail (k : nat) (to subj bdy : string) : completion value :=
  tryCatch (sendEmailTry k to subj bdy)
           (fun err => Normal (networkFailure k to subj err)).

End SendEmail.

(* ------------------------------------------------------------------------- *)
(** ** The ledger, the progress snapshot and the result of a run *)

(** [this.results] *)
Record Results : Type := {
  success : list value;
  failure : list value
}.

Module Progress.
Record t : Type := {
  processed : Z;
  total : Z;
  success : Z;
  failure : Z
}.
End Progress.

Module RunResult.
Record t : Type := {
  success : list value;
  failure : list value;
  total : Z;
  successCount : Z;
  failureCount : Z
}.
End RunResult.

Module Summary.
Record t : Type := {
  total : Z;
  success : Z;
  failure : Z;
  successRate : number
}.
End Summary.

(** What a run does to the outside, in program order. *)
Inductive event : Type :=
| EvSend (k : nat) (to subj bdy : string)  (* the k-th call of this.sendEmail *)
| EvAwaitAll (m : nat)                     (* await Promise.all of m promises *)
| EvProgress (p : Progress.t)              (* progressCallback(p) *)
| EvSleep (ms : Z).                        (* await of setTimeout(resolve, ms) *)

(** [const batchSize = Config.email.batchSize || 10] *)
Definition batchSize (cfg : Cfg.t) : Z :=
  numberOr (Cfg.batchSize (Cfg.email cfg)) 10.

(** [const delay = Config.email.delayBetweenBatches || 1000] *)
Definition delay (cfg : Cfg.t) : Z :=
  numberOr (Cfg.delayBetweenBatches (Cfg.email cfg)) 1000.

(* ------------------------------------------------------------------------- *)
(** ** EmailService.sendBulkEmails

    The [for] loop is a machine over [loop_state]; one [step] is the test of
    the loop followed by one pass through its body and the increment. The
    progress callback is an observer: it is either absent or called, and a
    call returns. *)

Record loop_state : Type := {
  i : Z;                (* the loop counter *)
  results : Results;    (* this.results *)
  calls : nat;          (* sends issued so far *)
  trace : list event
}.

Inductive machine : Type :=
| Running (s : loop_state)
| Resolved (r : RunResult.t) (s : loop_state)
| Rejected (e : error) (s : loop_state).

Section SendBulkEmails.

Variable cfg : Cfg.t.
Variable w : World.
Variable emailList : list string.
Variables subject body : string.
Variable progressCallback : bool.   (* was a callback passed? *)

Definition total : Z := Z.of_nat (List.length emailList).

(** [batch.map(email => this.sendEmail(email, subject, body))], the first
    call being the [k]-th of the run. *)
Fixpoint mapSend (k : nat) (batch : list string) : list (completion value) :=
  match batch with
  | [] => []
  | email :: rest => sendEmail cfg w k email subject body :: mapSend (S k) rest
  end.

Fixpoint sendEvents (k : nat) (batch : list string) : list event :=
  match batch with
  | [] => []
  | email :: rest => EvSend k email subject body :: sendEvents (S k) rest
  end.

(** The callback of [batchResults.forEach]. *)
Definition categorize (acc : completion Results) (result : value)
  : completion Results :=
  rs <- acc ;;
  ok <- getProp result "success" ;;
  Normal (if truthy ok
          then {| success := success rs ++ [result]; failure := failure rs |}
          else {| success := success rs; failure := failure rs ++ [result] |}).

Definition forEachCategorize (batchResults : list value) (rs : Results)
  : completion Results :=
  fold_left categorize batchResults (Normal rs).

(** One pass through the body of the loop, and [i += batchSize]. *)
Definition iteration (s : loop_state) : machine :=
  let batch := slice emailList (i s) (i s + batchSize cfg) in
  let issued :=
    trace s ++ sendEvents (calls s) batch ++ [EvAwaitAll (List.length batch)] in
  let calls' := (calls s + List.length batch)%nat in
  match PromiseAll (mapSend (calls s) batch) with
  | Throw e =>
      Rejected e {| i := i s; results := results s;
                    calls := calls'; trace := issued |}
  | Normal batchResults =>
      match forEachCategorize batchResults (results s) with
      | Throw e =>
          Rejected e {| i := i s; results := results s;
                        calls := calls'; trace := issued |}
      | Normal rs =>
          let processed := Z.min (i s + batchSize cfg) total in
          let reported :=
            if progressCallback
            then [EvProgress
                    {| Progress.processed := processed;
                       Progress.total := total;
                       Progress.success := Z.of_nat (List.length (success rs));
                       Progress.failure := Z.of_nat (List.length (failure rs)) |}]
            else [] in
          let slept :=
            if i s + batchSize cfg <? Z.of_nat (List.length emailList)
            then [EvSleep (delay cfg)] else [] in
          Running {| i := i s + batchSize cfg; results := rs;
                     calls := calls'; trace := issued ++ reported ++ slept |}
      end
  end.

Definition step (s : loop_state) : machine :=
  if i s <? Z.of_nat (List.length emailList)
  then iteration s
  else Resolved
         {| RunResult.success := success (results s);
            RunResult.failure := failure (results s);
            RunResult.total := total;
            RunResult.successCount := Z.of_nat (List.length (success (results s)));
            RunResult.failureCount := Z.of_nat (List.length (failure (results s))) |}
         s.

Definition advance (m : machine) : machine :=
  match m with
  | Running s => step s
  | _ => m
  end.

(** On entry [this.results] is replaced by an empty ledger, whatever it
    held. *)
Definition start : loop_state :=
  {| i := 0; results := {| success := []; failure := [] |};
     calls := 0; trace := [] |}.

(** The run after at most [n] tests of the loop condition. *)
Definition sendBulkEmailsAfter (n : nat) : machine :=
  Nat.iter n advance (Running start).

(** The run; for a batch size of at least 1 the loop is left after at most
    [length emailList + 1] tests (see [sendBulkEmailsAfter_enough]). *)
Definition sendBulkEmails : machine :=
  sendBulkEmailsAfter (S (List.length emailList)).

End SendBulkEmails.

(* ------------------------------------------------------------------------- *)
(** ** getSuccessList, getFailureList, getSummary, reset *)

Definition getSuccessList (this : Results) : list value := success this.

Definition getFailureList (this : Results) : list value := failure this.

Definition getSummary (this : Results) : Summary.t :=
  let s := List.length (success this) in
  let f := List.length (failure this) in
  {| Summary.total := Z.of_nat (s + f);
     Summary.success := Z.of_nat s;
     Summary.failure := Z.of_nat f;
     Summary.successRate :=
       orElse (mul (div (ofLength s) (add (ofLength s) (ofLength f)))
                   (ofInt 100))
              (ofInt 0) |}.

Definition reset (this : Results) : Results :=
  {| success := []; failure := [] |}.

(* ------------------------------------------------------------------------- *)
(** ** Observations on outcomes and traces *)

(** The value the [k]-th send resolves with. *)
Definition outcome (cfg : Cfg.t) (w : World) (subject body : string)
  (k : nat) (email : string) : value :=
  match sendEmail cfg w k email subject body with
  | Normal v => v
  | Throw _ => VUndefined
  end.

(** The outcomes of the entries of [l], the first entry being the [k]-th
    send of the run. *)
Fixpoint outcomesFrom (cfg : Cfg.t) (w : World) (subject body : string)
  (k : nat) (l : list string) : list value :=
  match l with
  | [] => []
  | email :: rest =>
      outcome cfg w subject body k email
        :: outcomesFrom cfg w subject body (S k) rest
  end.

Definition nullish (v : value) : bool :=
  match v with
  | VUndefined | VNull => true
  | _ => false
  end.

(** The test [result.success] of the categorisation. *)
Definition isSuccess (v : value) : bool :=
  match getProp v "success" with
  | Normal ok => truthy ok
  | Throw _ => false
  end.

Definition isFailure (v : value) : bool := negb (isSuccess v).

(** The transport of a send fails: [fetch] rejects, or the reply cannot be
    parsed. *)
Inductive transportFails (cfg : Cfg.t) (w : World) (k : nat)
  (to subj bdy : string) (err : error) : Prop :=
| fetchRejects :
    fetch w k (stripTrailingSlash (backendApiUrl0 cfg))
      {| toEmail := to; subject := subj; body := bdy |} = Throw err ->
    transportFails cfg w k to subj bdy err
| jsonRejects (resp : response) :
    fetch w k (stripTrailingSlash (backendApiUrl0 cfg))
      {| toEmail := to; subject := subj; body := bdy |} = Normal resp ->
    json resp = Throw err ->
    transportFails cfg w k to subj bdy err.

(** sendEmail posts to the address [u]: in every world, what a send resolves
    with is decided by the reply of fetch at [u] to the request made of the
    three arguments (and by the clock), and when that fetch rejects, the
    catch block reports its error. *)
Definition postsTo (cfg : Cfg.t) (u : string) : Prop :=
  forall w k to subj bdy,
    (forall w',
        fetch w' k u {| toEmail := to; subject := subj; body := bdy |}
        = fetch w k u {| toEmail := to; subject := subj; body := bdy |} ->
        now w' k = now w k ->
        sendEmail cfg w' k to subj bdy = sendEmail cfg w k to subj bdy) /\
    (forall e,
        fetch w k u {| toEmail := to; subject := subj; body := bdy |} = Throw e ->
        sendEmail cfg w k to subj bdy = Normal (networkFailure w k to subj e)).

Definition sendsOf (tr : list event) : list (nat * string) :=
  flat_map (fun e => match e with EvSend k to _ _ => [(k, to)] | _ => [] end) tr.

Definition progressOf (tr : list event) : list Progress.t :=
  flat_map (fun e => match e with EvProgress p => [p] | _ => [] end) tr.

Definition sleepsOf (tr : list event) : list Z :=
  flat_map (fun e => match e with EvSleep ms => [ms] | _ => [] end) tr.

(** The recipients sent to, grouped by the [await Promise.all] that closes
    each group; [cur] is the group under way. *)
Fixpoint groupsFrom (cur : list string) (tr : list event) : list (list string) :=
  match tr with
  | [] => []
  | EvSend _ to _ _ :: rest => groupsFrom (cur ++ [to]) rest
  | EvAwaitAll _ :: rest => cur :: groupsFrom [] rest
  | _ :: rest => groupsFrom cur rest
  end.

Definition groupsOf (tr : list event) : list (list string) := groupsFrom [] tr.

(** Await points and progress calls, in program order. *)
Definition reportsOf (tr : list event) : list (option Progress.t) :=
  flat_map (fun e => match e with
                     | EvAwaitAll _ => [None]
                     | EvProgress p => [Some p]
                     | _ => []
                     end) tr.

(** ceil(n / b) for b >= 1 *)
Definition ceilDiv (n b : Z) : Z := (n + b - 1) / b.

(** The ledger that records the outcomes [vs], in their order. *)
Definition ledgerOf (vs : list value) : Results :=
  {| success := filter isSuccess vs; failure := filter isFailure vs |}.

(** The entries of a list with their positions. *)
Definition indexed {A} (l : list A) : list (nat * A) :=
  combine (seq 0 (List.length l)) l.

(** The trace a machine state carries. *)
Definition traceOf (m : machine) : list event :=
  match m with
  | Running s | Resolved _ s | Rejected _ s => trace s
  end.


(* ------------------------------------------------------------------------- *)
(** ** The run in closed form, for a batch size of at least 1 *)

Section ClosedForm.

Variable cfg : Cfg.t.
Variable w : World.
Variable emailList : list string.
Variables subject body : string.
Variable progressCallback : bool.

Local Abbreviation B := (Z.to_nat (batchSize cfg)).
Local Abbreviation n := (List.length emailList).
Local Abbreviation outs := (outcomesFrom cfg w subject body 0 emailList).

(** The [j]-th group (from 0). *)
Definition batchAt (j : nat) : list string :=
  firstn B (skipn (j * B) emailList).

(** The outcomes recorded once [j] groups are done. *)
Definition seenAfter (j : nat) : list value := firstn (j * B) outs.

(** The snapshot reported after the [j]-th group. *)
Definition snapshotAfter (j : nat) : Progress.t :=
  {| Progress.processed := Z.min (Z.of_nat (S j * B)) (Z.of_nat n);
     Progress.total := Z.of_nat n;
     Progress.success :=
       Z.of_nat (List.length (filter isSuccess (seenAfter (S j))));
     Progress.failure :=
       Z.of_nat (List.length (filter isFailure (seenAfter (S j)))) |}.

(** The events of the [j]-th group up to its progress call ... *)
Definition groupWork (j : nat) : list event :=
  sendEvents subject body (j * B) (batchAt j)
    ++ [EvAwaitAll (List.length (batchAt j))]
    ++ (if progressCallback then [EvProgress (snapshotAfter j)] else []).

(** ... and the pause that follows it when entries remain. *)
Definition groupPause (j : nat) : list event :=
  if Z.of_nat (S j * B) <? Z.of_nat n then [EvSleep (delay cfg)] else [].

Definition groupTrace (j : nat) : list event := groupWork j ++ groupPause j.

Definition stateAfter (j : nat) : loop_state :=
  {| i := Z.of_nat (j * B);
     results := ledgerOf (seenAfter j);
     calls := Nat.min (j * B) n;
     trace := List.concat (map groupTrace (seq 0 j)) |}.

Definition groupCount : nat := Z.to_nat (ceilDiv (Z.of_nat n) (batchSize cfg)).

Definition resultOf (s : loop_state) : RunResult.t :=
  {| RunResult.success := success (results s);
     RunResult.failure := failure (results s);
     RunResult.total := Z.of_nat n;
     RunResult.successCount := Z.of_nat (List.length (success (results s)));
     RunResult.failureCount := Z.of_nat (List.length (failure (results s))) |}.

End ClosedForm.

(* ------------------------------------------------------------------------- *)
(** *** Worlds and configurations used as examples *)

Definition okReply : value :=
  VObj [ ("success", VBool true); ("email", VStr "a@x.io");
         ("sentAt", VStr "2024-05-01T10:00:00.000Z");
         ("messageId", VStr "msg-1") ].

(** Every send is accepted by the backend. *)
Definition worldAllOk : World :=
  {| fetch := fun _ _ _ => Normal {| json := Normal okReply |};
     now := fun k => 1714557600000 + Z.of_nat k |}.

(** The network is down: every fetch rejects. *)
Definition worldAllFail : World :=
  {| fetch := fun _ _ _ => Throw (mkError "Failed to fetch");
     now := fun k => 1714557600000 + Z.of_nat k |}.

(** The second fetch (call 1) rejects, the others are accepted. *)
Definition worldSecondFails : World :=
  {| fetch := fun k _ _ =>
                if Nat.eqb k 1 then Throw (mkError "Failed to fetch")
                else Normal {| json := Normal okReply |};
     now := fun k => 1714557600000 + Z.of_nat k |}.

(** The backend reports success with a sentAt that is an object with a
    property toString. *)
Definition oddDateReply : value :=
  VObj [ ("success", VBool true);
         ("sentAt", VObj [ ("toString", VNum 1) ]) ].

Definition worldOddDate : World :=
  {| fetch := fun _ _ _ => Normal {| json := Normal oddDateReply |};
     now := fun k => 1714557600000 + Z.of_nat k |}.

(** The backend answers with the JSON text [null]. *)
Definition worldNullReply : World :=
  {| fetch := fun _ _ _ => Normal {| json := Normal VNull |};
     now := fun k => 1714557600000 + Z.of_nat k |}.

Definition configWith (b d : option Z) : Cfg.t :=
  {| Cfg.email := {| Cfg.batchSize := b; Cfg.delayBetweenBatches := d |};
     Cfg.backend := Some {| Cfg.apiUrl := Some "/api/send-email" |} |}.

Definition threeRecipients : list string := ["a@x.io"; "b@x.io"; "a@x.io"].

(** [m] recipients: a@x.io, b@x.io, ... *)
Definition recipients (m : nat) : list string :=
  map (fun k => String (ascii_of_nat (97 + k mod 26)) "@x.io") (seq 0 m).

(* ------------------------------------------------------------------------- *)
(** ** Strings and regular expressions

    A [string] stands for a JavaScript string all of whose code units are
    below 256, one [ascii] per code unit. *)

Module Str.

(** The code units below 256 that [\s] matches and [trim] removes: tab,
    line feed, vertical tab, form feed, carriage return, space and
    no-break space. *)
Definition isWhiteSpace (c : ascii) : bool :=
  let n := nat_of_ascii c in
  ((9 <=? n)%nat && (n <=? 13)%nat) || (n =? 32)%nat || (n =? 160)%nat.

Fixpoint trimStart (s : list ascii) : list ascii :=
  match s with
  | [] => []
  | c :: rest => if isWhiteSpace c then trimStart rest else s
  end.

Definition trimEnd (s : list ascii) : list ascii := rev (trimStart (rev s)).

(** [s.trim()] *)
Definition trim (s : string) : string :=
  string_of_list_ascii (trimEnd (trimStart (list_ascii_of_string s))).

End Str.

Module RegExp.

(** The patterns used: character classes, sequence, alternative, star. *)
Inductive t : Type :=
| Never
| Empty
| Class (p : ascii -> bool)
| Seq (r1 r2 : t)
| Alt (r1 r2 : t)
| Star (r : t).

(** [r+] *)
Definition Plus (r : t) : t := Seq r (Star r).

Fixpoint nullable (r : t) : bool :=
  match r with
  | Never => false
  | Empty => true
  | Class _ => false
  | Seq r1 r2 => nullable r1 && nullable r2
  | Alt r1 r2 => nullable r1 || nullable r2
  | Star _ => true
  end.

(** What is left of [r] to match once the code unit [c] is read. *)
Fixpoint deriv (c : ascii) (r : t) : t :=
  match r with
  | Never => Never
  | Empty => Never
  | Class p => if p c then Empty else Never
  | Seq r1 r2 =>
      if nullable r1
      then Alt (Seq (deriv c r1) r2) (deriv c r2)
      else Seq (deriv c r1) r2
  | Alt r1 r2 => Alt (deriv c r1) (deriv c r2)
  | Star r0 => Seq (deriv c r0) (Star r0)
  end.

Fixpoint matches (r : t) (s : list ascii) : bool :=
  match s with
  | [] => nullable r
  | c :: rest => matches (deriv c r) rest
  end.

(** [/^r$/.test(s)] *)
Definition test (r : t) (s : string) : bool :=
  matches r (list_ascii_of_string s).

(** The code unit sequences a pattern denotes. *)
Inductive lang : t -> list ascii -> Prop :=
| lang_Empty : lang Empty []
| lang_Class p c : p c = true -> lang (Class p) [c]
| lang_Seq r1 r2 s1 s2 : lang r1 s1 -> lang r2 s2 -> lang (Seq r1 r2) (s1 ++ s2)
| lang_Alt_l r1 r2 s : lang r1 s -> lang (Alt r1 r2) s
| lang_Alt_r r1 r2 s : lang r2 s -> lang (Alt r1 r2) s
| lang_Star_nil r : lang (Star r) []
| lang_Star_cons r s1 s2 :
    lang r s1 -> lang (Star r) s2 -> lang (Star r) (s1 ++ s2).

End RegExp.

(* ------------------------------------------------------------------------- *)
(** ** ExcelParser.validateEmails *)

Module Invalid.
Record t : Type := {
  email : string;
  row : Z;
  reason : string
}.
End Invalid.

Module Validation.
Record t : Type := {
  valid : list string;
  invalid : list Invalid.t;
  total : Z;
  validCount : Z;
  invalidCount : Z
}.
End Validation.

(** [[^\s@]] *)
Definition notSpaceNorAt (c : ascii) : bool :=
  negb (Str.isWhiteSpace c || Ascii.eqb c "@").

(** [/^[^\s@]+@[^\s@]+\.[^\s@]+$/] *)
Definition emailRegex : RegExp.t :=
  RegExp.Seq (RegExp.Plus (RegExp.Class notSpaceNorAt))
    (RegExp.Seq (RegExp.Class (Ascii.eqb "@"))
       (RegExp.Seq (RegExp.Plus (RegExp.Class notSpaceNorAt))
          (RegExp.Seq (RegExp.Class (Ascii.eqb "."))
             (RegExp.Plus (RegExp.Class notSpaceNorAt))))).

(** [emailRegex.test(email)] *)
Definition accepted (email : string) : bool := RegExp.test emailRegex email.

(** The entry of the invalid list for the address at position [index]. *)
Definition invalidAt (index : nat) (email : string) : Invalid.t :=
  {| Invalid.email := email;
     Invalid.row := Z.of_nat index + 2;
     Invalid.reason := "Invalid email format" |}.

(** [emails.forEach((email, index) => ...)], from position [index] on, with
    the two arrays as they stand. *)
Fixpoint validateEach (index : nat) (emails : list string)
  (valid : list string) (invalid : list Invalid.t)
  : list string * list Invalid.t :=
  match emails with
  | [] => (valid, invalid)
  | email :: rest =>
      if RegExp.test emailRegex email
      then validateEach (S index) rest (valid ++ [email]) invalid
      else validateEach (S index) rest valid
             (invalid ++ [ {| Invalid.email := email;
                              Invalid.row := Z.of_nat index + 2;
                              Invalid.reason := "Invalid email format" |} ])
  end.

(** [[...new Set(values)]] continued from the elements [seen] already in the
    set: a value is added, at the end, unless it is in the set. *)
Fixpoint setFrom (seen values : list string) : list string :=
  match values with
  | [] => seen
  | v :: rest =>
      setFrom (if existsb (String.eqb v) seen then seen else seen ++ [v]) rest
  end.

Definition validateEmails (emails : list string) : Validation.t :=
  let (valid, invalid) := validateEach 0 emails [] [] in
  let uniqueValid := setFrom [] valid in
  {| Validation.valid := uniqueValid;
     Validation.invalid := invalid;
     Validation.total := Z.of_nat (List.length emails);
     Validation.validCount := Z.of_nat (List.length uniqueValid);
     Validation.invalidCount := Z.of_nat (List.length invalid) |}.

(* ------------------------------------------------------------------------- *)
(** ** ExcelParser: sheets and columns

    A worksheet is represented by the rows that
    [XLSX.utils.sheet_to_json(worksheet, { header: 1, defval: '' })] yields
    for it. [toString] is [value.toString()] on a cell that is not a
    string (numbers, booleans, dates); a string is its own text. *)

Definition rows : Type := list (list value).

Record Workbook : Type := {
  SheetNames : list string;
  Sheets : list (string * rows)
}.

(** The properties of the ExcelParser object. *)
Record ExcelParserState : Type := {
  workbook : option Workbook;
  currentSheet : option string;
  sheetData : option rows
}.

(** The sheet that [Sheets] holds under the name as a property of its own. *)
Fixpoint lookupSheet (sheetName : string) (sheets : list (string * rows))
  : option rows :=
  match sheets with
  | [] => None
  | (name, data) :: rest =>
      if String.eqb sheetName name then Some data else lookupSheet sheetName rest
  end.

(** The names Object.prototype defines. Under each of them a plain object
    such as [workbook.Sheets] finds a function (for __proto__, the prototype
    itself) unless it has a property of its own by that name. *)
Definition objectPrototypeNames : list string :=
  [ "constructor"; "__defineGetter__"; "__defineSetter__"; "hasOwnProperty";
    "__lookupGetter__"; "__lookupSetter__"; "isPrototypeOf";
    "propertyIsEnumerable"; "toString"; "valueOf"; "__proto__";
    "toLocaleString" ].

Definition inherited (name : string) : bool :=
  existsb (String.eqb name) objectPrototypeNames.

(** The rows [XLSX.utils.sheet_to_json(worksheet, ...)] yields for
    [worksheet = this.workbook.Sheets[sheetName]], and [None] when that is
    undefined. What the object inherits is truthy and no worksheet (it has
    no "!ref"): sheet_to_json yields no rows for it. *)
Definition worksheetRows (sheetName : string) (sheets : list (string * rows))
  : option rows :=
  match lookupSheet sheetName sheets with
  | Some data => Some data
  | None => if inherited sheetName then Some [] else None
  end.

(** [headers.findIndex(h => h === columnName)] *)
Fixpoint findHeader (columnName : string) (headers : list value) : option nat :=
  match headers with
  | [] => None
  | h :: rest =>
      match h with
      | VStr s =>
          if String.eqb s columnName then Some 0%nat
          else option_map S (findHeader columnName rest)
      | _ => option_map S (findHeader columnName rest)
      end
  end.

Section ExcelParser.

Variable toString : value -> string.

(** [v.toString()] *)
Definition cellText (v : value) : string :=
  match v with
  | VStr s => s
  | _ => toString v
  end.

(** The workbook of a file that parseExcelFile has read. *)
Definition parsed (this : ExcelParserState) (wb : Workbook) : ExcelParserState :=
  {| workbook := Some wb;
     currentSheet := currentSheet this;
     sheetData := sheetData this |}.

Definition getSheets (this : ExcelParserState) : list string :=
  match workbook this with
  | None => []
  | Some wb => SheetNames wb
  end.

(** The state afterwards and the value returned ([None] for null). *)
Definition getSheetData (this : ExcelParserState) (sheetName : string)
  : ExcelParserState * option rows :=
  match workbook this with
  | None => (this, None)
  | Some wb =>
      if String.eqb sheetName "" then (this, None)
      else
        match worksheetRows sheetName (Sheets wb) with
        | None => (this, None)
        | Some data =>
            ({| workbook := workbook this;
                currentSheet := Some sheetName;
                sheetData := Some data |},
             Some data)
        end
  end.

(** [header && header.toString().trim() !== ''] *)
Definition isHeader (header : value) : bool :=
  truthy header && negb (String.eqb (Str.trim (cellText header)) "").

Definition getColumns (data : option rows) : list value :=
  match data with
  | None => []
  | Some [] => []
  | Some (headers :: _) => filter isHeader headers
  end.

(** What the loop of getColumnData pushes for one row. *)
Definition columnCell (columnIndex : nat) (row : list value) : list string :=
  match nth_error row columnIndex with
  | None => []
  | Some VUndefined => []
  | Some VNull => []
  | Some v =>
      match v with
      | VStr s => if String.eqb s "" then [] else [Str.trim (cellText v)]
      | _ => [Str.trim (cellText v)]
      end
  end.

Definition getColumnData (this : ExcelParserState) (columnName : string)
  : completion (list string) :=
  match sheetData this with
  | None => Normal []
  | Some data =>
      if String.eqb columnName "" then Normal []
      else
        match data with
        | [] =>
            Throw (mkError
                     "Cannot read properties of undefined (reading 'findIndex')")
        | headers :: dataRows =>
            match findHeader columnName headers with
            | None => Normal []
            | Some columnIndex =>
                Normal (flat_map (columnCell columnIndex) dataRows)
            end
        end
  end.

End ExcelParser.

(** [ExcelParser.reset()] *)
Definition resetParser (this : ExcelParserState) : ExcelParserState :=
  {| workbook := None; currentSheet := None; sheetData := None |}.

(** The current sheet and its rows belong together: either none is set, or
    the rows are those read under the current name in the workbook. *)
Definition sheetConsistent (st : ExcelParserState) : Prop :=
  match currentSheet st, sheetData st with
  | None, None => True
  | Some name, Some data =>
      exists wb,
        workbook st = Some wb /\ worksheetRows name (Sheets wb) = Some data
  | _, _ => False
  end.

(** No white space at either end. *)
Definition trimmed (s : string) : Prop :=
  match list_ascii_of_string s with
  | [] => True
  | c :: rest =>
      Str.isWhiteSpace c = false /\ Str.isWhiteSpace (last rest c) = false
  end.

(* ------------------------------------------------------------------------- *)
(** ** String primitives used by the report generator and the file check *)

Module Chars.

(** [s.toLowerCase()] on code units below 256: A-Z and the capital letters
    of Latin-1 (À-Ö, Ø-Þ) move up by 32. *)
Definition toLower (c : ascii) : ascii :=
  let n := nat_of_ascii c in
  if ((65 <=? n)%nat && (n <=? 90)%nat)
     || ((192 <=? n)%nat && (n <=? 222)%nat && negb (n =? 215)%nat)
  then ascii_of_nat (n + 32)
  else c.

(** [s.replace(/[...]/g, by)] for a character class [p]. *)
Definition replaceAll (p : ascii -> bool) (by_ : ascii) (s : list ascii)
  : list ascii :=
  map (fun c => if p c then by_ else c) s.

(** [s.includes(c)] for a single code unit [c]. *)
Definition includes (c : ascii) (s : list ascii) : bool :=
  existsb (Ascii.eqb c) s.

(** [s.split(sep).pop()]: what follows the last [sep], the whole of [s]
    when it holds no [sep]. *)
Fixpoint lastSegment (sep : ascii) (s : list ascii) : list ascii :=
  match s with
  | [] => []
  | c :: rest =>
      if includes sep rest then lastSegment sep rest
      else if Ascii.eqb c sep then rest
      else s
  end.

(** [s.replace(/r$/, '')]: the leftmost match that reaches the end of [s] is
    cut off. *)
Fixpoint cutMatchAtEnd (r : RegExp.t) (s : list ascii) : list ascii :=
  if RegExp.matches r s then []
  else match s with
       | [] => []
       | c :: rest => c :: cutMatchAtEnd r rest
       end.

Fixpoint startsWith (s p : list ascii) {struct p} : bool :=
  match p, s with
  | [], _ => true
  | _ :: _, [] => false
  | a :: p', b :: s' => Ascii.eqb a b && startsWith s' p'
  end.

(** [s.endsWith(suffix)] *)
Definition endsWith (s suffix : list ascii) : bool :=
  startsWith (rev s) (rev suffix).

(** [s.slice(0, -k)] for k > 0 *)
Definition dropLast (k : nat) (s : list ascii) : list ascii :=
  firstn (List.length s - k) s.

End Chars.

(* ------------------------------------------------------------------------- *)
(** ** ReportGenerator.sanitizeFilename *)

(** The class of sanitizeFilename's first pattern: the code units
    < > : / \ | ? * and the double quote (code 34). *)
Definition isInvalidFilenameChar (c : ascii) : bool :=
  existsb (Ascii.eqb c)
    ["<"; ">"; ":"; "034"; "/"; "\"; "|"; "?"; "*"]%char.

(** [/\.[^/.]+$/] without its anchor *)
Definition extensionRegex : RegExp.t :=
  RegExp.Seq (RegExp.Class (Ascii.eqb "."))
    (RegExp.Plus
       (RegExp.Class (fun c => negb (Ascii.eqb c "/" || Ascii.eqb c ".")))).

(** [new Date().toISOString().replace(/[:.]/g, '-').slice(0, -5)], for the
    text [iso] that toISOString returns. *)
Definition timestampOf (iso : list ascii) : list ascii :=
  Chars.dropLast 5
    (Chars.replaceAll (fun c => Ascii.eqb c ":" || Ascii.eqb c ".") "-" iso).

(** sanitizeFilename on code units; [includeTimestamp] is the truth value
    of [Config && Config.report && Config.report.includeTimestamp]. *)
Definition sanitizeChars (includeTimestamp : bool) (iso filename : list ascii)
  : list ascii :=
  let sanitized := Chars.replaceAll isInvalidFilenameChar "_" filename in
  let sanitized :=
    if includeTimestamp then
      let timestamp := timestampOf iso in
      let extension :=
        if Chars.includes "." sanitized
        then Chars.lastSegment "." sanitized
        else list_ascii_of_string "xlsx" in
      let nameWithoutExt := Chars.cutMatchAtEnd extensionRegex sanitized in
      nameWithoutExt ++ ["_"%char] ++ timestamp ++ ["."%char] ++ extension
    else sanitized in
  if Chars.endsWith sanitized (list_ascii_of_string ".xlsx")
  then sanitized
  else sanitized ++ list_ascii_of_string ".xlsx".

Definition sanitizeFilename (includeTimestamp : bool) (iso filename : string)
  : string :=
  string_of_list_ascii
    (sanitizeChars includeTimestamp
       (list_ascii_of_string iso) (list_ascii_of_string filename)).

(* ------------------------------------------------------------------------- *)
(** ** App.validateFile *)

Record File : Type := {
  name : string;
  size : Z
}.

(** [Config.upload] *)
Record UploadConfig : Type := {
  maxFileSize : Z;
  allowedTypes : list string
}.

(** The values of config/config.js. *)
Definition upload : UploadConfig :=
  {| maxFileSize := 10 * 1024 * 1024;
     allowedTypes := [".xlsx"; ".xls"] |}.

(** What validateFile does: it returns true ([Accepted]), or shows one of
    its two error toasts and returns false. *)
Inductive fileVerdict : Type :=
| Accepted
| TooLarge
| InvalidType.

(** [s.toLowerCase()] *)
Definition toLowerCase (s : string) : string :=
  string_of_list_ascii (map Chars.toLower (list_ascii_of_string s)).

(** ['.' + file.name.split('.').pop().toLowerCase()] *)
Definition extensionOf (fileName : string) : string :=
  String "."
    (string_of_list_ascii
       (map Chars.toLower
            (Chars.lastSegment "." (list_ascii_of_string fileName)))).

Definition validateFile (cfg : UploadConfig) (file : File) : fileVerdict :=
  if maxFileSize cfg <? size file then TooLarge
  else if existsb (String.eqb (extensionOf (name file))) (allowedTypes cfg)
       then Accepted
       else InvalidType.

(* ------------------------------------------------------------------------- *)
(** ** FormManager: the steps of the form

    The state of FormManager is its step counter and its form data, with the
    fields at the types the application stores in them. What the methods do
    to the page (showing and hiding the step elements, the step indicator)
    is not part of the state. *)

Module FormManager.

Record FormData : Type := {
  file : option File;
  fileName : string;
  fileSize : Z;
  selectedSheet : option string;
  selectedColumn : option string;
  emailList : list string;
  emailValidation : option Validation.t;
  subject : string;
  body : string;
  emailResults : Results
}.

Record t : Type := {
  currentStep : Z;
  totalSteps : Z;
  formData : FormData
}.

(** The form data of the object literal, and of resetForm. *)
Definition emptyForm : FormData :=
  {| file := None; fileName := ""; fileSize := 0;
     selectedSheet := None; selectedColumn := None;
     emailList := []; emailValidation := None;
     subject := ""; body := "";
     emailResults := {| success := []; failure := [] |} |}.

(** The FormManager object as it is declared. *)
Definition initial : t :=
  {| currentStep := 1; totalSteps := 4; formData := emptyForm |}.

Definition init (this : t) : t :=
  {| currentStep := 1; totalSteps := totalSteps this; formData := formData this |}.

Definition showStep (this : t) (step : Z) : t :=
  if (step <? 1) || (totalSteps this <? step) then this
  else {| currentStep := step; totalSteps := totalSteps this;
          formData := formData this |}.

Definition validateStep (this : t) (step : Z) : bool :=
  let d := formData this in
  if step =? 1 then
    match file d with Some _ => true | None => false end
  else if step =? 2 then
    match selectedColumn d, emailValidation d with
    | Some _, Some v => 0 <? Validation.validCount v
    | _, _ => false
    end
  else if step =? 3 then
    negb (String.eqb (Str.trim (subject d)) "")
    && negb (String.eqb (Str.trim (body d)) "")
  else if step =? 4 then true
  else false.

Definition resetForm (this : t) : t :=
  showStep {| currentStep := 1; totalSteps := totalSteps this;
              formData := emptyForm |} 1.

Definition nextStep (this : t) : t :=
  if validateStep this (currentStep this) then
    if currentStep this <? totalSteps this
    then showStep this (currentStep this + 1)
    else this
  else this.

Definition previousStep (this : t) : t :=
  if 1 <? currentStep this then showStep this (currentStep this - 1) else this.

(** The calls that move between the steps. *)
Inductive action : Type :=
| Init
| ShowStep (step : Z)
| NextStep
| PreviousStep
| ResetForm.

Definition perform (this : t) (a : action) : t :=
  match a with
  | Init => init this
  | ShowStep step => showStep this step
  | NextStep => nextStep this
  | PreviousStep => previousStep this
  | ResetForm => resetForm this
  end.

End FormManager.

(* ------------------------------------------------------------------------- *)
(** ** The Lambda handler of the backend (function/sendEmail/src/index.js)

    The event is an object, given by its properties. The body of a response
    is the empty text or [JSON.stringify] of a value, kept as that value.
    [JSON.parse], the request to the provider, the clock and the random
    part of a fallback message id are the world outside. *)

Module Lambda.

(** The constants computed from the environment variables. *)
Record Environment : Type := {
  API_KEY : option string;   (* None: undefined *)
  FROM_EMAIL : string;
  FROM_NAME : string;
  ENV_API_URL : string       (* EMAIL_API_URL || SENDGRID_API_URL || default *)
}.

(** What makeRequest resolves with. *)
Record ProviderResponse : Type := {
  status : Z;
  headers : list (string * value);
  body : string
}.

(** [parse] is JSON.parse; [makeRequest url headers data] is
    [await makeRequest(url, { method: 'POST', headers }, data)], which
    settles; [nowISO] is [new Date().toISOString()]; [idSuffix] is the text
    of [Date.now()], a dash and the random part of a fallback message id. *)
Record Outside : Type := {
  parse : string -> completion value;
  makeRequest : string -> value -> value -> completion ProviderResponse;
  nowISO : string;
  idSuffix : string
}.

Inductive Body : Type :=
| Text (s : string)
| Json (v : value).

Record Response : Type := {
  statusCode : Z;
  responseHeaders : list (string * string);
  responseBody : Body
}.

Definition corsHeaders : list (string * string) :=
  [ ("Access-Control-Allow-Origin", "*");
    ("Access-Control-Allow-Headers", "Content-Type");
    ("Access-Control-Allow-Methods", "POST, GET, OPTIONS");
    ("Content-Type", "application/json") ].

Definition respond (code : Z) (b : Body) : Response :=
  {| statusCode := code; responseHeaders := corsHeaders; responseBody := b |}.

(** [!API_KEY] is false *)
Definition hasKey (env : Environment) : bool :=
  match API_KEY env with
  | Some k => negb (String.eqb k "")
  | None => false
  end.

(** [API_KEY && API_KEY.startsWith('xkeysib-')] *)
Definition isBrevoKey (env : Environment) : bool :=
  match API_KEY env with
  | Some k =>
      negb (String.eqb k "")
      && Chars.startsWith (list_ascii_of_string k)
                          (list_ascii_of_string "xkeysib-")
  | None => false
  end.

Definition API_URL (env : Environment) : string :=
  if isBrevoKey env then "https://api.brevo.com/v3/smtp/email"
  else ENV_API_URL env.

(** [o.k] on the properties of an object *)
Definition field (o : list (string * value)) (k : string) : value :=
  match assoc k o with
  | Some v => v
  | None => VUndefined
  end.

(** [v.k] where [v] is known to be truthy, so that the read cannot throw. *)
Definition prop (v : value) (k : string) : value :=
  match getProp v k with
  | Normal x => x
  | Throw _ => VUndefined
  end.

(** [a || b] *)
Definition orValue (a b : value) : value := if truthy a then a else b.

(** [v === 'text'] *)
Definition isText (v : value) (text : string) : bool :=
  match v with
  | VStr s => String.eqb s text
  | _ => false
  end.

(** [event.requestContext && event.requestContext.http] *)
Definition httpOf (event : list (string * value)) : value :=
  let rc := field event "requestContext" in
  if truthy rc then prop rc "http" else rc.

(** [event.requestContext && event.requestContext.http &&
    event.requestContext.http[k]] *)
Definition httpField (event : list (string * value)) (k : string) : value :=
  let http := httpOf event in
  if truthy http then prop http k else http.

Definition pathOf (event : list (string * value)) : value :=
  orValue (httpField event "path") (orValue (field event "path") (VStr "")).

Definition methodOf (event : list (string * value)) : value :=
  orValue (httpField event "method")
          (orValue (field event "httpMethod") (VStr "GET")).

(** [event.body ? (typeof event.body === 'string' ? JSON.parse(event.body)
    : event.body) : {}] *)
Definition bodyOf (out : Outside) (event : list (string * value))
  : completion value :=
  let b := field event "body" in
  if truthy b
  then match b with
       | VStr s => parse out s
       | _ => Normal b
       end
  else Normal (VObj []).

(** [JSON.parse(response.body || '{}')] *)
Definition parseOrEmpty (out : Outside) (text : string) : completion value :=
  parse out (if String.eqb text "" then "{}" else text).

(** [v?.[0]] on a value that is not null or undefined *)
Definition first (v : value) : value :=
  match v with
  | VArr (x :: _) => x
  | VObj fs => field fs "0"
  | VStr (String c _) => VStr (String c "")
  | _ => VUndefined
  end.

(** [status.toString()] *)
Definition decimal (n : Z) : string := NilZero.string_of_int (Z.to_int n).

Definition brevoData (env : Environment) (toEmail subject emailBody : value)
  : value :=
  VObj [ ("sender", VObj [ ("email", VStr (FROM_EMAIL env));
                           ("name", VStr (FROM_NAME env)) ]);
         ("to", VArr [ VObj [ ("email", toEmail) ] ]);
         ("subject", subject);
         ("htmlContent", emailBody) ].

Definition sendGridData (env : Environment) (toEmail subject emailBody : value)
  : value :=
  VObj [ ("personalizations",
           VArr [ VObj [ ("to", VArr [ VObj [ ("email", toEmail) ] ]) ] ]);
         ("from", VObj [ ("email", VStr (FROM_EMAIL env));
                         ("name", VStr (FROM_NAME env)) ]);
         ("subject", subject);
         ("content", VArr [ VObj [ ("type", VStr "text/html");
                                   ("value", emailBody) ] ]) ].

Definition providerHeaders (env : Environment) : value :=
  let key := match API_KEY env with Some k => k | None => "" end in
  if isBrevoKey env
  then VObj [ ("api-key", VStr key); ("Content-Type", VStr "application/json") ]
  else VObj [ ("Authorization", VStr ("Bearer " ++ key));
              ("Content-Type", VStr "application/json") ].

(** The reply for a provider status from 200 to 299. *)
Definition successReply (env : Environment) (out : Outside)
  (toEmail subject : value) (response : ProviderResponse)
  : completion Response :=
  responseData <- parseOrEmpty out (body response) ;;
  messageId <-
    (let h := field (headers response) "x-message-id" in
     if truthy h then Normal h
     else
       m <- getProp responseData "messageId" ;;
       Normal (orValue m
                 (VStr ((if isBrevoKey env then "brevo" else "sg")
                        ++ "-" ++ idSuffix out)))) ;;
  Normal (respond 200
            (Json (VObj [ ("success", VBool true);
                          ("email", toEmail);
                          ("subject", subject);
                          ("sentAt", VStr (nowISO out));
                          ("messageId", messageId) ]))).

(** The reply for any other provider status. *)
Definition failureReply (out : Outside)
  (toEmail subject : value) (response : ProviderResponse)
  : completion Response :=
  errorData <- parseOrEmpty out (body response) ;;
  m1 <- getProp errorData "message" ;;
  errorMessage <-
    (if truthy m1 then Normal m1
     else
       errors <- getProp errorData "errors" ;;
       let m2 :=
         if nullish errors then VUndefined
         else if nullish (first errors) then VUndefined
              else prop (first errors) "message" in
       if truthy m2 then Normal m2
       else
         m3 <- getProp errorData "error" ;;
         Normal (orValue m3 (VStr ("HTTP " ++ decimal (status response))))) ;;
  Normal (respond (status response)
            (Json (VObj [ ("success", VBool false);
                          ("email", toEmail);
                          ("subject", subject);
                          ("attemptedAt", VStr (nowISO out));
                          ("errorMessage", errorMessage);
                          ("errorCode", VStr (decimal (status response))) ]))).

(** The [try] block of the send-email route. *)
Definition sendTry (env : Environment) (out : Outside) (body : value)
  : completion Response :=
  if negb (hasKey env) then
    Normal (respond 500
              (Json (VObj [ ("success", VBool false);
                            ("error", VStr "Email API key not configured. Please set EMAIL_API_KEY, SENDGRID_API_KEY, or BREVO_API_KEY environment variable.") ])))
  else
    toEmail <- getProp body "toEmail" ;;
    subject <- getProp body "subject" ;;
    emailBody <- getProp body "body" ;;
    if negb (truthy toEmail) || negb (truthy subject) || negb (truthy emailBody)
    then
      Normal (respond 400
                (Json (VObj [ ("success", VBool false);
                              ("error", VStr "Missing required fields: toEmail, subject, and body are required") ])))
    else
      let emailData :=
        if isBrevoKey env
        then brevoData env toEmail subject emailBody
        else sendGridData env toEmail subject emailBody in
      response <- makeRequest out (API_URL env) (providerHeaders env) emailData ;;
      if (200 <=? status response) && (status response <? 300)
      then successReply env out toEmail subject response
      else failureReply out toEmail subject response.

(** The [catch] block of the send-email route. *)
Definition sendCatch (out : Outside) (body : value) (err : error)
  : completion Response :=
  email <- getProp body "toEmail" ;;
  subject <- getProp body "subject" ;;
  Normal (respond 500
            (Json (VObj [ ("success", VBool false);
                          ("email", email);
                          ("subject", subject);
                          ("attemptedAt", VStr (nowISO out));
                          ("errorMessage",
                            VStr (if String.eqb (message err) ""
                                  then "Internal server error"
                                  else message err));
                          ("errorCode", VStr "SERVER_ERROR") ]))).

(** [exports.handler]; [Throw] is a rejected promise. *)
Definition handler (env : Environment) (out : Outside)
  (event : list (string * value)) : completion Response :=
  if isText (httpField event "method") "OPTIONS"
  then Normal (respond 200 (Text ""))
  else
    let path := pathOf event in
    let method := methodOf event in
    body <- bodyOf out event ;;
    if (isText path "/api/health" || isText path "/health") && isText method "GET"
    then
      Normal (respond 200
                (Json (VObj [ ("status", VStr "ok");
                              ("message", VStr "Email service is running") ])))
    else if (isText path "/api/send-email" || isText path "/send-email")
            && isText method "POST"
    then tryCatch (sendTry env out body) (sendCatch out body)
    else
      Normal (respond 404
                (Json (VObj [ ("error", VStr "Not found"); ("path", path) ]))).

End Lambda.

(** Fixtures of the handler: a SendGrid key, a world whose provider answers
    with [reply] and whose JSON.parse accepts only the empty object, and a
    POST to the send-email route in the API Gateway format. *)
Definition sendGridEnv : Lambda.Environment :=
  {| Lambda.API_KEY := Some "SG.key";
     Lambda.FROM_EMAIL := "info@theexcellenceservices.site";
     Lambda.FROM_NAME := "The Excellence Services";
     Lambda.ENV_API_URL := "https://api.sendgrid.com/v3/mail/send" |}.

Definition providerReplies (reply : completion Lambda.ProviderResponse)
  : Lambda.Outside :=
  {| Lambda.parse := fun s =>
       if String.eqb s "{}" then Normal (VObj [])
       else Throw (mkError "Unexpected token in JSON");
     Lambda.makeRequest := fun _ _ _ => reply;
     Lambda.nowISO := "2024-01-01T00:00:00.000Z";
     Lambda.idSuffix := "1704067200000-k3j9x0q2a" |}.

Definition sendEvent (body : value) : list (string * value) :=
  [ ("path", VStr "/api/send-email");
    ("httpMethod", VStr "POST");
    ("body", body) ].

Definition mail : value :=
  VObj [ ("toEmail", VStr "a@x.io");
         ("subject", VStr "Hello");
         ("body", VStr "<p>Hello</p>") ].

(* ------------------------------------------------------------------------- *)
(** ** sendEmail never rejects *)

Lemma sendEmail_Normal cfg w k to subj bdy :
  sendEmail cfg w k to subj bdy = Normal (outcome cfg w subj bdy k to).
Proof.
  unfold outcome, sendEmail, tryCatch.
  destruct (sendEmailTry cfg w k to subj bdy); reflexivity.
Qed.

Lemma sendEmail_caught cfg w k to subj bdy err :
  sendEmailTry cfg w k to subj bdy = Throw err ->
  sendEmail cfg w k to subj bdy = Normal (networkFailure w k to subj err).
Proof. intros H. unfold sendEmail. rewrite H. reflexivity. Qed.

Lemma transportFails_Throw cfg w k to subj bdy err :
  transportFails cfg w k to subj bdy err ->
  sendEmailTry cfg w k to subj bdy = Throw err.
Proof.
  intros [H | resp H1 H2]; unfold sendEmailTry; cbv zeta.
  - rewrite H. reflexivity.
  - rewrite H1. cbn [bind]. rewrite H2. reflexivity.
Qed.

Lemma getProp_Normal v k x : getProp v k = Normal x -> nullish v = false.
Proof. destruct v; cbn; congruence. Qed.

Lemma getProp_not_nullish v k :
  nullish v = false -> exists x, getProp v k = Normal x.
Proof. destruct v; cbn; intros; try discriminate; eauto. Qed.

Lemma setProp_nullish v k x : nullish (setProp v k x) = nullish v.
Proof. destruct v; reflexivity. Qed.

Lemma sendEmailTry_not_nullish cfg w k to subj bdy v :
  sendEmailTry cfg w k to subj bdy = Normal v -> nullish v = false.
Proof.
  unfold sendEmailTry; cbv zeta.
  destruct (fetch w k _ _) as [resp|]; cbn [bind]; [|discriminate].
  destruct (json resp) as [result|]; cbn [bind]; [|discriminate].
  destruct (getProp result "sentAt") as [sentAt|] eqn:E1; cbn [bind]; [|discriminate].
  apply getProp_Normal in E1.
  match goal with |- bind ?c _ = _ -> _ => destruct c as [r1|] eqn:E2 end;
    cbn [bind]; [|discriminate].
  assert (N1 : nullish r1 = false).
  { destruct (truthy sentAt); [|now injection E2 as <-].
    destruct (newDate sentAt); cbn [bind] in E2; [|discriminate].
    injection E2 as <-. now rewrite setProp_nullish. }
  destruct (getProp r1 "attemptedAt") as [att|]; cbn [bind]; [|discriminate].
  match goal with |- bind ?c _ = _ -> _ => destruct c as [r2|] eqn:E3 end;
    cbn [bind]; [|discriminate].
  intros H. injection H as <-.
  destruct (truthy att); [|now injection E3 as <-].
  destruct (newDate att); cbn [bind] in E3; [|discriminate].
  injection E3 as <-. now rewrite setProp_nullish.
Qed.

Lemma outcome_not_nullish cfg w subj bdy k to :
  nullish (outcome cfg w subj bdy k to) = false.
Proof.
  unfold outcome, sendEmail, tryCatch.
  destruct (sendEmailTry cfg w k to subj bdy) eqn:E.
  - eapply sendEmailTry_not_nullish; eassumption.
  - reflexivity.
Qed.

Lemma outcomesFrom_not_nullish cfg w subj bdy l : forall k,
  Forall (fun v => nullish v = false) (outcomesFrom cfg w subj bdy k l).
Proof.
  induction l as [|e l IH]; intros k; cbn; constructor; auto.
  apply outcome_not_nullish.
Qed.

Lemma PromiseAll_mapSend cfg w subj bdy l : forall k,
  PromiseAll (mapSend cfg w subj bdy k l) = Normal (outcomesFrom cfg w subj bdy k l).
Proof.
  induction l as [|e l IH]; intros k; cbn [mapSend PromiseAll outcomesFrom].
  - reflexivity.
  - rewrite sendEmail_Normal. cbn [bind]. rewrite IH. reflexivity.
Qed.

(* ------------------------------------------------------------------------- *)
(** ** List facts used by the scheduler proofs *)

Lemma firstn_plus {A} (l : list A) : forall a c,
  firstn (a + c) l = firstn a l ++ firstn c (skipn a l).
Proof.
  induction l as [|x l IH]; intros a c.
  - now rewrite !firstn_nil, skipn_nil, firstn_nil.
  - destruct a as [|a]; cbn; [reflexivity|]. now rewrite IH.
Qed.

Lemma firstn_min_length {A} (l : list A) m :
  firstn (Nat.min m (List.length l)) l = firstn m l.
Proof.
  destruct (Nat.le_gt_cases m (List.length l)) as [H|H].
  - now rewrite Nat.min_l.
  - rewrite Nat.min_r by lia. rewrite firstn_all, firstn_all2 by lia. reflexivity.
Qed.

Lemma slice_forward {A} (l : list A) (a : nat) (b : Z) :
  1 <= b -> (a < List.length l)%nat ->
  slice l (Z.of_nat a) (Z.of_nat a + b) = firstn (Z.to_nat b) (skipn a l).
Proof.
  intros Hb Ha. unfold slice, clampIndex.
  destruct (Z.ltb_spec (Z.of_nat a) 0); [lia|].
  destruct (Z.ltb_spec (Z.of_nat a + b) 0); [lia|].
  rewrite (Z.min_l (Z.of_nat a)) by lia. rewrite Nat2Z.id.
  rewrite <- (firstn_min_length (skipn a l) (Z.to_nat b)), length_skipn.
  f_equal. lia.
Qed.

Lemma outcomesFrom_app cfg w subj bdy l1 l2 : forall k,
  outcomesFrom cfg w subj bdy k (l1 ++ l2) =
  outcomesFrom cfg w subj bdy k l1
    ++ outcomesFrom cfg w subj bdy (k + List.length l1) l2.
Proof.
  induction l1 as [|e l1 IH]; intros k; cbn.
  - now rewrite Nat.add_0_r.
  - rewrite IH. do 3 f_equal. lia.
Qed.

Lemma outcomesFrom_firstn cfg w subj bdy l : forall k m,
  firstn m (outcomesFrom cfg w subj bdy k l) =
  outcomesFrom cfg w subj bdy k (firstn m l).
Proof.
  induction l as [|e l IH]; intros k m.
  - now rewrite !firstn_nil.
  - destruct m; cbn; [reflexivity|]. now rewrite IH.
Qed.

Lemma outcomesFrom_length cfg w subj bdy l : forall k,
  List.length (outcomesFrom cfg w subj bdy k l) = List.length l.
Proof. induction l; intros k; cbn; auto. Qed.

Lemma filter_length_split {A} (f : A -> bool) (l : list A) :
  (List.length (filter f l) + List.length (filter (fun x => negb (f x)) l)
   = List.length l)%nat.
Proof.
  induction l as [|x l IH]; cbn; [reflexivity|].
  destruct (f x); cbn; lia.
Qed.

Lemma ceilDiv_bounds n b :
  1 <= b -> 0 <= n -> b * (ceilDiv n b - 1) < n <= b * ceilDiv n b.
Proof.
  intros Hb Hn. unfold ceilDiv.
  pose proof (Z.mul_div_le (n + b - 1) b ltac:(lia)).
  pose proof (Z.mul_succ_div_gt (n + b - 1) b ltac:(lia)).
  lia.
Qed.

(* ------------------------------------------------------------------------- *)
(** ** The ledger after a group *)

Lemma forEachCategorize_spec vs :
  Forall (fun v => nullish v = false) vs ->
  forall rs,
    forEachCategorize vs rs =
    Normal {| success := success rs ++ filter isSuccess vs;
              failure := failure rs ++ filter isFailure vs |}.
Proof.
  unfold forEachCategorize.
  induction 1 as [|v vs Hv _ IH]; intros rs; cbn [fold_left filter].
  - rewrite !app_nil_r. now destruct rs.
  - destruct (getProp_not_nullish v "success" Hv) as [ok Hok].
    unfold categorize at 2. cbn [bind]. rewrite Hok. cbn [bind].
    rewrite IH. unfold isFailure, isSuccess. rewrite Hok.
    destruct (truthy ok); cbn [success failure negb];
      now rewrite <- ?app_assoc.
Qed.

(* ------------------------------------------------------------------------- *)
(** ** The run follows its closed form, for a batch size of at least 1 *)

Section ClosedFormFacts.

Variable cfg : Cfg.t.
Variable w : World.
Variable emailList : list string.
Variables subject body : string.
Variable progressCallback : bool.

Local Abbreviation B := (Z.to_nat (batchSize cfg)).
Local Abbreviation n := (List.length emailList).
Local Abbreviation outs := (outcomesFrom cfg w subject body 0 emailList).
Local Abbreviation batch := (batchAt cfg emailList).
Local Abbreviation seen := (seenAfter cfg w emailList subject body).
Local Abbreviation state :=
  (stateAfter cfg w emailList subject body progressCallback).
Local Abbreviation g := (groupCount cfg emailList).
Local Abbreviation result := (resultOf emailList).

Hypothesis Hb : 1 <= batchSize cfg.

Lemma seenAfter_S j :
  (j * B < n)%nat ->
  seen (S j) =
  seen j ++ outcomesFrom cfg w subject body (j * B) (batch j).
Proof.
  intros Hj. unfold seenAfter, batchAt.
  replace (S j * B)%nat with (j * B + B)%nat by lia.
  rewrite !outcomesFrom_firstn, firstn_plus, outcomesFrom_app.
  rewrite length_firstn, Nat.min_l by lia. reflexivity.
Qed.

Lemma batchAt_length j :
  List.length (batch j) = Nat.min B (n - j * B).
Proof. unfold batchAt. now rewrite length_firstn, length_skipn. Qed.

Lemma iteration_closed j :
  (j * B < n)%nat ->
  iteration cfg w emailList subject body progressCallback (state j)
  = Running (state (S j)).
Proof.
  intros Hj.
  assert (Hs : slice emailList (Z.of_nat (j * B)) (Z.of_nat (j * B) + batchSize cfg)
               = batch j) by (apply slice_forward; lia).
  unfold iteration. cbn [i calls trace results stateAfter]. rewrite Hs.
  replace (Z.of_nat (j * B) + batchSize cfg) with (Z.of_nat (S j * B)) by lia.
  rewrite Nat.min_l by lia.
  rewrite PromiseAll_mapSend.
  rewrite forEachCategorize_spec by apply outcomesFrom_not_nullish.
  unfold ledgerOf. cbn [success failure].
  rewrite <- !filter_app, <- seenAfter_S by assumption.
  unfold total. f_equal. unfold stateAfter, ledgerOf. f_equal.
  - rewrite batchAt_length. lia.
  - rewrite seq_S, map_app, concat_app. cbn [map List.concat Nat.add].
    rewrite app_nil_r. unfold groupTrace, groupWork, groupPause, snapshotAfter.
    now rewrite <- !app_assoc.
Qed.

Lemma sendBulkEmailsAfter_S steps :
  sendBulkEmailsAfter cfg w emailList subject body progressCallback (S steps) =
  advance cfg w emailList subject body progressCallback
    (sendBulkEmailsAfter cfg w emailList subject body progressCallback steps).
Proof. reflexivity. Qed.

(** After [j] passes, while entries remained before each of them. *)
Lemma sendBulkEmailsAfter_running j :
  (j = 0 \/ (j - 1) * B < n)%nat ->
  sendBulkEmailsAfter cfg w emailList subject body progressCallback j
  = Running (state j).
Proof.
  induction j as [|j IH]; intros Hj.
  - reflexivity.
  - rewrite sendBulkEmailsAfter_S, IH by nia.
    cbn [advance]. unfold step. cbn [i stateAfter].
    destruct (Z.ltb_spec (Z.of_nat (j * B)) (Z.of_nat n)) as [H|H]; [|nia].
    apply iteration_closed. lia.
Qed.

Lemma groupCount_bounds :
  ((g = 0 /\ n = 0) \/ ((g - 1) * B < n <= g * B))%nat.
Proof.
  unfold groupCount.
  pose proof (ceilDiv_bounds (Z.of_nat n) (batchSize cfg) Hb ltac:(lia)) as H.
  destruct (Nat.eq_dec n 0) as [E|E].
  - left. split; [|assumption]. rewrite E. unfold ceilDiv. cbn [Z.of_nat].
    rewrite Z.div_small; lia.
  - right. nia.
Qed.

Lemma groupCount_le : (g <= n)%nat.
Proof. pose proof groupCount_bounds. nia. Qed.

(** Once the loop is left the run stays resolved. *)
Lemma sendBulkEmailsAfter_enough steps :
  (g < steps)%nat ->
  sendBulkEmailsAfter cfg w emailList subject body progressCallback steps
  = Resolved (result (state g)) (state g).
Proof.
  induction steps as [|steps IH]; intros H; [lia|].
  rewrite sendBulkEmailsAfter_S.
  destruct (Nat.eq_dec steps g) as [->|Hne].
  - rewrite sendBulkEmailsAfter_running by (pose proof groupCount_bounds; lia).
    cbn [advance]. unfold step. cbn [i stateAfter].
    destruct (Z.ltb_spec (Z.of_nat (g * B)) (Z.of_nat n)) as [H'|H'].
    + pose proof groupCount_bounds. lia.
    + reflexivity.
  - rewrite IH by lia. reflexivity.
Qed.

Lemma sendBulkEmails_closed :
  sendBulkEmails cfg w emailList subject body progressCallback
  = Resolved (result (state g)) (state g).
Proof.
  unfold sendBulkEmails. apply sendBulkEmailsAfter_enough.
  pose proof groupCount_le. lia.
Qed.

Lemma seenAfter_groupCount : seen g = outs.
Proof.
  unfold seenAfter. apply firstn_all2. rewrite outcomesFrom_length.
  pose proof groupCount_bounds. lia.
Qed.

End ClosedFormFacts.

(* ------------------------------------------------------------------------- *)
(** ** What the trace of the closed form shows *)

Section TraceFacts.

Variable cfg : Cfg.t.
Variable w : World.
Variable emailList : list string.
Variables subject body : string.
Variable progressCallback : bool.

Local Abbreviation B := (Z.to_nat (batchSize cfg)).
Local Abbreviation n := (List.length emailList).
Local Abbreviation gw := (groupWork cfg w emailList subject body progressCallback).
Local Abbreviation gt := (groupTrace cfg w emailList subject body progressCallback).
Local Abbreviation gp := (groupPause cfg emailList).
Local Abbreviation g := (groupCount cfg emailList).
Local Abbreviation snap := (snapshotAfter cfg w emailList subject body).

Lemma flat_map_groups {X} (f : event -> list X) (h : nat -> list X) :
  (forall j, flat_map f (gt j) = h j) ->
  forall js, flat_map f (List.concat (map gt js)) = List.concat (map h js).
Proof.
  intros Hf. induction js as [|j js IH]; cbn [map List.concat]; [reflexivity|].
  now rewrite flat_map_app, Hf, IH.
Qed.

Lemma map_fst_sendEvents l : forall k,
  map fst (sendsOf (sendEvents subject body k l)) = seq k (List.length l).
Proof. induction l as [|e l IH]; intros k; cbn; [|rewrite <- IH]; reflexivity. Qed.

Lemma map_snd_sendEvents l : forall k,
  map snd (sendsOf (sendEvents subject body k l)) = l.
Proof.
  induction l as [|e l IH]; intros k; cbn; [reflexivity|].
  f_equal. apply IH.
Qed.

Lemma sleepsOf_sendEvents l : forall k, sleepsOf (sendEvents subject body k l) = [].
Proof. induction l as [|e l IH]; intros k; cbn; [reflexivity|apply IH]. Qed.

Lemma progressOf_sendEvents l : forall k,
  progressOf (sendEvents subject body k l) = [].
Proof. induction l as [|e l IH]; intros k; cbn; [reflexivity|apply IH]. Qed.

Lemma reportsOf_sendEvents l : forall k,
  reportsOf (sendEvents subject body k l) = [].
Proof. induction l as [|e l IH]; intros k; cbn; [reflexivity|apply IH]. Qed.

Lemma sendsOf_groupTrace j :
  sendsOf (gt j) = sendsOf (sendEvents subject body (j * B) (batchAt cfg emailList j)).
Proof.
  unfold groupTrace, groupWork, groupPause, sendsOf.
  rewrite !flat_map_app.
  destruct progressCallback, (_ <? _); cbn; now rewrite !app_nil_r.
Qed.

Lemma sleepsOf_groupWork j : sleepsOf (gw j) = [].
Proof.
  unfold groupWork, sleepsOf. rewrite !flat_map_app.
  fold (sleepsOf (sendEvents subject body (j * B) (batchAt cfg emailList j))).
  rewrite sleepsOf_sendEvents. now destruct progressCallback.
Qed.

Lemma sleepsOf_groupTrace j :
  sleepsOf (gt j) = if Z.of_nat (S j * B) <? Z.of_nat n then [delay cfg] else [].
Proof.
  unfold groupTrace. unfold sleepsOf at 1. rewrite flat_map_app.
  fold (sleepsOf (gw j)). rewrite sleepsOf_groupWork.
  unfold groupPause. now destruct (_ <? _).
Qed.

Lemma groupsFrom_sendEvents l : forall cur k rest,
  groupsFrom cur (sendEvents subject body k l ++ rest) = groupsFrom (cur ++ l) rest.
Proof.
  induction l as [|e l IH]; intros cur k rest; cbn.
  - now rewrite app_nil_r.
  - rewrite IH, <- app_assoc. reflexivity.
Qed.

Lemma groupsFrom_groupTrace j rest :
  groupsFrom [] (gt j ++ rest) = batchAt cfg emailList j :: groupsFrom [] rest.
Proof.
  unfold groupTrace, groupWork, groupPause.
  rewrite <- !app_assoc, groupsFrom_sendEvents. cbn [app groupsFrom].
  f_equal. destruct progressCallback, (_ <? _); reflexivity.
Qed.

Lemma groupsOf_groups js :
  groupsOf (List.concat (map gt js)) = map (batchAt cfg emailList) js.
Proof.
  unfold groupsOf. induction js as [|j js IH]; cbn [map List.concat]; [reflexivity|].
  now rewrite groupsFrom_groupTrace, IH.
Qed.

Lemma concat_batches j :
  List.concat (map (batchAt cfg emailList) (seq 0 j)) = firstn (j * B) emailList.
Proof.
  induction j as [|j IH]; [reflexivity|].
  rewrite seq_S, map_app, concat_app, IH. cbn [map List.concat Nat.add].
  rewrite app_nil_r. unfold batchAt.
  replace (S j * B)%nat with (j * B + B)%nat by lia.
  now rewrite firstn_plus.
Qed.

Lemma concat_call_numbers j :
  List.concat (map (fun j => seq (j * B) (List.length (batchAt cfg emailList j)))
                 (seq 0 j))
  = seq 0 (Nat.min (j * B) n).
Proof.
  induction j as [|j IH]; [reflexivity|].
  rewrite seq_S, map_app, concat_app, IH. cbn [map List.concat Nat.add].
  rewrite app_nil_r, batchAt_length.
  destruct (Nat.le_gt_cases n (j * B)) as [H|H].
  - replace (Nat.min B (n - j * B)) with 0%nat by lia.
    cbn [seq]. rewrite app_nil_r. f_equal. lia.
  - rewrite (Nat.min_l (j * B)) by lia.
    pose proof (seq_app (j * B) (Nat.min B (n - j * B)) 0) as E.
    cbn [Nat.add] in E. rewrite <- E. f_equal. lia.
Qed.

Hypothesis Hb : 1 <= batchSize cfg.

Lemma batchAt_size j :
  (j < g)%nat ->
  (1 <= List.length (batchAt cfg emailList j) <= B)%nat /\
  (S j < g -> List.length (batchAt cfg emailList j) = B)%nat.
Proof.
  intros Hj. rewrite batchAt_length.
  pose proof (groupCount_bounds cfg emailList Hb). split; [|intros Hj']; nia.
Qed.

Lemma groupCount_ceilDiv : Z.of_nat g = ceilDiv (Z.of_nat n) (batchSize cfg).
Proof.
  unfold groupCount. rewrite Z2Nat.id; [reflexivity|].
  pose proof (ceilDiv_bounds (Z.of_nat n) (batchSize cfg) Hb ltac:(lia)). nia.
Qed.

Lemma sleeps_between j :
  (j <= g)%nat ->
  List.concat (map (fun j => if Z.of_nat (S j * B) <? Z.of_nat n
                             then [delay cfg] else []) (seq 0 j))
  = repeat (delay cfg) (Nat.min j (g - 1)).
Proof.
  pose proof (groupCount_bounds cfg emailList Hb) as Hg.
  induction j as [|j IH]; intros Hj; [reflexivity|].
  rewrite seq_S, map_app, concat_app, IH by lia. cbn [map List.concat Nat.add].
  rewrite app_nil_r.
  destruct (Z.ltb_spec (Z.of_nat (S j * B)) (Z.of_nat n)) as [H|H].
  - assert (S j <= g - 1)%nat by nia.
    rewrite !Nat.min_l by lia. now rewrite <- repeat_cons.
  - assert (j = g - 1)%nat by nia. subst j.
    rewrite app_nil_r. f_equal. lia.
Qed.

End TraceFacts.

(* ------------------------------------------------------------------------- *)
(** ** The ledger at the end of a run *)

Lemma final_results cfg w emailList subject body progressCallback :
  1 <= batchSize cfg ->
  results (stateAfter cfg w emailList subject body progressCallback
             (groupCount cfg emailList))
  = ledgerOf (outcomesFrom cfg w subject body 0 emailList).
Proof.
  intros Hb. cbn [results stateAfter]. now rewrite seenAfter_groupCount.
Qed.

Lemma final_trace cfg w emailList subject body progressCallback :
  trace (stateAfter cfg w emailList subject body progressCallback
           (groupCount cfg emailList))
  = List.concat (map (groupTrace cfg w emailList subject body progressCallback)
                   (seq 0 (groupCount cfg emailList))).
Proof. reflexivity. Qed.

Lemma in_ledger v vs :
  In v vs <-> In v (filter isSuccess vs) \/ In v (filter isFailure vs).
Proof.
  rewrite !filter_In. unfold isFailure. destruct (isSuccess v); cbn; intuition congruence.
Qed.

Lemma in_outcomesFrom cfg w subject body l v : forall k0,
  In v (outcomesFrom cfg w subject body k0 l) <->
  exists k email, nth_error l k = Some email /\
                  v = outcome cfg w subject body (k0 + k) email.
Proof.
  induction l as [|e l IH]; intros k0; cbn [outcomesFrom In].
  - split; [tauto|]. intros (k & email & H & _). destruct k; discriminate.
  - rewrite IH. split.
    + intros [<- | (k & email & H & ->)].
      * exists 0%nat, e. now rewrite Nat.add_0_r.
      * exists (S k), email. split; [exact H|]. f_equal. lia.
    + intros (k & email & H & ->). destruct k as [|k]; cbn in H.
      * injection H as <-. left. now rewrite Nat.add_0_r.
      * right. exists k, email. split; [exact H|]. f_equal. lia.
Qed.

Lemma final_sends cfg w emailList subject body progressCallback :
  1 <= batchSize cfg ->
  let s := stateAfter cfg w emailList subject body progressCallback
             (groupCount cfg emailList) in
  map snd (sendsOf (trace s)) = emailList /\
  map fst (sendsOf (trace s)) = seq 0 (List.length emailList).
Proof.
  intros Hb s. subst s. rewrite final_trace.
  pose proof (groupCount_bounds cfg emailList Hb) as Hg.
  unfold sendsOf.
  rewrite (flat_map_groups _ _ _ _ _ _ _
             (fun j => sendsOf (sendEvents subject body
                                  (j * Z.to_nat (batchSize cfg))
                                  (batchAt cfg emailList j))))
    by (intros j; apply sendsOf_groupTrace).
  rewrite !concat_map, !map_map. split.
  - erewrite map_ext by (intros j; apply map_snd_sendEvents).
    rewrite concat_batches. apply firstn_all2. lia.
  - erewrite map_ext by (intros j; apply map_fst_sendEvents).
    rewrite concat_call_numbers. f_equal. lia.
Qed.

Lemma final_counts cfg w emailList subject body progressCallback :
  1 <= batchSize cfg ->
  let r := resultOf emailList
             (stateAfter cfg w emailList subject body progressCallback
                (groupCount cfg emailList)) in
  RunResult.total r = Z.of_nat (List.length emailList) /\
  RunResult.successCount r + RunResult.failureCount r = RunResult.total r.
Proof.
  intros Hb r. subst r. unfold resultOf.
  cbn [RunResult.total RunResult.successCount RunResult.failureCount].
  rewrite final_results by exact Hb. cbn [ledgerOf success failure].
  split; [reflexivity|].
  rewrite <- Nat2Z.inj_add. unfold isFailure.
  now rewrite filter_length_split, outcomesFrom_length.
Qed.

(* ------------------------------------------------------------------------- *)
(** ** Properties of a run *)

(** C1. For a batch size of at least 1, a run over [n] recipients resolves;
    its [total] is [n], [successCount + failureCount = total], the two
    sequences have the lengths the counts report, and the outcomes recorded
    are exactly the outcomes of the entries of the list: every entry has its
    outcome in one of the two sequences and nothing else is recorded. *)
Theorem sendBulkEmails_accounts_for_every_recipient
  cfg w emailList subject body progressCallback :
  1 <= batchSize cfg ->
  exists r s,
    sendBulkEmails cfg w emailList subject body progressCallback = Resolved r s /\
    RunResult.total r = Z.of_nat (List.length emailList) /\
    RunResult.successCount r + RunResult.failureCount r = RunResult.total r /\
    Z.of_nat (List.length (RunResult.success r)) = RunResult.successCount r /\
    Z.of_nat (List.length (RunResult.failure r)) = RunResult.failureCount r /\
    (forall k email,
        nth_error emailList k = Some email ->
        exists v, sendEmail cfg w k email subject body = Normal v /\
                  (In v (RunResult.success r) \/ In v (RunResult.failure r))) /\
    (forall v,
        In v (RunResult.success r) \/ In v (RunResult.failure r) ->
        exists k email, nth_error emailList k = Some email /\
                        sendEmail cfg w k email subject body = Normal v).
Proof.
  intros Hb. eexists _, _. split; [apply sendBulkEmails_closed; exact Hb|].
  unfold resultOf. cbn [RunResult.total RunResult.successCount
    RunResult.failureCount RunResult.success RunResult.failure].
  rewrite final_results by exact Hb. cbn [ledgerOf success failure].
  set (outs := outcomesFrom cfg w subject body 0 emailList).
  assert (Hlen : (List.length (filter isSuccess outs)
                  + List.length (filter isFailure outs)
                  = List.length emailList)%nat).
  { unfold isFailure. rewrite filter_length_split. apply outcomesFrom_length. }
  repeat split; try lia.
  - intros k email Hk. exists (outcome cfg w subject body k email).
    split; [apply sendEmail_Normal|].
    apply in_ledger. apply (in_outcomesFrom cfg w subject body emailList _ 0).
    now exists k, email.
  - intros v Hv. apply in_ledger in Hv.
    apply (in_outcomesFrom cfg w subject body emailList _ 0) in Hv.
    destruct Hv as (k & email & Hk & ->). exists k, email.
    split; [exact Hk|]. apply sendEmail_Normal.
Qed.

(** C2. When the transport of the send for the [k]-th recipient [R] fails
    with [err], the outcome of [R] is the failure object of the handler,
    whose errorCode is "NETWORK_ERROR"; it is recorded among the failures and
    not among the successes; the run resolves, and every other entry of the
    list has its outcome recorded as well. *)
Theorem transport_failure_is_isolated
  cfg w emailList subject body progressCallback k R err :
  1 <= batchSize cfg ->
  nth_error emailList k = Some R ->
  transportFails cfg w k R subject body err ->
  exists r s,
    sendBulkEmails cfg w emailList subject body progressCallback = Resolved r s /\
    sendEmail cfg w k R subject body = Normal (networkFailure w k R subject err) /\
    getProp (networkFailure w k R subject err) "errorCode"
      = Normal (VStr "NETWORK_ERROR") /\
    getProp (networkFailure w k R subject err) "success" = Normal (VBool false) /\
    In (networkFailure w k R subject err) (RunResult.failure r) /\
    ~ In (networkFailure w k R subject err) (RunResult.success r) /\
    (List.length (RunResult.success r) + List.length (RunResult.failure r)
     = List.length emailList)%nat /\
    (forall k' R',
        nth_error emailList k' = Some R' ->
        exists v, sendEmail cfg w k' R' subject body = Normal v /\
                  (In v (RunResult.success r) \/ In v (RunResult.failure r))).
Proof.
  intros Hb Hk Hfail.
  pose proof (sendEmail_caught _ _ _ _ _ _ _ (transportFails_Throw _ _ _ _ _ _ _ Hfail))
    as Hsend.
  assert (Hout : outcome cfg w subject body k R = networkFailure w k R subject err).
  { unfold outcome. now rewrite Hsend. }
  eexists _, _. split; [apply sendBulkEmails_closed; exact Hb|].
  unfold resultOf. cbn [RunResult.success RunResult.failure].
  rewrite final_results by exact Hb. cbn [ledgerOf success failure].
  set (outs := outcomesFrom cfg w subject body 0 emailList).
  assert (Hin : In (networkFailure w k R subject err) outs).
  { apply (in_outcomesFrom cfg w subject body emailList _ 0).
    exists k, R. split; [exact Hk|]. symmetry. exact Hout. }
  repeat split.
  - exact Hsend.
  - apply filter_In. split; [exact Hin|reflexivity].
  - rewrite filter_In. intros [_ H]. discriminate H.
  - unfold isFailure. rewrite filter_length_split. apply outcomesFrom_length.
  - intros k' R' Hk'. exists (outcome cfg w subject body k' R').
    split; [apply sendEmail_Normal|].
    apply in_ledger. apply (in_outcomesFrom cfg w subject body emailList _ 0).
    now exists k', R'.
Qed.

(** C9. sendEmail never rejects: for every configuration, every behaviour
    of fetch and of response.json() and every arguments it resolves with a
    value that is neither null nor undefined; whenever its [try] block
    throws, the value is the failure object of the handler, with errorCode
    "NETWORK_ERROR" and a false [success]; hence the [Promise.all] over a
    group never rejects. *)
Theorem sendEmail_never_rejects cfg w k to subj bdy :
  exists v,
    sendEmail cfg w k to subj bdy = Normal v /\
    nullish v = false /\
    (forall err,
        sendEmailTry cfg w k to subj bdy = Throw err ->
        v = networkFailure w k to subj err /\
        getProp v "errorCode" = Normal (VStr "NETWORK_ERROR") /\
        isSuccess v = false) /\
    (forall err,
        transportFails cfg w k to subj bdy err ->
        sendEmailTry cfg w k to subj bdy = Throw err) /\
    (forall k0 batch,
        exists vs, PromiseAll (mapSend cfg w subj bdy k0 batch) = Normal vs /\
                   List.length vs = List.length batch).
Proof.
  exists (outcome cfg w subj bdy k to).
  split; [apply sendEmail_Normal|].
  split; [apply outcome_not_nullish|].
  split; [|split].
  - intros err H. unfold outcome.
    rewrite (sendEmail_caught _ _ _ _ _ _ _ H). repeat split.
  - intros err H. apply transportFails_Throw. exact H.
  - intros k0 batch. rewrite PromiseAll_mapSend.
    eexists. split; [reflexivity|]. apply outcomesFrom_length.
Qed.

Lemma outcomesFrom_indexed cfg w subject body l : forall k,
  outcomesFrom cfg w subject body k l =
  map (fun ke => outcome cfg w subject body (fst ke) (snd ke))
      (combine (seq k (List.length l)) l).
Proof.
  induction l as [|e l IH]; intros k; cbn; [reflexivity|].
  now rewrite IH.
Qed.

Lemma ledgerOf_indexed cfg w subject body l :
  let out := fun ke : nat * string =>
               outcome cfg w subject body (fst ke) (snd ke) in
  ledgerOf (outcomesFrom cfg w subject body 0 l) =
  {| success := map out (filter (fun ke => isSuccess (out ke)) (indexed l));
     failure := map out (filter (fun ke => isFailure (out ke)) (indexed l)) |}.
Proof.
  intros out. unfold ledgerOf, indexed.
  now rewrite outcomesFrom_indexed, !filter_map_swap.
Qed.

(** C10. The ledger follows the input order: at the end of the run (and at
    every group boundary before it, for the entries processed so far) the
    successes are the outcomes of exactly those positions of the recipient
    list whose send succeeded, in the order of the list, and the failures
    those of the other positions, in the order of the list. *)
Theorem ledger_follows_input_order
  cfg w emailList subject body progressCallback :
  1 <= batchSize cfg ->
  let out := fun ke : nat * string =>
               outcome cfg w subject body (fst ke) (snd ke) in
  let succeeded := fun ke => isSuccess (out ke) in
  let failed := fun ke => isFailure (out ke) in
  (exists r s,
      sendBulkEmails cfg w emailList subject body progressCallback
        = Resolved r s /\
      RunResult.success r = map out (filter succeeded (indexed emailList)) /\
      RunResult.failure r = map out (filter failed (indexed emailList)) /\
      getSuccessList (results s) = RunResult.success r /\
      getFailureList (results s) = RunResult.failure r) /\
  (forall j,
      (j <= groupCount cfg emailList)%nat ->
      exists s,
        sendBulkEmailsAfter cfg w emailList subject body progressCallback j
          = Running s /\
        let processed := firstn (j * Z.to_nat (batchSize cfg)) emailList in
        success (results s) = map out (filter succeeded (indexed processed)) /\
        failure (results s) = map out (filter failed (indexed processed))).
Proof.
  intros Hb out succeeded failed. split.
  - eexists _, _. split; [apply sendBulkEmails_closed; exact Hb|].
    unfold resultOf, getSuccessList, getFailureList.
    cbn [RunResult.success RunResult.failure].
    rewrite final_results by exact Hb.
    rewrite ledgerOf_indexed. cbn [success failure]. repeat split.
  - intros j Hj. eexists. split.
    + apply sendBulkEmailsAfter_running; [exact Hb|].
      pose proof (groupCount_bounds cfg emailList Hb). nia.
    + cbn [results stateAfter]. unfold seenAfter.
      rewrite outcomesFrom_firstn, ledgerOf_indexed. cbn [success failure].
      split; reflexivity.
Qed.

Lemma concat_map_singleton {A X} (f : A -> X) (l : list A) :
  List.concat (map (fun x => [f x]) l) = map f l.
Proof. induction l as [|x l IH]; cbn; [reflexivity|now rewrite IH]. Qed.

Lemma progressOf_groupTrace cfg w emailList subject body j :
  progressOf (groupTrace cfg w emailList subject body true j)
  = [snapshotAfter cfg w emailList subject body j].
Proof.
  unfold groupTrace, groupWork, groupPause, progressOf. rewrite !flat_map_app.
  fold (progressOf (sendEvents subject body (j * Z.to_nat (batchSize cfg))
                      (batchAt cfg emailList j))).
  rewrite progressOf_sendEvents. now destruct (_ <? _).
Qed.

Lemma reportsOf_groupTrace cfg w emailList subject body j :
  reportsOf (groupTrace cfg w emailList subject body true j)
  = [None; Some (snapshotAfter cfg w emailList subject body j)].
Proof.
  unfold groupTrace, groupWork, groupPause, reportsOf. rewrite !flat_map_app.
  fold (reportsOf (sendEvents subject body (j * Z.to_nat (batchSize cfg))
                     (batchAt cfg emailList j))).
  rewrite reportsOf_sendEvents. now destruct (_ <? _).
Qed.

Lemma snapshotAfter_sum cfg w emailList subject body j :
  Progress.success (snapshotAfter cfg w emailList subject body j)
  + Progress.failure (snapshotAfter cfg w emailList subject body j)
  = Progress.processed (snapshotAfter cfg w emailList subject body j).
Proof.
  cbn [snapshotAfter Progress.success Progress.failure Progress.processed].
  rewrite <- Nat2Z.inj_add. unfold isFailure. rewrite filter_length_split.
  unfold seenAfter. rewrite length_firstn, outcomesFrom_length. lia.
Qed.

Lemma nth_error_map_seq {X} (f : nat -> X) len j x :
  nth_error (map f (seq 0 len)) j = Some x -> (j < len)%nat /\ x = f j.
Proof.
  rewrite nth_error_map, nth_error_seq.
  destruct (Nat.ltb_spec j len) as [Hlt|Hge]; cbn; [|discriminate].
  intros E. injection E as <-. split; [assumption|reflexivity].
Qed.

(** C3. With a callback and a batch size [b >= 1], a run over [n]
    recipients calls the callback ceil(n / b) times, once after the
    [await] of each group and nowhere else, in group order; every snapshot
    reports [total = n] and [processed = success + failure]; the [j]-th
    snapshot (from 0) reports [processed = min ((j + 1) * b) n], which never
    decreases from one call to the next. *)
Theorem progress_once_per_group cfg w emailList subject body :
  1 <= batchSize cfg ->
  exists r s,
    sendBulkEmails cfg w emailList subject body true = Resolved r s /\
    let ps := progressOf (trace s) in
    Z.of_nat (List.length ps)
      = ceilDiv (Z.of_nat (List.length emailList)) (batchSize cfg) /\
    List.length (groupsOf (trace s)) = List.length ps /\
    reportsOf (trace s) = flat_map (fun p => [None; Some p]) ps /\
    Forall (fun p =>
              Progress.total p = Z.of_nat (List.length emailList) /\
              Progress.processed p = Progress.success p + Progress.failure p)
           ps /\
    (forall j p,
        nth_error ps j = Some p ->
        Progress.processed p
        = Z.min ((Z.of_nat j + 1) * batchSize cfg)
                (Z.of_nat (List.length emailList))) /\
    (forall j p q,
        nth_error ps j = Some p -> nth_error ps (S j) = Some q ->
        Progress.processed p <= Progress.processed q).
Proof.
  intros Hb. eexists _, _. split; [apply sendBulkEmails_closed; exact Hb|].
  rewrite final_trace. cbv zeta.
  set (g := groupCount cfg emailList).
  set (snap := snapshotAfter cfg w emailList subject body).
  assert (Hps : progressOf (List.concat
                  (map (groupTrace cfg w emailList subject body true) (seq 0 g)))
                = map snap (seq 0 g)).
  { unfold progressOf.
    rewrite (flat_map_groups _ _ _ _ _ _ _ (fun j => [snap j])).
    - apply concat_map_singleton.
    - intros j. apply progressOf_groupTrace. }
  assert (Hproc : forall j, Progress.processed (snap j)
                  = Z.min ((Z.of_nat j + 1) * batchSize cfg)
                          (Z.of_nat (List.length emailList))).
  { intros j. cbn [snap snapshotAfter Progress.processed]. f_equal. nia. }
  rewrite Hps. repeat split.
  - rewrite length_map, length_seq. apply groupCount_ceilDiv. exact Hb.
  - now rewrite groupsOf_groups, !length_map.
  - unfold reportsOf.
    rewrite (flat_map_groups _ _ _ _ _ _ _ (fun j => [None; Some (snap j)])).
    + now rewrite flat_map_concat_map, map_map.
    + intros j. apply reportsOf_groupTrace.
  - apply Forall_forall. intros p Hp. apply in_map_iff in Hp.
    destruct Hp as (j & <- & _). split; [reflexivity|].
    symmetry. apply snapshotAfter_sum.
  - intros j p Hj. apply nth_error_map_seq in Hj. destruct Hj as [_ ->].
    apply Hproc.
  - intros j p q Hp Hq.
    apply nth_error_map_seq in Hp. destruct Hp as [_ ->].
    apply nth_error_map_seq in Hq. destruct Hq as [_ ->].
    rewrite !Hproc. nia.
Qed.

(** C4. For a batch size [b >= 1] the groups of a run, in the order in
    which they are awaited, are contiguous pieces of the recipient list:
    their concatenation is the list itself, each holds between 1 and [b]
    entries, each but the last exactly [b], and there are ceil(n / b) of
    them; sendEmail is called once for every entry of the list, duplicates
    included, in the order of the list (the [k]-th call for the [k]-th
    entry), and what these calls resolve with is what the run records: the
    two sequences of the result hold [n] outcomes in all, the outcome of the
    [k]-th call for the [k]-th entry, each once, in the order of the list. *)
Theorem groups_partition_the_recipients
  cfg w emailList subject body progressCallback :
  1 <= batchSize cfg ->
  exists r s,
    sendBulkEmails cfg w emailList subject body progressCallback = Resolved r s /\
    let gs := groupsOf (trace s) in
    let out := fun ke : nat * string =>
                 outcome cfg w subject body (fst ke) (snd ke) in
    List.concat gs = emailList /\
    Forall (fun grp => 1 <= Z.of_nat (List.length grp) <= batchSize cfg) gs /\
    (forall j grp,
        nth_error gs j = Some grp -> (S j < List.length gs)%nat ->
        Z.of_nat (List.length grp) = batchSize cfg) /\
    Z.of_nat (List.length gs)
      = ceilDiv (Z.of_nat (List.length emailList)) (batchSize cfg) /\
    map snd (sendsOf (trace s)) = emailList /\
    map fst (sendsOf (trace s)) = seq 0 (List.length emailList) /\
    (forall k email,
        nth_error emailList k = Some email ->
        sendEmail cfg w k email subject body = Normal (out (k, email)) /\
        (In (out (k, email)) (RunResult.success r) \/
         In (out (k, email)) (RunResult.failure r))) /\
    (List.length (RunResult.success r) + List.length (RunResult.failure r)
     = List.length emailList)%nat /\
    RunResult.success r
    = map out (filter (fun ke => isSuccess (out ke)) (indexed emailList)) /\
    RunResult.failure r
    = map out (filter (fun ke => isFailure (out ke)) (indexed emailList)).
Proof.
  intros Hb. eexists _, _. split; [apply sendBulkEmails_closed; exact Hb|].
  unfold resultOf. cbn [RunResult.success RunResult.failure].
  rewrite final_results by exact Hb.
  rewrite final_trace. cbv zeta. rewrite groupsOf_groups.
  set (g := groupCount cfg emailList).
  pose proof (groupCount_bounds cfg emailList Hb) as Hg. fold g in Hg.
  split; [|split; [|split; [|split; [|split; [|split; [|split; [|split]]]]]]].
  7:{ intros k email Hk. split; [apply sendEmail_Normal|].
      apply in_ledger.
      apply (in_outcomesFrom cfg w subject body emailList _ 0).
      exists k, email. split; [exact Hk|reflexivity]. }
  7:{ cbn [ledgerOf success failure]. unfold isFailure.
      rewrite filter_length_split. apply outcomesFrom_length. }
  7:{ rewrite ledgerOf_indexed. cbn [success failure]. split; reflexivity. }
  - rewrite concat_batches. apply firstn_all2. lia.
  - apply Forall_forall. intros grp Hin. apply in_map_iff in Hin.
    destruct Hin as (j & <- & Hj). apply in_seq in Hj.
    pose proof (batchAt_size cfg emailList Hb j ltac:(fold g; lia)) as [H _].
    lia.
  - intros j grp Hj Hlast. rewrite length_map, length_seq in Hlast.
    apply nth_error_map_seq in Hj. destruct Hj as [Hj ->].
    pose proof (batchAt_size cfg emailList Hb j ltac:(fold g; lia)) as [_ H].
    fold g in H. rewrite H by lia. lia.
  - rewrite length_map, length_seq. apply groupCount_ceilDiv. exact Hb.
  - apply (final_sends cfg w emailList subject body progressCallback Hb).
  - apply (final_sends cfg w emailList subject body progressCallback Hb).
Qed.

(* ------------------------------------------------------------------------- *)
(** ** The pause between groups *)

Lemma groupPause_by_count cfg emailList j :
  1 <= batchSize cfg ->
  (j < groupCount cfg emailList)%nat ->
  groupPause cfg emailList j
  = if (S j <? groupCount cfg emailList)%nat then [EvSleep (delay cfg)] else [].
Proof.
  intros Hb Hj. unfold groupPause.
  pose proof (groupCount_bounds cfg emailList Hb) as Hg.
  destruct (Z.ltb_spec (Z.of_nat (S j * Z.to_nat (batchSize cfg)))
                       (Z.of_nat (List.length emailList)));
    destruct (Nat.ltb_spec (S j) (groupCount cfg emailList));
    try reflexivity; nia.
Qed.

(** The pauses of a run. For a batch size of at least 1 the trace of a run
    is the work of the groups in order (the sends of the group, the await of
    their settlement, the progress call), with one pause after every group
    but the last and none after the last; the work of a group contains no
    pause; every pause lasts [delay], which is the configured
    delayBetweenBatches whenever that is not 0. This holds for every
    behaviour of the network, also when every send of a group fails: the run
    resolves with all its groups awaited. Where the configured value is 0 or
    missing, [delay] is the 1000 of [||]. *)
Theorem pauses_between_groups
  cfg w emailList subject body progressCallback :
  1 <= batchSize cfg ->
  exists r s,
    sendBulkEmails cfg w emailList subject body progressCallback = Resolved r s /\
    let g := groupCount cfg emailList in
    let work := groupWork cfg w emailList subject body progressCallback in
    trace s =
      List.concat
        (map (fun j => work j ++ (if (S j <? g)%nat
                                  then [EvSleep (delay cfg)] else []))
             (seq 0 g)) /\
    (forall j, sleepsOf (work j) = []) /\
    sleepsOf (trace s) = repeat (delay cfg) (g - 1) /\
    List.length (groupsOf (trace s)) = g /\
    Z.of_nat g = ceilDiv (Z.of_nat (List.length emailList)) (batchSize cfg) /\
    (forall d, Cfg.delayBetweenBatches (Cfg.email cfg) = Some d -> d <> 0 ->
               delay cfg = d) /\
    (Cfg.delayBetweenBatches (Cfg.email cfg) = Some 0 \/
     Cfg.delayBetweenBatches (Cfg.email cfg) = None -> delay cfg = 1000).
Proof.
  intros Hb. eexists _, _. split; [apply sendBulkEmails_closed; exact Hb|].
  rewrite final_trace. cbv zeta.
  set (g := groupCount cfg emailList).
  split; [|split; [|split; [|split; [|split; [|split]]]]].
  - f_equal. apply map_ext_in. intros j Hj. apply in_seq in Hj.
    unfold groupTrace. f_equal. apply groupPause_by_count; [exact Hb|]. fold g. lia.
  - intros j. apply sleepsOf_groupWork.
  - unfold sleepsOf.
    rewrite (flat_map_groups _ _ _ _ _ _ _
               (fun j => if Z.of_nat (S j * Z.to_nat (batchSize cfg))
                            <? Z.of_nat (List.length emailList)
                         then [delay cfg] else []))
      by (intros j; apply sleepsOf_groupTrace).
    rewrite (sleeps_between cfg emailList Hb g) by (fold g; lia).
    fold g. f_equal. lia.
  - now rewrite groupsOf_groups, length_map, length_seq.
  - apply groupCount_ceilDiv. exact Hb.
  - intros d Hd Hnz. unfold delay, numberOr. rewrite Hd.
    destruct (Z.eqb_spec d 0); [contradiction|reflexivity].
  - intros [H|H]; unfold delay, numberOr; rewrite H; reflexivity.
Qed.

(** C5. The run does not suspend for the configured delay when that is 0:
    with delayBetweenBatches = 0, a batch size of 1 and two recipients, the
    run pauses once between its two groups, and the pause lasts 1000 ms, not
    0, because [Config.email.delayBetweenBatches || 1000] takes 0 for a
    missing value. *)
Lemma zero_delay_pauses_1000 :
  Cfg.delayBetweenBatches (Cfg.email (configWith (Some 1) (Some 0))) = Some 0 /\
  sleepsOf (traceOf (sendBulkEmails (configWith (Some 1) (Some 0)) worldAllOk
                       ["a@x.io"; "b@x.io"] "Hello" "<p>Hello</p>" true))
  = [1000] /\
  ~ (forall ms,
        In ms (sleepsOf (traceOf (sendBulkEmails (configWith (Some 1) (Some 0))
                                    worldAllOk ["a@x.io"; "b@x.io"]
                                    "Hello" "<p>Hello</p>" true))) ->
        ms = 0).
Proof.
  split; [reflexivity|]. split; [vm_compute; reflexivity|].
  intros H. specialize (H 1000). vm_compute in H.
  assert (E : 1000 = 0) by (apply H; left; reflexivity). discriminate E.
Qed.

(* ------------------------------------------------------------------------- *)
(** ** getSummary *)

Lemma shr_1_nonneg mrs : 0 <= shr_m mrs -> 0 <= shr_m (shr_1 mrs).
Proof.
  destruct mrs as [m r s]. cbn [shr_m].
  destruct m as [|[p|p|]|p]; cbn; lia.
Qed.

Lemma iter_shr_1_nonneg p : forall mrs,
  0 <= shr_m mrs -> 0 <= shr_m (iter_pos shr_1 p mrs).
Proof.
  induction p as [p IH|p IH|]; intros mrs H; cbn [iter_pos].
  - apply IH, IH, shr_1_nonneg, H.
  - apply IH, IH, H.
  - apply shr_1_nonneg, H.
Qed.

Lemma shr_fexp_nonneg m e l :
  0 <= m -> 0 <= shr_m (fst (shr_fexp 53 1024 m e l)).
Proof.
  intros H. unfold shr_fexp, shr.
  assert (H0 : 0 <= shr_m (shr_record_of_loc m l))
    by (destruct l as [|[]]; exact H).
  destruct (fexp 53 1024 (Zdigits2 m + e) - e); cbn [fst]; try exact H0.
  apply iter_shr_1_nonneg, H0.
Qed.

Lemma round_nearest_even_nonneg m l : 0 <= m -> 0 <= round_nearest_even m l.
Proof.
  intros H. destruct l as [|[]]; cbn [round_nearest_even]; try lia.
  destruct (Z.even m); lia.
Qed.

Lemma binary_round_aux_notNegative m e l :
  0 <= m -> notNegative (binary_round_aux 53 1024 false m e l) = true.
Proof.
  intros H. unfold binary_round_aux.
  pose proof (shr_fexp_nonneg m e l H) as H1.
  destruct (shr_fexp 53 1024 m e l) as [mrs' e']. cbn [fst] in H1.
  pose proof (shr_fexp_nonneg _ e' loc_Exact
                (round_nearest_even_nonneg _ (loc_of_shr_record mrs') H1)) as H2.
  destruct (shr_fexp 53 1024 _ e' loc_Exact) as [mrs'' e'']. cbn [fst] in H2.
  destruct (shr_m mrs'') as [|p|p]; [reflexivity| |lia].
  destruct (e'' <=? 1024 - 53); reflexivity.
Qed.

Lemma digits2_pos_size p : digits2_pos p = Pos.size p.
Proof. induction p; cbn; congruence. Qed.

Lemma digits2_pos_shift k : forall p,
  digits2_pos (Pos.iter xO p k) = (digits2_pos p + k)%positive.
Proof.
  induction k as [|k IH] using Pos.peano_ind; intros p.
  - cbn. now rewrite Pos.add_1_r.
  - rewrite Pos.iter_succ. cbn [digits2_pos]. rewrite IH. lia.
Qed.

Lemma digits2_pos_bound p : Zpos p < 2 ^ 53 -> Zpos (digits2_pos p) <= 53.
Proof.
  intros H. rewrite digits2_pos_size.
  pose proof (Pos.size_le p) as Hle.
  destruct (Z.le_gt_cases (Zpos (Pos.size p)) 53) as [Hs|Hs]; [exact Hs|].
  exfalso.
  assert (H2 : 2 ^ 54 <= 2 ^ Zpos (Pos.size p))
    by (apply Z.pow_le_mono_r; lia).
  assert (H3 : 2 ^ Zpos (Pos.size p) <= 2 * Zpos p).
  { change (2 * Zpos p) with (Zpos p~0).
    rewrite <- Pos2Z.inj_pow. apply Pos2Z.pos_le_pos. exact Hle. }
  change (2 ^ 54) with (2 * 2 ^ 53) in H2. lia.
Qed.

(** An integer from 1 to 2^53 - 1 is a number as it is. *)
Lemma ofInt_finite z :
  0 < z < 2 ^ 53 -> exists m e, ofInt z = S754_finite false m e.
Proof.
  intros [H0 H]. destruct z as [|p|p]; try lia. clear H0.
  pose proof (digits2_pos_bound p H) as Hd.
  unfold ofInt, binary_normalize, binary_round, shl_align.
  set (d := digits2_pos p) in *.
  assert (Hf : fexp 53 1024 (Zpos d + 0) = Zpos d - 53)
    by (unfold fexp, emin; lia).
  rewrite Hf.
  assert (Haux : forall mz ez,
             Zpos (digits2_pos mz) + ez = Zpos d -> ez = Zpos d - 53 ->
             binary_round_aux 53 1024 false (Zpos mz) ez loc_Exact
             = S754_finite false mz ez).
  { intros mz ez Hdig He. unfold binary_round_aux, shr_fexp.
    cbn [Zdigits2 shr_record_of_loc].
    assert (E : fexp 53 1024 (Zpos (digits2_pos mz) + ez) - ez = 0)
      by (unfold fexp, emin; lia).
    rewrite E. cbn [shr shr_m loc_of_shr_record round_nearest_even Zdigits2].
    rewrite E. cbn [shr shr_m].
    destruct (Z.leb_spec ez (1024 - 53)); [reflexivity|lia]. }
  destruct (Zpos d - 53 - 0) as [|q|q] eqn:Eq.
  - eexists _, _. apply Haux; lia.
  - lia.
  - eexists _, _. apply Haux; [|reflexivity].
    rewrite digits2_pos_shift. fold d. lia.
Qed.

Lemma div_eucl_shift m k :
  Z.div_eucl (Z.shiftl (Zpos m) (Zpos k)) (Zpos m) = (2 ^ Zpos k, 0).
Proof.
  rewrite Z.shiftl_mul_pow2 by lia.
  pose proof (Z_div_mod (Zpos m * 2 ^ Zpos k) (Zpos m) ltac:(lia)) as H.
  destruct (Z.div_eucl (Zpos m * 2 ^ Zpos k) (Zpos m)) as [q r].
  destruct H as [H1 H2].
  assert (r = 0 /\ q = 2 ^ Zpos k) as [-> ->]; [|reflexivity].
  assert (Hr : r = Zpos m * (2 ^ Zpos k - q)) by lia.
  assert (Hk : 2 ^ Zpos k - q = 0) by nia.
  split; nia.
Qed.

(** A finite number divided by itself is 1. *)
Lemma div_self s m e :
  div (S754_finite s m e) (S754_finite s m e) = ofInt 1.
Proof.
  unfold div, SFdiv, SFdiv_core_binary.
  replace (Zdigits2 (Zpos m) + e - (Zdigits2 (Zpos m) + e)) with 0 by lia.
  replace (e - e) with 0 by lia.
  change (Z.min (fexp 53 1024 0) 0) with (-53).
  change (0 - -53) with 53.
  cbv beta iota zeta.
  change 53 with (Zpos 53) at 1.
  rewrite div_eucl_shift.
  replace (xorb s s) with false by (destruct s; reflexivity).
  assert (Hl : new_location (Zpos m) 0 = loc_Exact).
  { unfold new_location. destruct (Z.even (Zpos m)); reflexivity. }
  rewrite Hl. vm_compute. reflexivity.
Qed.

Lemma Zpos_iter_xO p k : Zpos (Pos.iter xO p k) = Zpos p * 2 ^ Zpos k.
Proof.
  change (Pos.iter xO p k) with (shift_pos k p).
  rewrite shift_pos_correct. change (Z.pow_pos 2 k) with (2 ^ Zpos k). lia.
Qed.

Lemma iter_pos_iter {A} (f : A -> A) n : forall x,
  iter_pos f n x = Pos.iter f x n.
Proof.
  induction n as [n IH|n IH|]; intros x; cbn [iter_pos Pos.iter].
  - rewrite !IH, <- !Pos.iter_swap. reflexivity.
  - rewrite !IH. reflexivity.
  - reflexivity.
Qed.

(** Shifting out zeros is exact. *)
Lemma shr_zeros q : forall x,
  iter_pos shr_1 q
    {| shr_m := Zpos (Pos.iter xO x q); shr_r := false; shr_s := false |}
  = {| shr_m := Zpos x; shr_r := false; shr_s := false |}.
Proof.
  intros x. rewrite iter_pos_iter. revert x.
  induction q as [|q IH] using Pos.peano_ind; intros x.
  - reflexivity.
  - rewrite Pos.iter_succ at 1. rewrite <- Pos.iter_swap.
    rewrite Pos.iter_succ. cbn [shr_1 orb]. apply IH.
Qed.

Lemma round_aligned mz ez :
  Zpos (digits2_pos mz) = 53 -> -52 <= ez <= 0 ->
  binary_round_aux 53 1024 false (Zpos mz) ez loc_Exact
  = S754_finite false mz ez.
Proof.
  intros Hdig He. unfold binary_round_aux, shr_fexp.
  cbn [Zdigits2 shr_record_of_loc].
  assert (E : fexp 53 1024 (Zpos (digits2_pos mz) + ez) - ez = 0)
    by (unfold fexp, emin; lia).
  rewrite E. cbn [shr shr_m loc_of_shr_record round_nearest_even Zdigits2].
  rewrite E. cbn [shr shr_m].
  destruct (Z.leb_spec ez (1024 - 53)); [reflexivity|lia].
Qed.

Lemma aligned_spec p :
  Zpos p < 2 ^ 53 ->
  let (m, e) := aligned p in
  Zpos (digits2_pos m) = 53 /\ -52 <= e <= 0 /\
  e = Zpos (digits2_pos p) - 53 /\ Zpos m = Zpos p * 2 ^ (- e).
Proof.
  intros H. pose proof (digits2_pos_bound p H) as Hd. unfold aligned.
  destruct (Zpos (digits2_pos p) - 53) as [|q|q] eqn:E; try lia.
  rewrite digits2_pos_shift, Zpos_iter_xO.
  replace (- Zneg q) with (Zpos q) by reflexivity.
  repeat split; lia.
Qed.

Lemma ofInt_aligned p :
  Zpos p < 2 ^ 53 ->
  ofInt (Zpos p) = S754_finite false (fst (aligned p)) (snd (aligned p)).
Proof.
  intros H. pose proof (aligned_spec p H) as Ha.
  pose proof (digits2_pos_bound p H) as Hd.
  unfold ofInt, binary_normalize, binary_round, shl_align.
  assert (Hf : fexp 53 1024 (Zpos (digits2_pos p) + 0)
               = Zpos (digits2_pos p) - 53) by (unfold fexp, emin; lia).
  rewrite Hf. unfold aligned in *.
  destruct (Zpos (digits2_pos p) - 53) as [|q|q] eqn:E; try lia.
  - rewrite Z.sub_0_r. cbn [fst snd]. apply round_aligned; lia.
  - replace (Zneg q - 0) with (Zneg q) by lia. cbn [fst snd].
    destruct Ha as (H1 & H2 & _). apply round_aligned; lia.
Qed.

(** Rounding leaves alone an integer below 2^53 that is written with
    trailing zeros. *)
Lemma binary_round_zeros p k :
  Zpos p < 2 ^ 53 ->
  binary_round 53 1024 false (Pos.iter xO p k) (Zneg k) = ofInt (Zpos p).
Proof.
  intros H. rewrite (ofInt_aligned p H).
  pose proof (aligned_spec p H) as Ha.
  pose proof (digits2_pos_bound p H) as Hd.
  destruct (aligned p) as [m e]. destruct Ha as (Hm & He & Hed & Hv).
  cbn [fst snd].
  unfold binary_round, shl_align.
  rewrite digits2_pos_shift.
  assert (Hf : fexp 53 1024 (Zpos (digits2_pos p + k) + Zneg k) = e)
    by (unfold fexp, emin; lia).
  rewrite Hf.
  destruct (e - Zneg k) as [|q|q] eqn:Eq.
  - (* just the 53 digits *)
    assert (Hk : Zneg k = e) by lia.
    assert (Em : Pos.iter xO p k = m).
    { apply Pos2Z.inj. rewrite Zpos_iter_xO, Hv. f_equal. f_equal. lia. }
    rewrite Em, Hk. apply round_aligned; lia.
  - (* more digits than 53: the zeros are shifted out *)
    assert (Em : Pos.iter xO p k = Pos.iter xO m q).
    { apply Pos2Z.inj. rewrite !Zpos_iter_xO, Hv, <- Z.mul_assoc.
      f_equal. rewrite <- Z.pow_add_r by lia. f_equal. lia. }
    rewrite Em. unfold binary_round_aux, shr_fexp.
    cbn [Zdigits2 shr_record_of_loc]. rewrite digits2_pos_shift.
    assert (E1 : fexp 53 1024 (Zpos (digits2_pos m + q) + Zneg k) - Zneg k
                 = Zpos q) by (unfold fexp, emin; lia).
    rewrite E1. cbn [shr]. rewrite shr_zeros.
    cbn [shr_m loc_of_shr_record round_nearest_even Zdigits2
         shr_record_of_loc].
    assert (E2 : fexp 53 1024 (Zpos (digits2_pos m) + (Zneg k + Zpos q))
                 - (Zneg k + Zpos q) = 0) by (unfold fexp, emin; lia).
    rewrite E2. cbn [shr shr_m].
    replace (Zneg k + Zpos q) with e by lia.
    destruct (Z.leb_spec e (1024 - 53)); [reflexivity|lia].
  - (* fewer digits: more zeros are added *)
    assert (Em : Pos.iter xO (Pos.iter xO p k) q = m).
    { apply Pos2Z.inj. rewrite !Zpos_iter_xO, Hv, <- Z.mul_assoc.
      f_equal. rewrite <- Z.pow_add_r by lia. f_equal. lia. }
    rewrite Em. apply round_aligned; lia.
Qed.

(** The sum of two lengths is the length of the two together, as long as
    that is below 2^53. *)
Lemma add_ofLength a b :
  Z.of_nat (a + b) < 2 ^ 53 ->
  add (ofLength a) (ofLength b) = ofLength (a + b).
Proof.
  intros H. unfold ofLength.
  destruct a as [|a'].
  { cbn [Nat.add]. destruct b as [|b']; [reflexivity|].
    destruct (ofInt_finite (Z.of_nat (S b')) ltac:(lia)) as (m & e & ->).
    reflexivity. }
  destruct b as [|b'].
  { rewrite Nat.add_0_r.
    destruct (ofInt_finite (Z.of_nat (S a')) ltac:(lia)) as (m & e & ->).
    reflexivity. }
  remember (S a') as a eqn:Ea. remember (S b') as b eqn:Eb.
  destruct (Z.of_nat a) as [|pa|pa] eqn:Epa; try lia.
  destruct (Z.of_nat b) as [|pb|pb] eqn:Epb; try lia.
  assert (Hsum : Z.of_nat (a + b) = Zpos (pa + pb)) by lia.
  rewrite Hsum in *.
  assert (Ha : Zpos pa < 2 ^ 53) by lia.
  assert (Hb : Zpos pb < 2 ^ 53) by lia.
  rewrite (ofInt_aligned pa Ha), (ofInt_aligned pb Hb).
  pose proof (aligned_spec pa Ha) as Sa.
  pose proof (aligned_spec pb Hb) as Sb.
  destruct (aligned pa) as [ma ea]. destruct (aligned pb) as [mb eb].
  destruct Sa as (_ & Hea & _ & Hva). destruct Sb as (_ & Heb & _ & Hvb).
  cbn [fst snd]. unfold add, SFadd. cbn [cond_Zopp].
  set (ez := Z.min ea eb).
  assert (Hez : -52 <= ez <= 0) by (subst ez; lia).
  assert (Hal : forall m e v,
             -52 <= e <= 0 -> ez <= e -> Zpos m = v * 2 ^ (- e) ->
             Zpos (fst (shl_align m e ez)) = v * 2 ^ (- ez)).
  { intros m e v He Hle Hv. unfold shl_align.
    destruct (ez - e) as [|q|q] eqn:Eq; cbn [fst]; try lia.
    - replace ez with e by lia. exact Hv.
    - rewrite Zpos_iter_xO, Hv, <- Z.mul_assoc. f_equal.
      rewrite <- Z.pow_add_r by lia. f_equal. lia. }
  rewrite (Hal ma ea (Zpos pa) Hea ltac:(subst ez; lia) Hva).
  rewrite (Hal mb eb (Zpos pb) Heb ltac:(subst ez; lia) Hvb).
  rewrite <- Z.mul_add_distr_r.
  change (Zpos pa + Zpos pb) with (Zpos (pa + pb)).
  destruct ez as [|q|q] eqn:Eez; try lia.
  - cbn [Z.opp]. rewrite Z.pow_0_r, Z.mul_1_r. reflexivity.
  - cbn [Z.opp]. rewrite <- Zpos_iter_xO. cbn [binary_normalize].
    apply binary_round_zeros. lia.
Qed.

Lemma div_notNegative mx ex my ey :
  notNegative (div (S754_finite false mx ex) (S754_finite false my ey)) = true.
Proof.
  unfold div, SFdiv, SFdiv_core_binary. cbv zeta.
  match goal with
  | |- context [Z.div_eucl ?a (Zpos my)] => set (m' := a)
  end.
  assert (Hm' : 0 <= m').
  { subst m'. destruct (ex - ey - _) as [|q|q]; try lia.
    apply Z.shiftl_nonneg. lia. }
  pose proof (Z_div_mod m' (Zpos my) ltac:(lia)) as H.
  destruct (Z.div_eucl m' (Zpos my)) as [q r]. destruct H as [H1 H2].
  cbn [xorb]. apply binary_round_aux_notNegative. nia.
Qed.

Lemma mul_notNegative x my ey :
  notNegative x = true ->
  notNegative (mul x (S754_finite false my ey)) = true.
Proof.
  destruct x as [[|]|[|]| |[|] mx ex]; try discriminate; intros _;
    try reflexivity.
  unfold mul, SFmul. cbn [xorb]. apply binary_round_aux_notNegative. lia.
Qed.

Lemma orElse_notNegative x : notNegative x = true -> orElse x (ofInt 0) = x.
Proof. destruct x as [[|]|[|]| |[|] m e]; try discriminate; reflexivity. Qed.

(** The fallback of [|| 0] is used only when both arrays are empty. *)
Lemma successRate_value this :
  let s := List.length (success this) in
  let f := List.length (failure this) in
  Z.of_nat (s + f) < 2 ^ 53 ->
  Summary.successRate (getSummary this)
  = if (s + f =? 0)%nat then ofInt 0
    else mul (div (ofLength s) (add (ofLength s) (ofLength f))) (ofInt 100).
Proof.
  intros s f Hlt. unfold getSummary. cbn [Summary.successRate]. fold s f.
  rewrite (add_ofLength s f Hlt).
  destruct (s + f)%nat as [|m] eqn:E.
  - assert (s = 0)%nat as -> by lia. reflexivity.
  - cbn [Nat.eqb]. apply orElse_notNegative.
    destruct (ofInt_finite (Z.of_nat (S m)) ltac:(lia)) as (mt & et & Ht).
    unfold ofLength. rewrite Ht.
    change (ofInt 100) with (S754_finite false 7036874417766400 (-46)).
    apply mul_notNegative.
    destruct s as [|s'].
    + reflexivity.
    + destruct (ofInt_finite (Z.of_nat (S s')) ltac:(lia)) as (ms & es & Hs).
      rewrite Hs. apply div_notNegative.
Qed.

(** When nothing failed and something was sent, the rate is 100. *)
Lemma successRate_all this :
  failure this = [] -> success this <> [] ->
  Z.of_nat (List.length (success this)) < 2 ^ 53 ->
  Summary.successRate (getSummary this) = ofInt 100.
Proof.
  intros Hf Hs Hlt.
  pose proof (successRate_value this) as H. cbv zeta in H.
  rewrite Hf in H. cbn [List.length] in H. rewrite Nat.add_0_r in H.
  rewrite (H Hlt).
  destruct (List.length (success this)) as [|m] eqn:E.
  - destruct (success this); [contradiction|discriminate].
  - cbn [Nat.eqb].
    destruct (ofInt_finite (Z.of_nat (S m)) ltac:(lia)) as (mt & et & Ht).
    unfold ofLength. rewrite Ht, div_self. reflexivity.
Qed.

Lemma filter_all {A} (f : A -> bool) (l : list A) :
  (forall x, In x l -> f x = true) ->
  filter f l = l /\ filter (fun x => negb (f x)) l = [].
Proof.
  induction l as [|x l IH]; intros H; cbn; [split; reflexivity|].
  rewrite (H x (or_introl eq_refl)). cbn.
  destruct IH as [-> ->]; [|split; reflexivity].
  intros y Hy. apply H. right. exact Hy.
Qed.

(** C6. getSummary reports successRate = success / (success + failure) * 100
    as the program evaluates it, in IEEE 754 double arithmetic (the sum is
    exact, the quotient is rounded, then the product), and 0 when both
    sequences are empty;
    after a run over at least one recipient in which every send succeeds,
    the failures are empty, the successes are as many as the recipients, and
    getSummary reports a successRate of 100. An array holds fewer than 2^32
    entries; the lengths are taken below 2^53, where they are numbers as
    they are. *)
Theorem getSummary_successRate
  this cfg w emailList subject body progressCallback :
  (let s := List.length (getSuccessList this) in
   let f := List.length (getFailureList this) in
   Z.of_nat (s + f) < 2 ^ 53 ->
   Summary.successRate (getSummary this)
   = (if (s + f =? 0)%nat then ofInt 0
      else mul (div (ofLength s) (add (ofLength s) (ofLength f))) (ofInt 100)) /\
   add (ofLength s) (ofLength f) = ofLength (s + f)) /\
  (1 <= batchSize cfg ->
   emailList <> [] ->
   Z.of_nat (List.length emailList) < 2 ^ 53 ->
   (forall k email v,
       nth_error emailList k = Some email ->
       sendEmail cfg w k email subject body = Normal v -> isSuccess v = true) ->
   exists r s,
     sendBulkEmails cfg w emailList subject body progressCallback = Resolved r s /\
     RunResult.failure r = [] /\
     List.length (RunResult.success r) = List.length emailList /\
     Summary.successRate (getSummary (results s)) = ofInt 100).
Proof.
  split.
  { intros s f Hlt. split; [apply successRate_value; exact Hlt|].
    apply add_ofLength. exact Hlt. }
  intros Hb Hne Hlt Hall. eexists _, _.
  split; [apply sendBulkEmails_closed; exact Hb|].
  unfold resultOf. cbn [RunResult.success RunResult.failure].
  rewrite final_results by exact Hb.
  set (outs := outcomesFrom cfg w subject body 0 emailList).
  assert (Hok : forall v, In v outs -> isSuccess v = true).
  { intros v Hv. apply (in_outcomesFrom cfg w subject body emailList _ 0) in Hv.
    destruct Hv as (k & email & Hk & ->).
    apply (Hall k email); [exact Hk|apply sendEmail_Normal]. }
  destruct (filter_all isSuccess outs Hok) as [Hs Hf].
  assert (Hlen : List.length outs = List.length emailList)
    by apply outcomesFrom_length.
  unfold ledgerOf, isFailure. cbn [success failure]. rewrite Hs, Hf.
  split; [reflexivity|]. split; [exact Hlen|].
  apply successRate_all; cbn [success failure].
  - reflexivity.
  - intros E. rewrite E in Hlen. destruct emailList; [contradiction|discriminate].
  - rewrite Hlen. exact Hlt.
Qed.

(** C6, as first stated, fails in two places. Over the empty list every send
    succeeds (there is none) and the failures are empty, yet the successRate
    is 0, not 100. And with 2 successes and 1 failure the successRate is the
    double 4691249611844266 * 2^-46 (66.66666666666666), which is not the
    quotient 2 / 3 * 100. *)
Lemma successRate_0_for_empty_run_and_rounded :
  (exists r s,
      sendBulkEmails Config worldAllOk [] "Hello" "<p>Hello</p>" true
      = Resolved r s /\
      (forall k email v,
          nth_error [] k = Some email ->
          sendEmail Config worldAllOk k email "Hello" "<p>Hello</p>" = Normal v ->
          isSuccess v = true) /\
      RunResult.failure r = [] /\
      Summary.successRate (getSummary (results s)) = ofInt 0 /\
      ofInt 0 <> ofInt 100) /\
  (let this := {| success := [okReply; okReply]; failure := [VNull] |} in
   Summary.successRate (getSummary this)
   = S754_finite false 4691249611844266 (-46) /\
   ~ Qeq (toQ (Summary.successRate (getSummary this)))
         (inject_Z 2 / inject_Z (2 + 1) * inject_Z 100)).
Proof.
  split.
  - eexists _, _. split; [reflexivity|]. split; [|split; [|split]].
    + intros k email v Hk. destruct k; discriminate Hk.
    + reflexivity.
    + reflexivity.
    + discriminate.
  - cbv zeta. split; [vm_compute; reflexivity|].
    vm_compute. discriminate.
Qed.

(* ------------------------------------------------------------------------- *)
(** ** No validation of the batch size *)

Lemma iteration_Running cfg w emailList subject body progressCallback s :
  exists s',
    iteration cfg w emailList subject body progressCallback s = Running s' /\
    i s' = i s + batchSize cfg.
Proof.
  unfold iteration. rewrite PromiseAll_mapSend.
  rewrite forEachCategorize_spec by apply outcomesFrom_not_nullish.
  eexists. split; reflexivity.
Qed.

Lemma sendBulkEmailsAfter_not_Rejected
  cfg w emailList subject body progressCallback steps e s :
  sendBulkEmailsAfter cfg w emailList subject body progressCallback steps
  <> Rejected e s.
Proof.
  revert e s. induction steps as [|steps IH]; intros e s.
  - discriminate.
  - rewrite sendBulkEmailsAfter_S.
    destruct (sendBulkEmailsAfter cfg w emailList subject body
                progressCallback steps) as [s0|r0 s0|e0 s0] eqn:E.
    + cbn [advance]. unfold step. destruct (_ <? _); [|discriminate].
      destruct (iteration_Running cfg w emailList subject body
                  progressCallback s0) as (s' & -> & _).
      discriminate.
    + discriminate.
    + exfalso. exact (IH e0 s0 eq_refl).
Qed.

(** With a negative batch size the counter only decreases: a run over a
    non-empty list never leaves the loop. *)
Lemma negative_batchSize_never_leaves_loop
  cfg w emailList subject body progressCallback :
  batchSize cfg < 0 -> emailList <> [] ->
  forall steps,
    exists s,
      sendBulkEmailsAfter cfg w emailList subject body progressCallback steps
        = Running s /\
      i s = Z.of_nat steps * batchSize cfg.
Proof.
  intros Hb Hne. induction steps as [|steps (s & Hs & Hi)].
  - eexists. split; reflexivity.
  - rewrite sendBulkEmailsAfter_S, Hs. cbn [advance]. unfold step.
    destruct (Z.ltb_spec (i s) (Z.of_nat (List.length emailList))) as [H|H].
    + destruct (iteration_Running cfg w emailList subject body
                  progressCallback s) as (s' & -> & Hi').
      exists s'. split; [reflexivity|]. lia.
    + destruct emailList; [contradiction|]. cbn [List.length] in H. nia.
Qed.

(** C7 does not hold for a batch size below 1. With batchSize = -1 and two
    recipients, the first pass of the loop sends to the first recipient and
    the run is still running, not rejected; with batchSize = 0 the default
    of 10 is used and the run sends to both recipients and resolves. *)
Lemma batchSize_below_1_still_sends :
  batchSize (configWith (Some (-1)) (Some 1000)) = -1 /\
  sendsOf (traceOf (sendBulkEmailsAfter (configWith (Some (-1)) (Some 1000))
                      worldAllOk ["a@x.io"; "b@x.io"]
                      "Hello" "<p>Hello</p>" true 1))
  = [(0%nat, "a@x.io")] /\
  sendsOf (traceOf (sendBulkEmailsAfter (configWith (Some (-1)) (Some 1000))
                      worldAllOk ["a@x.io"; "b@x.io"]
                      "Hello" "<p>Hello</p>" true 1))
  <> [] /\
  (exists s,
      sendBulkEmailsAfter (configWith (Some (-1)) (Some 1000))
        worldAllOk ["a@x.io"; "b@x.io"] "Hello" "<p>Hello</p>" true 1
      = Running s) /\
  sendsOf (traceOf (sendBulkEmails (configWith (Some 0) (Some 1000))
                      worldAllOk ["a@x.io"; "b@x.io"]
                      "Hello" "<p>Hello</p>" true))
  = [(0%nat, "a@x.io"); (1%nat, "b@x.io")] /\
  (exists r s,
      sendBulkEmails (configWith (Some 0) (Some 1000))
        worldAllOk ["a@x.io"; "b@x.io"] "Hello" "<p>Hello</p>" true
      = Resolved r s).
Proof.
  split; [reflexivity|]. split; [vm_compute; reflexivity|].
  split; [vm_compute; discriminate|].
  split; [eexists; vm_compute; reflexivity|].
  split; [vm_compute; reflexivity|].
  eexists _, _. vm_compute. reflexivity.
Qed.

(** C7, as the code has it. sendBulkEmails does not validate the batch
    size: whatever it is, no run is rejected, synchronously or later. A
    configured batch size of 0, or a missing one, is replaced by the default
    of 10, and the run then resolves after calling sendEmail once for every
    recipient, in order, with one outcome each. *)
Theorem batchSize_is_not_validated
  cfg w emailList subject body progressCallback :
  (forall b, Cfg.batchSize (Cfg.email cfg) = Some b -> b < 1) ->
  (forall steps e s,
      sendBulkEmailsAfter cfg w emailList subject body progressCallback steps
      <> Rejected e s) /\
  (Cfg.batchSize (Cfg.email cfg) = Some 0 \/
   Cfg.batchSize (Cfg.email cfg) = None ->
   batchSize cfg = 10 /\
   exists r s,
     sendBulkEmails cfg w emailList subject body progressCallback = Resolved r s /\
     map snd (sendsOf (trace s)) = emailList /\
     RunResult.total r = Z.of_nat (List.length emailList) /\
     RunResult.successCount r + RunResult.failureCount r = RunResult.total r).
Proof.
  intros _. split.
  - intros steps e s. apply sendBulkEmailsAfter_not_Rejected.
  - intros Hcfg.
    assert (Hten : batchSize cfg = 10).
    { unfold batchSize, numberOr. destruct Hcfg as [-> | ->]; reflexivity. }
    split; [exact Hten|].
    assert (Hb : 1 <= batchSize cfg) by lia.
    eexists _, _. split; [apply sendBulkEmails_closed; exact Hb|].
    split; [apply (final_sends cfg w emailList subject body progressCallback Hb)|].
    apply (final_counts cfg w emailList subject body progressCallback Hb).
Qed.

(* ------------------------------------------------------------------------- *)
(** ** The empty run *)

(** C8. Over an empty recipient list, whatever the configuration, the run
    resolves at the first test of the loop with [total = 0], empty successes
    and failures and zero counts; nothing is sent, the callback is never
    called, no pause is made; getSummary then reports a total of 0 and a
    successRate of 0. *)
Theorem empty_run cfg w subject body progressCallback :
  exists s,
    sendBulkEmails cfg w [] subject body progressCallback
    = Resolved {| RunResult.success := []; RunResult.failure := [];
                  RunResult.total := 0;
                  RunResult.successCount := 0;
                  RunResult.failureCount := 0 |} s /\
    (forall steps,
        sendBulkEmailsAfter cfg w [] subject body progressCallback (S steps)
        = sendBulkEmails cfg w [] subject body progressCallback) /\
    trace s = [] /\
    progressOf (trace s) = [] /\
    sendsOf (trace s) = [] /\
    results s = {| success := []; failure := [] |} /\
    Summary.total (getSummary (results s)) = 0 /\
    Summary.successRate (getSummary (results s)) = ofInt 0.
Proof.
  eexists. split; [reflexivity|]. split; [|repeat split].
  induction steps as [|steps IH]; [reflexivity|].
  rewrite sendBulkEmailsAfter_S, IH. reflexivity.
Qed.

(* ------------------------------------------------------------------------- *)
(** ** The theorems at concrete runs *)

Lemma accounts_for_every_recipient_example :
  1 <= batchSize Config /\
  exists r s,
    sendBulkEmails Config worldSecondFails threeRecipients
      "Hello" "<p>Hello</p>" true = Resolved r s /\
    RunResult.total r = 3 /\
    RunResult.successCount r + RunResult.failureCount r = RunResult.total r.
Proof.
  assert (Hb : 1 <= batchSize Config) by (vm_compute; discriminate).
  split; [exact Hb|].
  destruct (sendBulkEmails_accounts_for_every_recipient
              Config worldSecondFails threeRecipients
              "Hello" "<p>Hello</p>" true Hb)
    as (r & s & Hrun & Htot & Hsum & _).
  exists r, s. repeat split; assumption.
Defined.

Lemma transport_failure_example :
  1 <= batchSize Config /\
  nth_error threeRecipients 1 = Some "b@x.io" /\
  transportFails Config worldSecondFails 1 "b@x.io" "Hello" "<p>Hello</p>"
    (mkError "Failed to fetch") /\
  exists r s,
    sendBulkEmails Config worldSecondFails threeRecipients
      "Hello" "<p>Hello</p>" true = Resolved r s /\
    In (networkFailure worldSecondFails 1 "b@x.io" "Hello"
          (mkError "Failed to fetch"))
       (RunResult.failure r).
Proof.
  assert (Hb : 1 <= batchSize Config) by (vm_compute; discriminate).
  assert (Hk : nth_error threeRecipients 1 = Some "b@x.io") by reflexivity.
  assert (Hf : transportFails Config worldSecondFails 1 "b@x.io" "Hello"
                 "<p>Hello</p>" (mkError "Failed to fetch"))
    by (apply fetchRejects; reflexivity).
  split; [exact Hb|]. split; [exact Hk|]. split; [exact Hf|].
  destruct (transport_failure_is_isolated
              Config worldSecondFails threeRecipients
              "Hello" "<p>Hello</p>" true 1 "b@x.io"
              (mkError "Failed to fetch") Hb Hk Hf)
    as (r & s & Hrun & _ & _ & _ & Hin & _).
  exists r, s. split; assumption.
Defined.

Lemma sendEmail_never_rejects_example :
  sendEmailTry Config worldNullReply 0 "a@x.io" "Hello" "<p>Hello</p>"
  = Throw (mkError "Cannot read properties of null (reading 'sentAt')") /\
  exists v,
    sendEmail Config worldNullReply 0 "a@x.io" "Hello" "<p>Hello</p>" = Normal v /\
    getProp v "errorCode" = Normal (VStr "NETWORK_ERROR").
Proof.
  assert (Ht : sendEmailTry Config worldNullReply 0 "a@x.io" "Hello" "<p>Hello</p>"
               = Throw (mkError "Cannot read properties of null (reading 'sentAt')"))
    by reflexivity.
  split; [exact Ht|].
  destruct (sendEmail_never_rejects Config worldNullReply 0
              "a@x.io" "Hello" "<p>Hello</p>")
    as (v & Hv & _ & Hcaught & _).
  exists v. split; [exact Hv|].
  destruct (Hcaught _ Ht) as (_ & Hcode & _). exact Hcode.
Defined.

Lemma ledger_follows_input_order_example :
  1 <= batchSize (configWith (Some 2) (Some 1000)) /\
  exists r s,
    sendBulkEmails (configWith (Some 2) (Some 1000)) worldSecondFails
      threeRecipients "Hello" "<p>Hello</p>" true = Resolved r s /\
    List.length (RunResult.success r) = 2%nat /\
    List.length (RunResult.failure r) = 1%nat.
Proof.
  assert (Hb : 1 <= batchSize (configWith (Some 2) (Some 1000)))
    by (vm_compute; discriminate).
  split; [exact Hb|].
  destruct (ledger_follows_input_order
              (configWith (Some 2) (Some 1000)) worldSecondFails
              threeRecipients "Hello" "<p>Hello</p>" true Hb)
    as ((r & s & Hrun & Hs & Hf & _) & _).
  exists r, s. split; [exact Hrun|].
  rewrite Hs, Hf. split; vm_compute; reflexivity.
Defined.

Lemma progress_once_per_group_example :
  1 <= batchSize (configWith (Some 2) (Some 1000)) /\
  exists r s,
    sendBulkEmails (configWith (Some 2) (Some 1000)) worldSecondFails
      threeRecipients "Hello" "<p>Hello</p>" true = Resolved r s /\
    Z.of_nat (List.length (progressOf (trace s))) = 2.
Proof.
  assert (Hb : 1 <= batchSize (configWith (Some 2) (Some 1000)))
    by (vm_compute; discriminate).
  split; [exact Hb|].
  destruct (progress_once_per_group
              (configWith (Some 2) (Some 1000)) worldSecondFails
              threeRecipients "Hello" "<p>Hello</p>" Hb)
    as (r & s & Hrun & Hlen & _).
  exists r, s. split; [exact Hrun|]. rewrite Hlen. reflexivity.
Defined.

Lemma groups_partition_example :
  1 <= batchSize (configWith (Some 2) (Some 1000)) /\
  exists r s,
    sendBulkEmails (configWith (Some 2) (Some 1000)) worldSecondFails
      threeRecipients "Hello" "<p>Hello</p>" false = Resolved r s /\
    List.concat (groupsOf (trace s)) = threeRecipients /\
    Z.of_nat (List.length (groupsOf (trace s))) = 2 /\
    List.length (RunResult.success r) = 2%nat /\
    map (fun v => getProp v "email") (RunResult.failure r)
    = [Normal (VStr "b@x.io")].
Proof.
  assert (Hb : 1 <= batchSize (configWith (Some 2) (Some 1000)))
    by (vm_compute; discriminate).
  split; [exact Hb|].
  destruct (groups_partition_the_recipients
              (configWith (Some 2) (Some 1000)) worldSecondFails
              threeRecipients "Hello" "<p>Hello</p>" false Hb)
    as (r & s & Hrun & Hcat & _ & _ & Hlen & _ & _ & _ & _ & Hsucc & Hfail).
  exists r, s. split; [exact Hrun|]. split; [exact Hcat|].
  split; [rewrite Hlen; reflexivity|].
  rewrite Hsucc, Hfail. split; reflexivity.
Defined.

Lemma pauses_between_groups_example :
  1 <= batchSize (configWith (Some 1) (Some 0)) /\
  exists r s,
    sendBulkEmails (configWith (Some 1) (Some 0)) worldAllFail
      threeRecipients "Hello" "<p>Hello</p>" true = Resolved r s /\
    sleepsOf (trace s) = [1000; 1000].
Proof.
  assert (Hb : 1 <= batchSize (configWith (Some 1) (Some 0)))
    by (vm_compute; discriminate).
  split; [exact Hb|].
  destruct (pauses_between_groups
              (configWith (Some 1) (Some 0)) worldAllFail
              threeRecipients "Hello" "<p>Hello</p>" true Hb)
    as (r & s & Hrun & _ & _ & Hsleeps & _).
  exists r, s. split; [exact Hrun|]. rewrite Hsleeps. reflexivity.
Defined.

Lemma getSummary_successRate_example :
  1 <= batchSize Config /\
  threeRecipients <> [] /\
  (forall k email v,
      nth_error threeRecipients k = Some email ->
      sendEmail Config worldAllOk k email "Hello" "<p>Hello</p>" = Normal v ->
      isSuccess v = true) /\
  exists r s,
    sendBulkEmails Config worldAllOk threeRecipients
      "Hello" "<p>Hello</p>" true = Resolved r s /\
    RunResult.failure r = [] /\
    Summary.successRate (getSummary (results s))
    = S754_finite false 7036874417766400 (-46).
Proof.
  assert (Hb : 1 <= batchSize Config) by (vm_compute; discriminate).
  assert (Hne : threeRecipients <> []) by discriminate.
  assert (Hlt : Z.of_nat (List.length threeRecipients) < 2 ^ 53)
    by (vm_compute; reflexivity).
  assert (Hall : forall k email v,
             nth_error threeRecipients k = Some email ->
             sendEmail Config worldAllOk k email "Hello" "<p>Hello</p>" = Normal v ->
             isSuccess v = true).
  { intros k email v _ Hv. vm_compute in Hv. injection Hv as <-. reflexivity. }
  split; [exact Hb|]. split; [exact Hne|]. split; [exact Hall|].
  destruct (getSummary_successRate
              {| success := []; failure := [] |}
              Config worldAllOk threeRecipients "Hello" "<p>Hello</p>" true)
    as (_ & Hrun).
  destruct (Hrun Hb Hne Hlt Hall) as (r & s & Hr & Hfail & _ & Hrate).
  exists r, s. repeat split; assumption.
Defined.

Lemma batchSize_is_not_validated_example :
  (forall b,
      Cfg.batchSize (Cfg.email (configWith (Some 0) (Some 1000))) = Some b ->
      b < 1) /\
  batchSize (configWith (Some 0) (Some 1000)) = 10 /\
  exists r s,
    sendBulkEmails (configWith (Some 0) (Some 1000)) worldAllOk
      threeRecipients "Hello" "<p>Hello</p>" true = Resolved r s /\
    map snd (sendsOf (trace s)) = threeRecipients.
Proof.
  assert (Hlow : forall b,
             Cfg.batchSize (Cfg.email (configWith (Some 0) (Some 1000))) = Some b ->
             b < 1).
  { intros b Hb. simpl in Hb. injection Hb as <-. lia. }
  split; [exact Hlow|].
  destruct (batchSize_is_not_validated
              (configWith (Some 0) (Some 1000)) worldAllOk
              threeRecipients "Hello" "<p>Hello</p>" true Hlow)
    as (_ & Hzero).
  destruct (Hzero (or_introl eq_refl)) as (Hten & r & s & Hrun & Hsends & _).
  split; [exact Hten|]. exists r, s. split; assumption.
Defined.

(* ------------------------------------------------------------------------- *)
(** ** The scenarios of the specification, computed *)

(** Scenario A: 25 recipients in batches of 10 make groups of 10, 10 and 5
    and three progress calls, at 10, 20 and 25. *)
Example scenario_A :
  let tr := traceOf (sendBulkEmails Config worldAllOk (recipients 25)
                       "Hello" "<p>Hello</p>" true) in
  map (@List.length string) (groupsOf tr) = [10; 10; 5]%nat /\
  map Progress.processed (progressOf tr) = [10; 20; 25] /\
  sleepsOf tr = [1000; 1000].
Proof. vm_compute. repeat split. Qed.

(** Scenario C: when every fetch rejects, the successes are empty and every
    outcome carries errorCode "NETWORK_ERROR". *)
Example scenario_C :
  exists r s,
    sendBulkEmails Config worldAllFail threeRecipients
      "Hello" "<p>Hello</p>" true = Resolved r s /\
    RunResult.success r = [] /\
    map (fun v => getProp v "errorCode") (RunResult.failure r)
    = repeat (Normal (VStr "NETWORK_ERROR")) 3.
Proof. eexists _, _. vm_compute. repeat split. Qed.

(** Scenario E: a single recipient makes one group and one progress call. *)
Example scenario_E :
  let tr := traceOf (sendBulkEmails Config worldAllOk ["a@x.io"]
                       "Hello" "<p>Hello</p>" true) in
  groupsOf tr = [["a@x.io"]] /\
  map Progress.processed (progressOf tr) = [1] /\
  sleepsOf tr = [].
Proof. vm_compute. repeat split. Qed.

(* ------------------------------------------------------------------------- *)
(** ** Further properties of EmailService *)

(** X1. After a run with a batch size of at least 1, getSummary agrees with
    the result the run resolved with: its total is the number of recipients
    and the total of the result, its success and failure are the two counts
    of the result. *)
Theorem getSummary_agrees_with_run
  cfg w emailList subject body progressCallback :
  1 <= batchSize cfg ->
  exists r s,
    sendBulkEmails cfg w emailList subject body progressCallback = Resolved r s /\
    Summary.total (getSummary (results s)) = RunResult.total r /\
    Summary.total (getSummary (results s)) = Z.of_nat (List.length emailList) /\
    Summary.success (getSummary (results s)) = RunResult.successCount r /\
    Summary.failure (getSummary (results s)) = RunResult.failureCount r.
Proof.
  intros Hb. eexists _, _. split; [apply sendBulkEmails_closed; exact Hb|].
  destruct (final_counts cfg w emailList subject body progressCallback Hb)
    as [Htot Hsum].
  unfold getSummary, resultOf in *.
  cbn [Summary.total Summary.success Summary.failure RunResult.total
       RunResult.successCount RunResult.failureCount] in *.
  rewrite Nat2Z.inj_add. repeat split; lia.
Qed.

Lemma getSummary_agrees_with_run_example :
  1 <= batchSize Config /\
  exists r s,
    sendBulkEmails Config worldSecondFails threeRecipients
      "Hello" "<p>Hello</p>" true = Resolved r s /\
    Summary.total (getSummary (results s)) = 3.
Proof.
  assert (Hb : 1 <= batchSize Config) by (vm_compute; discriminate).
  split; [exact Hb|].
  destruct (getSummary_agrees_with_run Config worldSecondFails threeRecipients
              "Hello" "<p>Hello</p>" true Hb)
    as (r & s & Hrun & _ & Htot & _).
  exists r, s. split; [exact Hrun|exact Htot].
Defined.

Lemma assoc_update_same k v fs : assoc k (update k v fs) = Some v.
Proof.
  induction fs as [|[k' v'] fs IH]; cbn.
  - now rewrite String.eqb_refl.
  - destruct (String.eqb k k') eqn:E; cbn; rewrite ?String.eqb_refl, ?E; auto.
Qed.

Lemma assoc_update_other k k' v fs :
  k <> k' -> assoc k (update k' v fs) = assoc k fs.
Proof.
  intros Hne. induction fs as [|[k0 v0] fs IH]; cbn.
  - destruct (String.eqb_spec k k'); [contradiction|reflexivity].
  - destruct (String.eqb_spec k' k0) as [->|Hk0]; cbn.
    + destruct (String.eqb_spec k k0); [contradiction|reflexivity].
    + destruct (String.eqb_spec k k0); [reflexivity|apply IH].
Qed.

Lemma getProp_setProp_same v k x :
  nullish v = false ->
  (exists y, getProp v k = Normal y /\ truthy y = true) ->
  getProp (setProp v k x) k = Normal x.
Proof.
  intros _ (y & Hy & Ht). destruct v; cbn in *;
    try (injection Hy as <-; discriminate Ht); try discriminate.
  now rewrite assoc_update_same.
Qed.

Lemma getProp_setProp_other v k k' x :
  k <> k' -> getProp (setProp v k' x) k = getProp v k.
Proof.
  intros Hne. destruct v; cbn; try reflexivity.
  now rewrite assoc_update_other.
Qed.

(** X2. When fetch fulfils and the reply parses to a value [reply] other
    than null, whose sentAt and attemptedAt are each falsy or a value that
    [new Date] accepts, sendEmail resolves with the reply itself up to its
    two time stamps: every property other than sentAt and attemptedAt reads
    as in the reply (so the success flag the ledger tests is the backend's),
    and a truthy sentAt or attemptedAt is replaced by the Date made of it, a
    falsy one is left as it is. When one of the two is truthy and
    [new Date] throws on it (an object with a property toString), the catch
    block takes over: sendEmail resolves with the NETWORK_ERROR failure,
    whatever success flag the reply carries. *)
Theorem sendEmail_passes_reply_through cfg w k to subj bdy resp reply sa aa :
  fetch w k (stripTrailingSlash (backendApiUrl0 cfg))
    {| toEmail := to; subject := subj; body := bdy |} = Normal resp ->
  json resp = Normal reply ->
  getProp reply "sentAt" = Normal sa ->
  getProp reply "attemptedAt" = Normal aa ->
  (truthy sa && notPrimitive sa = false ->
   truthy aa && notPrimitive aa = false ->
   exists v,
     sendEmail cfg w k to subj bdy = Normal v /\
     isSuccess v = isSuccess reply /\
     (forall key, key <> "sentAt" -> key <> "attemptedAt" ->
                  getProp v key = getProp reply key) /\
     getProp v "sentAt" = Normal (if truthy sa then VDate sa else sa) /\
     getProp v "attemptedAt" = Normal (if truthy aa then VDate aa else aa)) /\
  (truthy sa && notPrimitive sa = true \/
   truthy aa && notPrimitive aa = true ->
   sendEmail cfg w k to subj bdy
   = Normal (networkFailure w k to subj
               (mkError "Cannot convert object to primitive value"))).
Proof.
  intros Hfetch Hjson Hsa Haa.
  pose proof (getProp_Normal _ _ _ Hsa) as Hnn.
  set (r1 := if truthy sa then setProp reply "sentAt" (VDate sa) else reply).
  set (r2 := if truthy aa then setProp r1 "attemptedAt" (VDate aa) else r1).
  assert (Hr1att : getProp r1 "attemptedAt" = Normal aa).
  { subst r1. destruct (truthy sa); [|exact Haa].
    rewrite getProp_setProp_other by discriminate. exact Haa. }
  assert (Hstart : sendEmail cfg w k to subj bdy
                   = tryCatch
                       (result <-
                          (if truthy sa
                           then date <- newDate sa ;;
                                Normal (setProp reply "sentAt" date)
                           else Normal reply) ;;
                        attemptedAt <- getProp result "attemptedAt" ;;
                        result <-
                          (if truthy attemptedAt
                           then date <- newDate attemptedAt ;;
                                Normal (setProp result "attemptedAt" date)
                           else Normal result) ;;
                        Normal result)
                       (fun err => Normal (networkFailure w k to subj err))).
  { unfold sendEmail, sendEmailTry. cbv zeta. rewrite Hfetch. cbn [bind].
    rewrite Hjson. cbn [bind]. rewrite Hsa. reflexivity. }
  split.
  - intros Usa Uaa.
    assert (Hsend : sendEmail cfg w k to subj bdy = Normal r2).
    { rewrite Hstart. unfold newDate. subst r2 r1.
      destruct (truthy sa) eqn:Ts; cbn [andb] in Usa; rewrite ?Usa;
        cbn [bind]; rewrite ?getProp_setProp_other by discriminate;
        rewrite Haa; cbn [bind];
        destruct (truthy aa) eqn:Ta; cbn [andb] in Uaa; rewrite ?Uaa;
        reflexivity. }
    assert (Hother : forall key, key <> "sentAt" -> key <> "attemptedAt" ->
                                 getProp r2 key = getProp reply key).
    { intros key H1 H2. subst r2 r1.
      destruct (truthy aa), (truthy sa);
        rewrite ?getProp_setProp_other by assumption; reflexivity. }
    exists r2. split; [exact Hsend|]. split; [|split; [exact Hother|split]].
    + unfold isSuccess. rewrite Hother by discriminate. reflexivity.
    + subst r2.
      assert (H1 : getProp r1 "sentAt"
                   = Normal (if truthy sa then VDate sa else sa)).
      { subst r1. destruct (truthy sa) eqn:E; [|exact Hsa].
        apply getProp_setProp_same; [exact Hnn|]. exists sa. now split. }
      destruct (truthy aa); [|exact H1].
      rewrite getProp_setProp_other by discriminate. exact H1.
    + subst r2. destruct (truthy aa) eqn:E; [|exact Hr1att].
      apply getProp_setProp_same.
      * subst r1. destruct (truthy sa); [rewrite setProp_nullish|]; exact Hnn.
      * exists aa. now split.
  - intros U. rewrite Hstart. unfold newDate.
    destruct (truthy sa) eqn:Ts; cbn [andb] in U.
    + destruct (notPrimitive sa) eqn:Ns; [reflexivity|].
      destruct U as [U|U]; [discriminate U|].
      cbn [bind]. rewrite getProp_setProp_other by discriminate.
      rewrite Haa. cbn [bind].
      apply andb_true_iff in U. destruct U as [Ta Na]. rewrite Ta, Na.
      reflexivity.
    + destruct U as [U|U]; [discriminate U|].
      cbn [bind]. rewrite Haa. cbn [bind].
      apply andb_true_iff in U. destruct U as [Ta Na]. rewrite Ta, Na.
      reflexivity.
Qed.

Lemma sendEmail_passes_reply_through_example :
  (exists v,
      sendEmail Config worldAllOk 0 "a@x.io" "Hello" "<p>Hello</p>" = Normal v /\
      isSuccess v = true /\
      getProp v "sentAt" = Normal (VDate (VStr "2024-05-01T10:00:00.000Z"))) /\
  isSuccess (outcome Config worldOddDate "Hello" "<p>Hello</p>" 0 "a@x.io")
  = false.
Proof.
  split.
  - destruct (sendEmail_passes_reply_through Config worldAllOk 0
                "a@x.io" "Hello" "<p>Hello</p>"
                {| json := Normal okReply |} okReply
                (VStr "2024-05-01T10:00:00.000Z") VUndefined
                eq_refl eq_refl eq_refl eq_refl) as [H _].
    destruct (H eq_refl eq_refl) as (v & Hv & Hs & _ & Hsent & _).
    exists v. split; [exact Hv|]. split; [exact Hs|exact Hsent].
  - destruct (sendEmail_passes_reply_through Config worldOddDate 0
                "a@x.io" "Hello" "<p>Hello</p>"
                {| json := Normal oddDateReply |} oddDateReply
                (VObj [("toString", VNum 1)]) VUndefined
                eq_refl eq_refl eq_refl eq_refl) as [_ H].
    unfold outcome. rewrite (H (or_introl eq_refl)). reflexivity.
Defined.

(** X3. When the transport fails for every recipient (batch size at least
    1), the run still resolves: the successes are empty, the failures hold
    one outcome per recipient, and every one of them carries errorCode
    "NETWORK_ERROR". *)
Theorem all_transport_failures_are_recorded
  cfg w emailList subject body progressCallback :
  1 <= batchSize cfg ->
  (forall k email,
      nth_error emailList k = Some email ->
      exists err, transportFails cfg w k email subject body err) ->
  exists r s,
    sendBulkEmails cfg w emailList subject body progressCallback = Resolved r s /\
    RunResult.success r = [] /\
    List.length (RunResult.failure r) = List.length emailList /\
    RunResult.failureCount r = RunResult.total r /\
    Forall (fun v => getProp v "errorCode" = Normal (VStr "NETWORK_ERROR"))
           (RunResult.failure r).
Proof.
  intros Hb Hall. eexists _, _. split; [apply sendBulkEmails_closed; exact Hb|].
  unfold resultOf.
  cbn [RunResult.success RunResult.failure RunResult.failureCount RunResult.total].
  rewrite final_results by exact Hb.
  set (outs := outcomesFrom cfg w subject body 0 emailList).
  assert (Hshape : forall v, In v outs ->
            isFailure v = true /\
            getProp v "errorCode" = Normal (VStr "NETWORK_ERROR")).
  { intros v Hv. apply (in_outcomesFrom cfg w subject body emailList _ 0) in Hv.
    destruct Hv as (k & email & Hk & ->). destruct (Hall k email Hk) as [err Herr].
    unfold outcome. cbn [Nat.add].
    rewrite (sendEmail_caught _ _ _ _ _ _ _ (transportFails_Throw _ _ _ _ _ _ _ Herr)).
    split; reflexivity. }
  assert (Hf : filter isFailure outs = outs /\ filter isSuccess outs = []).
  { destruct (filter_all isFailure outs (fun v Hv => proj1 (Hshape v Hv)))
      as [H1 H2].
    split; [exact H1|]. rewrite <- H2. apply filter_ext.
    intros v. unfold isFailure. now rewrite negb_involutive. }
  destruct Hf as [Hfail Hsucc]. cbn [ledgerOf success failure].
  rewrite Hfail, Hsucc.
  assert (Hlen : List.length outs = List.length emailList)
    by apply outcomesFrom_length.
  repeat split; try assumption; try (rewrite Hlen; reflexivity).
  apply Forall_forall. intros v Hv. apply Hshape. exact Hv.
Qed.

Lemma all_transport_failures_example :
  1 <= batchSize Config /\
  (forall k email,
      nth_error threeRecipients k = Some email ->
      exists err, transportFails Config worldAllFail k email
                    "Hello" "<p>Hello</p>" err) /\
  exists r s,
    sendBulkEmails Config worldAllFail threeRecipients
      "Hello" "<p>Hello</p>" true = Resolved r s /\
    RunResult.success r = [] /\
    List.length (RunResult.failure r) = 3%nat.
Proof.
  assert (Hb : 1 <= batchSize Config) by (vm_compute; discriminate).
  assert (Hall : forall k email,
             nth_error threeRecipients k = Some email ->
             exists err, transportFails Config worldAllFail k email
                           "Hello" "<p>Hello</p>" err).
  { intros k email _. exists (mkError "Failed to fetch").
    apply fetchRejects. reflexivity. }
  split; [exact Hb|]. split; [exact Hall|].
  destruct (all_transport_failures_are_recorded Config worldAllFail
              threeRecipients "Hello" "<p>Hello</p>" true Hb Hall)
    as (r & s & Hrun & Hs & Hlen & _).
  exists r, s. repeat split; assumption.
Defined.

Lemma progressOf_groupTrace_no_callback cfg w emailList subject body j :
  progressOf (groupTrace cfg w emailList subject body false j) = [].
Proof.
  unfold groupTrace, groupWork, groupPause, progressOf. rewrite !flat_map_app.
  fold (progressOf (sendEvents subject body (j * Z.to_nat (batchSize cfg))
                      (batchAt cfg emailList j))).
  rewrite progressOf_sendEvents. now destruct (_ <? _).
Qed.

Lemma concat_map_nil {A X} (l : list A) :
  List.concat (map (fun _ => @nil X) l) = [].
Proof. induction l; cbn; auto. Qed.

(** X4. The progress callback is optional and only observes: without a
    callback a run (batch size at least 1) makes no progress call at all,
    and it resolves with the same result and leaves the same ledger as the
    run with a callback. *)
Theorem callback_is_optional cfg w emailList subject body :
  1 <= batchSize cfg ->
  exists r s s',
    sendBulkEmails cfg w emailList subject body false = Resolved r s /\
    sendBulkEmails cfg w emailList subject body true = Resolved r s' /\
    results s = results s' /\
    progressOf (trace s) = [] /\
    sendsOf (trace s) = sendsOf (trace s') /\
    sleepsOf (trace s) = sleepsOf (trace s').
Proof.
  intros Hb. eexists _, _, _.
  split; [apply sendBulkEmails_closed; exact Hb|].
  split; [rewrite sendBulkEmails_closed by exact Hb; reflexivity|].
  split; [reflexivity|].
  rewrite !final_trace. split; [|split].
  - unfold progressOf.
    rewrite (flat_map_groups _ _ _ _ _ _ _ (fun _ => []))
      by (intros j; apply progressOf_groupTrace_no_callback).
    apply concat_map_nil.
  - unfold sendsOf.
    rewrite !(flat_map_groups _ _ _ _ _ _ _
                (fun j => sendsOf (sendEvents subject body
                                     (j * Z.to_nat (batchSize cfg))
                                     (batchAt cfg emailList j))))
      by (intros j; apply sendsOf_groupTrace).
    reflexivity.
  - unfold sleepsOf.
    rewrite !(flat_map_groups _ _ _ _ _ _ _
                (fun j => if Z.of_nat (S j * Z.to_nat (batchSize cfg))
                             <? Z.of_nat (List.length emailList)
                          then [delay cfg] else []))
      by (intros j; apply sleepsOf_groupTrace).
    reflexivity.
Qed.

Lemma callback_is_optional_example :
  1 <= batchSize (configWith (Some 2) (Some 1000)) /\
  exists r s,
    sendBulkEmails (configWith (Some 2) (Some 1000)) worldSecondFails
      threeRecipients "Hello" "<p>Hello</p>" false = Resolved r s /\
    progressOf (trace s) = [].
Proof.
  assert (Hb : 1 <= batchSize (configWith (Some 2) (Some 1000)))
    by (vm_compute; discriminate).
  split; [exact Hb|].
  destruct (callback_is_optional (configWith (Some 2) (Some 1000))
              worldSecondFails threeRecipients "Hello" "<p>Hello</p>" Hb)
    as (r & s & s' & Hrun & _ & _ & Hp & _).
  exists r, s. split; assumption.
Defined.









Lemma stripTrailingSlash_slash s : stripTrailingSlash (s ++ "/")%string = s.
Proof.
  induction s as [|c s IH]; [reflexivity|].
  cbn [String.append stripTrailingSlash]. rewrite IH.
  destruct s; reflexivity.
Qed.

Lemma stripTrailingSlash_other s :
  (forall t, s <> (t ++ "/")%string) -> stripTrailingSlash s = s.
Proof.
  induction s as [|c s IH]; intros H; [reflexivity|].
  cbn [stripTrailingSlash]. destruct s as [|c' s'].
  - destruct (Ascii.eqb_spec c "/") as [->|Hc]; [|reflexivity].
    exfalso. apply (H ""%string). reflexivity.
  - rewrite IH; [reflexivity|].
    intros t Ht. apply (H (String c t)). cbn [String.append]. now rewrite Ht.
Qed.

Lemma postsTo_configured cfg :
  postsTo cfg (stripTrailingSlash (backendApiUrl0 cfg)).
Proof.
  intros w k to subj bdy. split.
  - intros w' Hf Hn. unfold sendEmail, sendEmailTry. cbv zeta. rewrite Hf.
    unfold networkFailure. rewrite Hn. reflexivity.
  - intros e He. apply sendEmail_caught.
    unfold sendEmailTry. cbv zeta. rewrite He. reflexivity.
Qed.

Lemma postsTo_unique cfg u u' : postsTo cfg u -> postsTo cfg u' -> u' = u.
Proof.
  intros Hu Hu'.
  destruct (String.eqb_spec u' u) as [E|Hne]; [exact E|exfalso].
  set (w := {| fetch := fun _ a _ =>
                          if String.eqb a u then Throw (mkError "at u")
                          else Throw (mkError "elsewhere");
               now := fun _ => 0 |}).
  destruct (Hu w 0%nat ""%string ""%string ""%string) as [_ H1].
  destruct (Hu' w 0%nat ""%string ""%string ""%string) as [_ H2].
  specialize (H1 (mkError "at u")). specialize (H2 (mkError "elsewhere")).
  cbn [fetch w] in H1, H2. rewrite String.eqb_refl in H1.
  destruct (String.eqb_spec u' u) as [E|_]; [contradiction|].
  rewrite (H1 eq_refl) in H2. specialize (H2 eq_refl).
  discriminate H2.
Qed.

(** X7. The address sendEmail posts to, and the only one, is the configured
    Config.backend.apiUrl without one trailing slash: with a URL [u ++ "/"]
    the request goes to [u], a non-empty URL that does not end in a slash is
    used as it is, and a missing or empty apiUrl (or a missing
    Config.backend) gives the default "/api/send-email". Only one slash is
    dropped. *)
Theorem backend_url_without_trailing_slash cfg :
  (forall b u,
      Cfg.backend cfg = Some b -> Cfg.apiUrl b = Some (u ++ "/")%string ->
      postsTo cfg u /\ forall u', postsTo cfg u' -> u' = u) /\
  (forall b u,
      Cfg.backend cfg = Some b -> Cfg.apiUrl b = Some u -> u <> ""%string ->
      (forall t, u <> (t ++ "/")%string) ->
      postsTo cfg u /\ forall u', postsTo cfg u' -> u' = u) /\
  ((Cfg.backend cfg = None \/
    exists b, Cfg.backend cfg = Some b /\
              (Cfg.apiUrl b = None \/ Cfg.apiUrl b = Some ""%string)) ->
   postsTo cfg "/api/send-email" /\
   forall u', postsTo cfg u' -> u' = "/api/send-email"%string).
Proof.
  assert (H : forall u, stripTrailingSlash (backendApiUrl0 cfg) = u ->
                        postsTo cfg u /\ forall u', postsTo cfg u' -> u' = u).
  { intros u <-. split; [apply postsTo_configured|].
    intros u'. apply postsTo_unique, postsTo_configured. }
  split; [|split].
  - intros b u Hb Hu. apply H. unfold backendApiUrl0. rewrite Hb, Hu.
    destruct (String.eqb_spec (u ++ "/")%string "") as [E|_].
    + destruct u; discriminate E.
    + apply stripTrailingSlash_slash.
  - intros b u Hb Hu Hne Hns. apply H. unfold backendApiUrl0. rewrite Hb, Hu.
    destruct (String.eqb_spec u "") as [E|_]; [contradiction|].
    apply stripTrailingSlash_other. exact Hns.
  - intros [Hb | (b & Hb & [Hu | Hu])]; apply H; unfold backendApiUrl0;
      rewrite Hb; try rewrite Hu; reflexivity.
Qed.

Lemma backend_url_example :
  postsTo
    {| Cfg.email := Cfg.email Config;
       Cfg.backend := Some {| Cfg.apiUrl := Some "https://api.x.io/send/" |} |}
    "https://api.x.io/send" /\
  postsTo {| Cfg.email := Cfg.email Config; Cfg.backend := None |}
    "/api/send-email".
Proof.
  split.
  - destruct (backend_url_without_trailing_slash
                {| Cfg.email := Cfg.email Config;
                   Cfg.backend :=
                     Some {| Cfg.apiUrl := Some "https://api.x.io/send/" |} |})
      as (H1 & _ & _).
    apply (H1 {| Cfg.apiUrl := Some "https://api.x.io/send/" |}
              "https://api.x.io/send"%string eq_refl eq_refl).
  - destruct (backend_url_without_trailing_slash
                {| Cfg.email := Cfg.email Config; Cfg.backend := None |})
      as (_ & _ & H3).
    apply H3. left. reflexivity.
Defined.

(* ------------------------------------------------------------------------- *)
(** ** The matcher decides the language of a pattern *)

Lemma nullable_lang r : RegExp.nullable r = true <-> RegExp.lang r [].
Proof.
  split.
  - induction r; cbn; intros H; try discriminate.
    + constructor.
    + apply andb_prop in H. destruct H as [H1 H2].
      change (@nil ascii) with (@nil ascii ++ []). constructor; auto.
    + apply orb_prop in H. destruct H as [H|H];
        [apply RegExp.lang_Alt_l|apply RegExp.lang_Alt_r]; auto.
    + constructor.
  - intros H. remember [] as s eqn:Es.
    induction H; cbn; try reflexivity; try discriminate.
    + apply app_eq_nil in Es. destruct Es as [-> ->].
      rewrite IHlang1, IHlang2; reflexivity.
    + rewrite IHlang by assumption. reflexivity.
    + rewrite IHlang by assumption. apply orb_true_r.
Qed.

Lemma deriv_sound c r : forall s,
  RegExp.lang (RegExp.deriv c r) s -> RegExp.lang r (c :: s).
Proof.
  induction r; cbn [RegExp.deriv]; intros s H.
  - inversion H.
  - inversion H.
  - destruct (p c) eqn:E; inversion H; subst. now constructor.
  - destruct (RegExp.nullable r1) eqn:N.
    + inversion H; subst.
      * match goal with
        | Hs : RegExp.lang (RegExp.Seq _ _) _ |- _ => inversion Hs; subst
        end.
        change (c :: s1 ++ s2) with ((c :: s1) ++ s2). constructor; auto.
      * change (c :: s) with ([] ++ c :: s). constructor; auto.
        now apply nullable_lang.
    + inversion H; subst.
      change (c :: s1 ++ s2) with ((c :: s1) ++ s2). constructor; auto.
  - inversion H; subst;
      [apply RegExp.lang_Alt_l|apply RegExp.lang_Alt_r]; auto.
  - inversion H; subst.
    change (c :: s1 ++ s2) with ((c :: s1) ++ s2). constructor; auto.
Qed.

Lemma deriv_complete c r s :
  RegExp.lang r (c :: s) -> RegExp.lang (RegExp.deriv c r) s.
Proof.
  intros H. remember (c :: s) as cs eqn:E. revert s E.
  induction H; intros t E; cbn [RegExp.deriv]; try discriminate.
  - injection E as -> <-. rewrite H. constructor.
  - destruct s1 as [|c1 s1]; cbn in E.
    + subst s2. rewrite (proj2 (nullable_lang r1) H).
      apply RegExp.lang_Alt_r. now apply IHlang2.
    + injection E as -> <-.
      assert (Hs : RegExp.lang (RegExp.Seq (RegExp.deriv c r1) r2) (s1 ++ s2))
        by (constructor; [now apply IHlang1|assumption]).
      destruct (RegExp.nullable r1); [apply RegExp.lang_Alt_l|]; exact Hs.
  - apply RegExp.lang_Alt_l. now apply IHlang.
  - apply RegExp.lang_Alt_r. now apply IHlang.
  - destruct s1 as [|c1 s1]; cbn in E.
    + now apply IHlang2.
    + injection E as -> <-. constructor; [now apply IHlang1|assumption].
Qed.

Lemma matches_lang s : forall r,
  RegExp.matches r s = true <-> RegExp.lang r s.
Proof.
  induction s as [|c s IH]; intros r; cbn [RegExp.matches].
  - apply nullable_lang.
  - rewrite IH. split; [apply deriv_sound|apply deriv_complete].
Qed.

Lemma lang_Seq_inv r1 r2 s :
  RegExp.lang (RegExp.Seq r1 r2) s ->
  exists s1 s2, s = s1 ++ s2 /\ RegExp.lang r1 s1 /\ RegExp.lang r2 s2.
Proof. intros H. inversion H; subst. eauto. Qed.

Lemma lang_Star_Class p s :
  RegExp.lang (RegExp.Star (RegExp.Class p)) s <->
  Forall (fun c => p c = true) s.
Proof.
  split.
  - intros H. remember (RegExp.Star (RegExp.Class p)) as r eqn:E.
    induction H; try discriminate.
    + constructor.
    + injection E as ->. inversion H; subst. cbn. constructor; auto.
  - induction 1 as [|c s Hc _ IH].
    + constructor.
    + change (c :: s) with ([c] ++ s). constructor; [now constructor|exact IH].
Qed.

Lemma lang_Plus_Class p s :
  RegExp.lang (RegExp.Plus (RegExp.Class p)) s <->
  s <> [] /\ Forall (fun c => p c = true) s.
Proof.
  unfold RegExp.Plus. split.
  - intros H. inversion H; subst.
    match goal with
    | Hc : RegExp.lang (RegExp.Class _) _ |- _ => inversion Hc; subst
    end.
    split; [discriminate|]. cbn. constructor; [assumption|].
    now apply lang_Star_Class.
  - intros [Hne Hall]. destruct s as [|c s]; [contradiction|].
    inversion Hall; subst.
    change (c :: s) with ([c] ++ s).
    constructor; [now constructor|now apply lang_Star_Class].
Qed.

Lemma lang_Class_eqb a s :
  RegExp.lang (RegExp.Class (Ascii.eqb a)) s <-> s = [a].
Proof.
  split.
  - intros H. inversion H; subst.
    match goal with Hc : Ascii.eqb _ _ = true |- _ =>
      apply Ascii.eqb_eq in Hc; now subst end.
  - intros ->. constructor. apply Ascii.eqb_refl.
Qed.

(* ------------------------------------------------------------------------- *)
(** ** Which addresses validateEmails accepts *)

(** X8. The pattern of validateEmails accepts an address exactly when it
    reads local@name.rest, with [local], [name] and [rest] non-empty and
    free of white space and of "@"; so an accepted address holds no white
    space and exactly one "@". *)
Theorem emailRegex_accepts email :
  (RegExp.test emailRegex email = true <->
   exists loc name rest,
     list_ascii_of_string email = loc ++ ["@"%char] ++ name ++ ["."%char] ++ rest /\
     loc <> [] /\ name <> [] /\ rest <> [] /\
     Forall (fun c => notSpaceNorAt c = true) loc /\
     Forall (fun c => notSpaceNorAt c = true) name /\
     Forall (fun c => notSpaceNorAt c = true) rest) /\
  (RegExp.test emailRegex email = true ->
   Forall (fun c => Str.isWhiteSpace c = false) (list_ascii_of_string email) /\
   count_occ ascii_dec (list_ascii_of_string email) "@"%char = 1%nat).
Proof.
  assert (Hiff :
    RegExp.test emailRegex email = true <->
    exists loc name rest,
      list_ascii_of_string email = loc ++ ["@"%char] ++ name ++ ["."%char] ++ rest /\
      loc <> [] /\ name <> [] /\ rest <> [] /\
      Forall (fun c => notSpaceNorAt c = true) loc /\
      Forall (fun c => notSpaceNorAt c = true) name /\
      Forall (fun c => notSpaceNorAt c = true) rest).
  { unfold RegExp.test. rewrite matches_lang. unfold emailRegex. split.
    - intros H.
      apply lang_Seq_inv in H. destruct H as (loc & s2 & -> & Hloc & H).
      apply lang_Seq_inv in H. destruct H as (at_ & s3 & -> & Hat & H).
      apply lang_Seq_inv in H. destruct H as (name & s4 & -> & Hname & H).
      apply lang_Seq_inv in H. destruct H as (dot & rest & -> & Hdot & Hrest).
      apply lang_Class_eqb in Hat. apply lang_Class_eqb in Hdot. subst.
      apply lang_Plus_Class in Hloc. apply lang_Plus_Class in Hname.
      apply lang_Plus_Class in Hrest.
      exists loc, name, rest. intuition.
    - intros (loc & name & rest & -> & N1 & N2 & N3 & F1 & F2 & F3).
      constructor; [apply lang_Plus_Class; split; assumption|].
      constructor; [apply lang_Class_eqb; reflexivity|].
      constructor; [apply lang_Plus_Class; split; assumption|].
      constructor; [apply lang_Class_eqb; reflexivity|].
      apply lang_Plus_Class; split; assumption. }
  split; [exact Hiff|].
  intros H. apply Hiff in H.
  destruct H as (loc & name & rest & -> & _ & _ & _ & F1 & F2 & F3).
  assert (Hws : forall l, Forall (fun c => notSpaceNorAt c = true) l ->
                          Forall (fun c => Str.isWhiteSpace c = false) l).
  { intros l Hl. eapply Forall_impl; [|exact Hl]. intros c Hc.
    unfold notSpaceNorAt in Hc. apply negb_true_iff, orb_false_iff in Hc.
    apply Hc. }
  assert (Hat : forall l, Forall (fun c => notSpaceNorAt c = true) l ->
                          count_occ ascii_dec l "@"%char = 0%nat).
  { intros l Hl. apply count_occ_not_In. intros Hin.
    rewrite Forall_forall in Hl. specialize (Hl _ Hin).
    unfold notSpaceNorAt in Hl. rewrite Ascii.eqb_refl, orb_true_r in Hl.
    discriminate. }
  split.
  - repeat (apply Forall_app; split); auto; repeat constructor.
  - rewrite !count_occ_app, (Hat loc F1), (Hat name F2), (Hat rest F3).
    reflexivity.
Qed.

Lemma emailRegex_accepts_example :
  RegExp.test emailRegex "a@x.io" = true /\
  count_occ ascii_dec (list_ascii_of_string "a@x.io") "@"%char = 1%nat.
Proof.
  assert (H : RegExp.test emailRegex "a@x.io" = true) by reflexivity.
  split; [exact H|].
  destruct (emailRegex_accepts "a@x.io") as [_ Hcons].
  destruct (Hcons H) as [_ Hone]. exact Hone.
Defined.

(* ------------------------------------------------------------------------- *)
(** ** validateEmails: the two lists and the counts *)

Lemma validateEach_spec emails : forall index valid invalid,
  validateEach index emails valid invalid =
  (valid ++ filter accepted emails,
   invalid ++ map (fun ke => invalidAt (fst ke) (snd ke))
                  (filter (fun ke => negb (accepted (snd ke)))
                          (combine (seq index (List.length emails)) emails))).
Proof.
  induction emails as [|e emails IH]; intros index valid invalid.
  - cbn. now rewrite !app_nil_r.
  - cbn [validateEach filter List.length seq combine snd].
    change (RegExp.test emailRegex e) with (accepted e).
    destruct (accepted e); cbn [negb]; rewrite IH.
    + now rewrite <- app_assoc.
    + cbn [map fst snd]. now rewrite <- app_assoc.
Qed.

Lemma existsb_eqb_In v l : existsb (String.eqb v) l = true <-> In v l.
Proof.
  rewrite existsb_exists. split.
  - intros (x & Hx & E). apply String.eqb_eq in E. now subst.
  - intros H. exists v. split; [exact H|apply String.eqb_refl].
Qed.

Lemma setFrom_app seen l1 l2 :
  setFrom seen (l1 ++ l2) = setFrom (setFrom seen l1) l2.
Proof. revert seen. induction l1 as [|v l1 IH]; intros seen; cbn; auto. Qed.

Lemma setFrom_In l : forall seen x,
  In x (setFrom seen l) <-> In x seen \/ In x l.
Proof.
  induction l as [|v l IH]; intros seen x; cbn [setFrom In].
  - tauto.
  - rewrite IH. destruct (existsb (String.eqb v) seen) eqn:E.
    + apply existsb_eqb_In in E. split; [tauto|].
      intros [H|[<-|H]]; auto.
    + rewrite in_app_iff. cbn [In]. tauto.
Qed.

Lemma setFrom_NoDup l : forall seen, NoDup seen -> NoDup (setFrom seen l).
Proof.
  induction l as [|v l IH]; intros seen Hnd; cbn [setFrom]; [exact Hnd|].
  apply IH. destruct (existsb (String.eqb v) seen) eqn:E; [exact Hnd|].
  apply NoDup_app; [exact Hnd|repeat constructor; cbn; tauto|].
  intros x Hx [<-|[]].
  apply existsb_eqb_In in Hx. congruence.
Qed.

(** The set keeps what it has, in place, and appends the new values. *)
Lemma setFrom_seen l : forall seen,
  setFrom seen l =
  seen ++ filter (fun x => negb (existsb (String.eqb x) seen)) (setFrom [] l).
Proof.
  induction l as [|v l IH] using rev_ind; intros seen.
  - cbn. now rewrite app_nil_r.
  - rewrite !setFrom_app. cbn [setFrom].
    rewrite (IH seen).
    set (S0 := setFrom [] l).
    set (fresh := fun x => negb (existsb (String.eqb x) seen)).
    destruct (existsb (String.eqb v) S0) eqn:E0.
    + assert (E : existsb (String.eqb v) (seen ++ filter fresh S0) = true).
      { apply existsb_eqb_In. apply existsb_eqb_In in E0. apply in_app_iff.
        destruct (existsb (String.eqb v) seen) eqn:Es.
        - left. now apply existsb_eqb_In.
        - right. apply filter_In. split; [exact E0|]. unfold fresh.
          now rewrite Es. }
      rewrite E. reflexivity.
    + rewrite filter_app. cbn [filter].
      assert (Hv : fresh v = negb (existsb (String.eqb v) seen)) by reflexivity.
      rewrite Hv. clear Hv.
      destruct (existsb (String.eqb v) seen) eqn:Es; cbn [negb].
      * assert (E : existsb (String.eqb v) (seen ++ filter fresh S0) = true).
        { apply existsb_eqb_In, in_app_iff. left. now apply existsb_eqb_In. }
        rewrite E, app_nil_r. reflexivity.
      * assert (E : existsb (String.eqb v) (seen ++ filter fresh S0) = false).
        { apply not_true_is_false. intros H. apply existsb_eqb_In in H.
          apply in_app_iff in H. destruct H as [H|H].
          - apply existsb_eqb_In in H. congruence.
          - apply filter_In in H. destruct H as [H _].
            apply existsb_eqb_In in H. congruence. }
        rewrite E, app_assoc. reflexivity.
Qed.

Lemma setFrom_NoDup_id l : NoDup l -> setFrom [] l = l.
Proof.
  induction l as [|v l IH] using rev_ind; intros Hnd; [reflexivity|].
  apply NoDup_remove in Hnd. rewrite app_nil_r in Hnd. destruct Hnd as [Hnd Hv].
  rewrite setFrom_app, (IH Hnd). cbn [setFrom].
  destruct (existsb (String.eqb v) l) eqn:E; [|reflexivity].
  apply existsb_eqb_In in E. contradiction.
Qed.

Lemma validateEmails_valid emails :
  Validation.valid (validateEmails emails) = setFrom [] (filter accepted emails).
Proof. unfold validateEmails. now rewrite validateEach_spec. Qed.

Lemma validateEmails_invalid emails :
  Validation.invalid (validateEmails emails) =
  map (fun ke => invalidAt (fst ke) (snd ke))
      (filter (fun ke => negb (accepted (snd ke))) (indexed emails)).
Proof. unfold validateEmails, indexed. now rewrite validateEach_spec. Qed.

Lemma valid_NoDup emails : NoDup (Validation.valid (validateEmails emails)).
Proof. rewrite validateEmails_valid. apply setFrom_NoDup. constructor. Qed.

Lemma valid_In emails email :
  In email (Validation.valid (validateEmails emails)) <->
  In email emails /\ RegExp.test emailRegex email = true.
Proof.
  rewrite validateEmails_valid, setFrom_In, filter_In. cbn [In].
  unfold accepted. tauto.
Qed.

Lemma validCount_length emails :
  Validation.validCount (validateEmails emails)
  = Z.of_nat (List.length (Validation.valid (validateEmails emails))).
Proof. unfold validateEmails. rewrite validateEach_spec. reflexivity. Qed.

Lemma invalidCount_length emails :
  Validation.invalidCount (validateEmails emails)
  = Z.of_nat (List.length (Validation.invalid (validateEmails emails))).
Proof. unfold validateEmails. rewrite validateEach_spec. reflexivity. Qed.

Lemma invalid_emails emails :
  map Invalid.email (Validation.invalid (validateEmails emails))
  = filter (fun e => negb (RegExp.test emailRegex e)) emails.
Proof.
  rewrite validateEmails_invalid.
  unfold indexed. generalize 0%nat.
  induction emails as [|e emails IH]; intros a; [reflexivity|].
  cbn [List.length seq combine filter snd]. unfold accepted at 1.
  destruct (RegExp.test emailRegex e); cbn [negb map].
  - apply IH.
  - cbn [fst snd invalidAt Invalid.email]. f_equal. apply IH.
Qed.

(** X9. The valid list of validateEmails holds no address twice; an address
    is in it exactly when it occurs in the input and the pattern accepts it;
    validCount is its length. When the accepted addresses of the input are
    pairwise distinct, the valid list is those addresses in the order of the
    input. *)
Theorem validateEmails_valid_distinct emails :
  let v := validateEmails emails in
  NoDup (Validation.valid v) /\
  (forall email,
      In email (Validation.valid v) <->
      In email emails /\ RegExp.test emailRegex email = true) /\
  Validation.validCount v = Z.of_nat (List.length (Validation.valid v)) /\
  (NoDup (filter accepted emails) ->
   Validation.valid v = filter accepted emails).
Proof.
  cbv zeta. split; [|split; [|split]].
  - apply valid_NoDup.
  - apply valid_In.
  - apply validCount_length.
  - rewrite validateEmails_valid. apply setFrom_NoDup_id.
Qed.

Lemma validateEmails_valid_distinct_example :
  NoDup (filter accepted ["b@x.io"; "nope"; "a@x.io"]) /\
  Validation.valid (validateEmails ["b@x.io"; "nope"; "a@x.io"])
  = ["b@x.io"; "a@x.io"].
Proof.
  assert (Hnd : NoDup (filter accepted ["b@x.io"; "nope"; "a@x.io"])).
  { vm_compute. repeat constructor; cbn; intuition discriminate. }
  split; [exact Hnd|].
  destruct (validateEmails_valid_distinct ["b@x.io"; "nope"; "a@x.io"])
    as (_ & _ & _ & Hid).
  rewrite (Hid Hnd). reflexivity.
Defined.

(** X10. Later rows never disturb earlier ones: the valid list of an input
    followed by more rows is the valid list of the input, followed by the
    valid addresses of the further rows that it does not hold yet, in their
    order. So the valid list is in the order of first occurrence. *)
Theorem validateEmails_valid_append emails more :
  Validation.valid (validateEmails (emails ++ more)) =
  Validation.valid (validateEmails emails)
    ++ filter (fun x => negb (existsb (String.eqb x)
                                (Validation.valid (validateEmails emails))))
              (Validation.valid (validateEmails more)).
Proof.
  rewrite !validateEmails_valid, filter_app, setFrom_app.
  apply setFrom_seen.
Qed.

Lemma In_combine_seq {A} (l : list A) : forall a k e,
  In (k, e) (combine (seq a (List.length l)) l) <->
  (a <= k)%nat /\ nth_error l (k - a) = Some e.
Proof.
  induction l as [|x l IH]; intros a k e; cbn [List.length seq combine In].
  - split; [tauto|]. intros [_ H]. destruct (k - a)%nat; discriminate.
  - rewrite IH. split.
    + intros [H|[H1 H2]].
      * injection H as <- <-. rewrite Nat.sub_diag. split; [lia|reflexivity].
      * split; [lia|]. replace (k - a)%nat with (S (k - S a)) by lia. exact H2.
    + intros [H1 H2]. destruct (Nat.eq_dec k a) as [->|Hne].
      * rewrite Nat.sub_diag in H2. injection H2 as <-. now left.
      * right. split; [lia|].
        replace (k - a)%nat with (S (k - S a)) in H2 by lia. exact H2.
Qed.

Lemma In_indexed {A} (l : list A) k e :
  In (k, e) (indexed l) <-> nth_error l k = Some e.
Proof.
  unfold indexed. rewrite In_combine_seq, Nat.sub_0_r.
  split; [tauto|]. intros H. split; [lia|exact H].
Qed.

Lemma combine_seq_sorted {A} (l : list A) : forall a,
  StronglySorted (fun x y : nat * A => (fst x < fst y)%nat)
                 (combine (seq a (List.length l)) l).
Proof.
  induction l as [|x l IH]; intros a; cbn [List.length seq combine].
  - constructor.
  - constructor; [apply IH|].
    apply Forall_forall. intros [k e] Hin. apply In_combine_seq in Hin.
    cbn [fst]. lia.
Qed.

Lemma StronglySorted_filter {A} (R : A -> A -> Prop) (p : A -> bool) l :
  StronglySorted R l -> StronglySorted R (filter p l).
Proof.
  induction 1 as [|x l Hs IH Hx]; cbn [filter]; [constructor|].
  destruct (p x); [|exact IH].
  constructor; [exact IH|].
  apply Forall_forall. intros y Hy. apply filter_In in Hy.
  rewrite Forall_forall in Hx. apply Hx. apply Hy.
Qed.

Lemma StronglySorted_map {A B} (R : A -> A -> Prop) (Q : B -> B -> Prop)
  (f : A -> B) l :
  (forall x y, R x y -> Q (f x) (f y)) ->
  StronglySorted R l -> StronglySorted Q (map f l).
Proof.
  intros Hf. induction 1 as [|x l Hs IH Hx]; cbn [map]; constructor; auto.
  apply Forall_forall. intros y Hy. apply in_map_iff in Hy.
  destruct Hy as (z & <- & Hz). apply Hf.
  rewrite Forall_forall in Hx. now apply Hx.
Qed.

Lemma invalid_In emails x :
  In x (Validation.invalid (validateEmails emails)) <->
  exists k,
    nth_error emails k = Some (Invalid.email x) /\
    RegExp.test emailRegex (Invalid.email x) = false /\
    Invalid.row x = Z.of_nat k + 2 /\
    Invalid.reason x = "Invalid email format"%string.
Proof.
  rewrite validateEmails_invalid, in_map_iff. split.
  - intros ([k e] & <- & Hin). apply filter_In in Hin.
    destruct Hin as [Hin Hrej]. apply In_indexed in Hin.
    cbn [fst snd] in *. exists k.
    cbn [invalidAt Invalid.email Invalid.row Invalid.reason].
    apply negb_true_iff in Hrej. repeat split; assumption.
  - intros (k & Hk & Hrej & Hrow & Hreason).
    exists (k, Invalid.email x). split.
    + destruct x as [e r rs]. cbn in *. unfold invalidAt. cbn. congruence.
    + apply filter_In. split; [now apply In_indexed|].
      cbn [snd]. unfold accepted. now rewrite Hrej.
Qed.

(** X11. The invalid list of validateEmails holds one entry for every
    input the pattern rejects (duplicates included), in the order of the
    input; the entry of the input at position [k] (from 0) reports row
    [k + 2] and the reason "Invalid email format"; the rows grow strictly
    along the list; invalidCount is its length. *)
Theorem validateEmails_invalid_rows emails :
  let v := validateEmails emails in
  map Invalid.email (Validation.invalid v)
    = filter (fun e => negb (RegExp.test emailRegex e)) emails /\
  (forall x,
      In x (Validation.invalid v) <->
      exists k,
        nth_error emails k = Some (Invalid.email x) /\
        RegExp.test emailRegex (Invalid.email x) = false /\
        Invalid.row x = Z.of_nat k + 2 /\
        Invalid.reason x = "Invalid email format"%string) /\
  StronglySorted Z.lt (map Invalid.row (Validation.invalid v)) /\
  Validation.invalidCount v = Z.of_nat (List.length (Validation.invalid v)).
Proof.
  cbv zeta. split; [apply invalid_emails|].
  split; [apply invalid_In|].
  rewrite validateEmails_invalid. split.
  - rewrite map_map.
    apply (StronglySorted_map (fun x y : nat * string => (fst x < fst y)%nat)).
    + intros x y Hxy. cbn [invalidAt Invalid.row]. lia.
    + apply StronglySorted_filter. apply combine_seq_sorted.
  - rewrite <- validateEmails_invalid. apply invalidCount_length.
Qed.

Lemma validateEmails_invalid_rows_example :
  exists x,
    In x (Validation.invalid (validateEmails ["a@x.io"; "nope"])) /\
    Invalid.row x = 3.
Proof.
  destruct (validateEmails_invalid_rows ["a@x.io"; "nope"]) as (_ & Hin & _).
  exists (invalidAt 1 "nope"). split; [|reflexivity].
  apply Hin. exists 1%nat. repeat split.
Defined.

Lemma setFrom_length l :
  (List.length (setFrom [] l) <= List.length l)%nat /\
  (List.length (setFrom [] l) = List.length l <-> NoDup l).
Proof.
  assert (Hnd : NoDup (setFrom [] l)) by (apply setFrom_NoDup; constructor).
  assert (Hincl : incl (setFrom [] l) l).
  { intros x Hx. apply setFrom_In in Hx. destruct Hx as [[]|Hx]. exact Hx. }
  split; [apply NoDup_incl_length; assumption|].
  split.
  - intros E. apply (NoDup_incl_NoDup Hnd); [lia|exact Hincl].
  - intros H. now rewrite setFrom_NoDup_id.
Qed.

Lemma filter_none {A} (f : A -> bool) (l : list A) :
  (forall x, In x l -> f x = false) -> filter f l = [].
Proof.
  induction l as [|x l IH]; intros H; cbn [filter]; [reflexivity|].
  rewrite (H x (or_introl eq_refl)). apply IH.
  intros y Hy. apply H. now right.
Qed.

Lemma validCount_zero emails :
  Validation.validCount (validateEmails emails) = 0 <->
  forall e, In e emails -> RegExp.test emailRegex e = false.
Proof.
  rewrite validCount_length. split.
  - intros H0 e He. destruct (RegExp.test emailRegex e) eqn:E; [|reflexivity].
    assert (Hin : In e (Validation.valid (validateEmails emails)))
      by (apply valid_In; split; assumption).
    destruct (Validation.valid (validateEmails emails)); [contradiction|].
    cbn [List.length] in H0. lia.
  - intros Hrej.
    assert (E : filter accepted emails = []).
    { apply filter_none. intros e He. apply Hrej. exact He. }
    rewrite validateEmails_valid, E. reflexivity.
Qed.

(** X12. The counts of validateEmails: total is the number of inputs;
    invalidCount and the number of accepted inputs (duplicates counted) add
    up to total; validCount + invalidCount never exceeds total and equals it
    exactly when no accepted address occurs twice; validCount is 0 exactly
    when the pattern rejects every input. *)
Theorem validateEmails_counts emails :
  let v := validateEmails emails in
  Validation.total v = Z.of_nat (List.length emails) /\
  Validation.invalidCount v + Z.of_nat (List.length (filter accepted emails))
    = Validation.total v /\
  Validation.validCount v + Validation.invalidCount v <= Validation.total v /\
  (Validation.validCount v + Validation.invalidCount v = Validation.total v
   <-> NoDup (filter accepted emails)) /\
  (Validation.validCount v = 0 <->
   forall e, In e emails -> RegExp.test emailRegex e = false).
Proof.
  cbv zeta.
  pose proof (validateEmails_valid emails) as Hvalid.
  pose proof (validateEmails_invalid emails) as Hinvalid.
  assert (Hvc : Validation.validCount (validateEmails emails)
                = Z.of_nat (List.length (setFrom [] (filter accepted emails)))).
  { unfold validateEmails. rewrite validateEach_spec. reflexivity. }
  assert (Hic : Validation.invalidCount (validateEmails emails)
                = Z.of_nat (List.length
                    (filter (fun e => negb (accepted e)) emails))).
  { rewrite invalidCount_length, <- (length_map Invalid.email),
      invalid_emails. reflexivity. }
  assert (Htot : Validation.total (validateEmails emails)
                 = Z.of_nat (List.length emails)).
  { unfold validateEmails. rewrite validateEach_spec. reflexivity. }
  pose proof (filter_length_split accepted emails) as Hsplit.
  destruct (setFrom_length (filter accepted emails)) as [Hle Heq].
  pose proof (validCount_zero emails) as Hzero.
  rewrite Hvc, Hic, Htot. rewrite Hvc in Hzero.
  split; [reflexivity|]. split; [lia|]. split; [lia|]. split.
  - rewrite <- Heq. lia.
  - exact Hzero.
Qed.

Lemma validateEmails_counts_example :
  NoDup (filter accepted ["a@x.io"; "nope"; "b@x.io"]) /\
  Validation.validCount (validateEmails ["a@x.io"; "nope"; "b@x.io"])
  + Validation.invalidCount (validateEmails ["a@x.io"; "nope"; "b@x.io"])
  = Validation.total (validateEmails ["a@x.io"; "nope"; "b@x.io"]).
Proof.
  assert (Hnd : NoDup (filter accepted ["a@x.io"; "nope"; "b@x.io"])).
  { vm_compute. repeat constructor; cbn; intuition discriminate. }
  split; [exact Hnd|].
  destruct (validateEmails_counts ["a@x.io"; "nope"; "b@x.io"])
    as (_ & _ & _ & Hiff & _).
  apply Hiff. exact Hnd.
Defined.

Lemma filter_all_id {A} (f : A -> bool) (l : list A) :
  (forall x, In x l -> f x = true) -> filter f l = l.
Proof. intros H. apply (filter_all f l H). Qed.

(** X13. Validating a valid list again changes nothing: every address of
    the valid list is accepted, none is reported invalid, and the valid list
    comes back as it is, with total = validCount = its length. *)
Theorem validateEmails_idempotent emails :
  let v := validateEmails emails in
  validateEmails (Validation.valid v) =
  {| Validation.valid := Validation.valid v;
     Validation.invalid := [];
     Validation.total := Validation.validCount v;
     Validation.validCount := Validation.validCount v;
     Validation.invalidCount := 0 |}.
Proof.
  cbv zeta.
  pose proof (valid_NoDup emails) as Hnd.
  pose proof (valid_In emails) as Hin.
  pose proof (validCount_length emails) as Hvc.
  set (V := Validation.valid (validateEmails emails)) in *.
  assert (Hacc : filter accepted V = V).
  { apply filter_all_id. intros e He. apply Hin in He. apply He. }
  assert (Hrej : filter (fun ke : nat * string => negb (accepted (snd ke)))
                        (combine (seq 0 (List.length V)) V) = []).
  { apply filter_none. intros [k e] Hke. apply In_combine_seq in Hke.
    destruct Hke as [_ Hke]. apply nth_error_In, Hin in Hke.
    cbn [snd]. unfold accepted. now rewrite (proj2 Hke). }
  unfold validateEmails at 1. rewrite validateEach_spec, Hacc, Hrej.
  cbn [app map List.length]. rewrite (setFrom_NoDup_id V Hnd), Hvc.
  reflexivity.
Qed.

(** X14. The list the application sends to is the valid list of
    validateEmails. A run over it (batch size at least 1) calls sendEmail
    once for each of its addresses, in its order: no address is sent to
    twice, every address sent to is accepted by the pattern and occurs in
    the validated column, and the total of the run is validCount. *)
Theorem validated_list_is_sent_once
  cfg w emails subject body progressCallback :
  1 <= batchSize cfg ->
  let v := validateEmails emails in
  exists r s,
    sendBulkEmails cfg w (Validation.valid v) subject body progressCallback
      = Resolved r s /\
    map snd (sendsOf (trace s)) = Validation.valid v /\
    NoDup (map snd (sendsOf (trace s))) /\
    Forall (fun to => RegExp.test emailRegex to = true /\ In to emails)
           (map snd (sendsOf (trace s))) /\
    RunResult.total r = Validation.validCount v /\
    RunResult.successCount r + RunResult.failureCount r
      = Validation.validCount v.
Proof.
  intros Hb v. subst v.
  pose proof (valid_NoDup emails) as Hnd.
  pose proof (valid_In emails) as Hin.
  pose proof (validCount_length emails) as Hvc.
  set (V := Validation.valid (validateEmails emails)) in *.
  destruct (final_sends cfg w V subject body progressCallback Hb) as [Hsent _].
  destruct (final_counts cfg w V subject body progressCallback Hb) as [Htot Hsum].
  eexists _, _. split; [apply sendBulkEmails_closed; exact Hb|].
  rewrite Hsent, Hvc.
  split; [reflexivity|]. split; [exact Hnd|]. split; [|split].
  - apply Forall_forall. intros to Hto. apply Hin in Hto. tauto.
  - exact Htot.
  - rewrite Hsum. exact Htot.
Qed.

Lemma validated_list_is_sent_once_example :
  1 <= batchSize Config /\
  exists r s,
    sendBulkEmails Config worldAllOk
      (Validation.valid (validateEmails ["a@x.io"; "nope"; "a@x.io"; "b@x.io"]))
      "Hello" "<p>Hello</p>" true = Resolved r s /\
    map snd (sendsOf (trace s)) = ["a@x.io"; "b@x.io"].
Proof.
  assert (Hb : 1 <= batchSize Config) by (vm_compute; discriminate).
  split; [exact Hb|].
  destruct (validated_list_is_sent_once Config worldAllOk
              ["a@x.io"; "nope"; "a@x.io"; "b@x.io"]
              "Hello" "<p>Hello</p>" true Hb)
    as (r & s & Hrun & Hsent & _).
  exists r, s. split; [exact Hrun|]. rewrite Hsent. reflexivity.
Defined.

(* ------------------------------------------------------------------------- *)
(** ** ExcelParser: columns *)

Lemma trimStart_head l :
  match Str.trimStart l with
  | [] => True
  | c :: _ => Str.isWhiteSpace c = false
  end.
Proof.
  induction l as [|x l IH]; cbn [Str.trimStart]; [exact I|].
  destruct (Str.isWhiteSpace x) eqn:E; [exact IH|exact E].
Qed.

Lemma trimStart_snoc m c :
  Str.isWhiteSpace c = false ->
  exists m', Str.trimStart (m ++ [c]) = m' ++ [c].
Proof.
  intros Hc. induction m as [|x m IH]; cbn [app Str.trimStart].
  - rewrite Hc. now exists [].
  - destruct (Str.isWhiteSpace x); [exact IH|now exists (x :: m)].
Qed.

Lemma trim_trimmed s : trimmed (Str.trim s).
Proof.
  unfold trimmed, Str.trim. rewrite list_ascii_of_string_of_list_ascii.
  pose proof (trimStart_head (list_ascii_of_string s)) as Hhead.
  destruct (Str.trimStart (list_ascii_of_string s)) as [|c r]; [exact I|].
  unfold Str.trimEnd. cbn [rev].
  destruct (trimStart_snoc (rev r) c Hhead) as [m' Hm'].
  pose proof (trimStart_head (rev r ++ [c])) as Hhead'.
  rewrite Hm' in *. rewrite rev_app_distr. cbn [rev app].
  split; [exact Hhead|].
  destruct m' as [|d m'']; [exact Hhead|].
  cbn [rev app] in *. now rewrite last_last.
Qed.

Lemma columnCell_trimmed toString k row :
  Forall trimmed (columnCell toString k row) /\
  (List.length (columnCell toString k row) <= 1)%nat.
Proof.
  unfold columnCell. destruct (nth_error row k) as [v|]; [|split; [constructor|cbn; lia]].
  destruct v as [| |b|q|s|xs|fs|t]; cbn [cellText];
    try destruct (String.eqb s "");
    (split; [repeat constructor; try apply trim_trimmed|cbn; lia]).
Qed.

Lemma flat_map_columnCell toString k dataRows :
  Forall trimmed (flat_map (columnCell toString k) dataRows) /\
  (List.length (flat_map (columnCell toString k) dataRows)
   <= List.length dataRows)%nat.
Proof.
  induction dataRows as [|row dataRows [IH1 IH2]]; cbn [flat_map List.length].
  - split; [constructor|lia].
  - destruct (columnCell_trimmed toString k row) as [H1 H2].
    split; [apply Forall_app; split; assumption|].
    rewrite length_app. lia.
Qed.

(** X15. getColumnData throws exactly when a column name is given and the
    current sheet has no rows at all (a TypeError, on the missing header
    row). Otherwise it returns a list: the empty list when no sheet data is
    loaded, when the name is empty, or when no header equals the name. *)
Theorem getColumnData_edges toString this columnName :
  ((exists e, getColumnData toString this columnName = Throw e) <->
   sheetData this = Some [] /\ columnName <> ""%string) /\
  (sheetData this = None -> getColumnData toString this columnName = Normal []) /\
  getColumnData toString this ""%string = Normal [] /\
  (forall headers dataRows,
      sheetData this = Some (headers :: dataRows) ->
      ~ In (VStr columnName) headers ->
      getColumnData toString this columnName = Normal []).
Proof.
  unfold getColumnData. split; [|split; [|split]].
  - destruct (sheetData this) as [[|headers dataRows]|].
    + destruct (String.eqb_spec columnName "") as [->|Hne].
      * split; [intros [e H]; discriminate|]. intros [_ H]. contradiction.
      * split; [intros _; split; [reflexivity|exact Hne]|]. intros _. eauto.
    + split; [|intros [H _]; discriminate].
      intros [e H]. destruct (String.eqb columnName "");
        [discriminate|]. destruct (findHeader columnName headers); discriminate.
    + split; [intros [e H]; discriminate|intros [H _]; discriminate].
  - intros ->. reflexivity.
  - destruct (sheetData this) as [[|headers dataRows]|]; reflexivity.
  - intros headers dataRows -> Hnot.
    destruct (String.eqb columnName ""); [reflexivity|].
    assert (Hnone : findHeader columnName headers = None).
    { induction headers as [|h headers IH]; [reflexivity|].
      cbn [findHeader].
      assert (IH' : findHeader columnName headers = None)
        by (apply IH; intros Hin; apply Hnot; now right).
      destruct h as [| |b|q|s|xs|fs|t]; rewrite ?IH'; try reflexivity.
      destruct (String.eqb_spec s columnName) as [->|_]; [|reflexivity].
      exfalso. apply Hnot. now left. }
    now rewrite Hnone.
Qed.

Lemma getColumnData_edges_example :
  exists e,
    getColumnData (fun _ => "1"%string)
      {| workbook := None; currentSheet := Some "Sheet1"%string;
         sheetData := Some [] |}
      "Email"
    = Throw e.
Proof.
  destruct (getColumnData_edges (fun _ => "1"%string)
              {| workbook := None; currentSheet := Some "Sheet1"%string;
                 sheetData := Some [] |} "Email") as [[_ Hthrow] _].
  apply Hthrow. split; [reflexivity|discriminate].
Defined.

(** X16. Every entry getColumnData returns has no white space at either
    end, and there are at most as many entries as the sheet has rows under
    its header row (cells that are missing, null or the empty string are
    skipped). *)
Theorem getColumnData_entries toString this columnName data sheet :
  getColumnData toString this columnName = Normal data ->
  sheetData this = Some sheet ->
  Forall trimmed data /\
  (List.length data <= List.length sheet - 1)%nat.
Proof.
  unfold getColumnData. intros H Hs. rewrite Hs in H. clear Hs.
  destruct (String.eqb columnName "").
  { injection H as <-. split; [constructor|cbn; lia]. }
  destruct sheet as [|headers dataRows]; [discriminate|].
  destruct (findHeader columnName headers) as [k|].
  - injection H as <-.
    destruct (flat_map_columnCell toString k dataRows) as [H1 H2].
    split; [exact H1|]. cbn [List.length]. lia.
  - injection H as <-. split; [constructor|cbn; lia].
Qed.

Lemma getColumnData_entries_example :
  let sheet := [[VStr "Email"]; [VStr " a@x.io "]; [VStr ""]; [VNum 7]] in
  let this := {| workbook := None; currentSheet := Some "S"%string;
                 sheetData := Some sheet |} in
  getColumnData (fun _ => "7"%string) this "Email" = Normal ["a@x.io"; "7"]%string /\
  Forall trimmed ["a@x.io"; "7"]%string.
Proof.
  cbv zeta.
  assert (H : getColumnData (fun _ => "7"%string)
                {| workbook := None; currentSheet := Some "S"%string;
                   sheetData := Some [[VStr "Email"]; [VStr " a@x.io "];
                                      [VStr ""]; [VNum 7]] |} "Email"
              = Normal ["a@x.io"; "7"]%string) by reflexivity.
  split; [exact H|].
  apply (getColumnData_entries _ _ _ _ _ H eq_refl).
Defined.

Lemma findHeader_first c headers :
  In (VStr c) headers ->
  exists k,
    findHeader c headers = Some k /\
    nth_error headers k = Some (VStr c) /\
    (forall j, (j < k)%nat -> nth_error headers j <> Some (VStr c)).
Proof.
  induction headers as [|h headers IH]; intros Hin; [destruct Hin|].
  assert (Hstep :
    h <> VStr c -> In (VStr c) headers ->
    exists k,
      option_map S (findHeader c headers) = Some k /\
      nth_error (h :: headers) k = Some (VStr c) /\
      (forall j, (j < k)%nat -> nth_error (h :: headers) j <> Some (VStr c))).
  { intros Hne Hin'. destruct (IH Hin') as (k & Hk & Hnth & Hfirst).
    exists (S k). rewrite Hk. split; [reflexivity|]. split; [exact Hnth|].
    intros [|j] Hj; cbn [nth_error]; [congruence|]. apply Hfirst. lia. }
  cbn [findHeader].
  destruct h as [| |b|q|s|xs|fs|t];
    try (apply Hstep; [discriminate|destruct Hin as [E|H]; [discriminate|exact H]]).
  destruct (String.eqb_spec s c) as [->|Hne].
  - exists 0%nat. split; [reflexivity|]. split; [reflexivity|]. intros j Hj. lia.
  - apply Hstep; [congruence|]. destruct Hin as [E|H]; [congruence|exact H].
Qed.

(** X17. Every column getColumns offers comes from the header row and has a
    header that is truthy and not blank; and a text header it offers can be
    read: getColumnData with that name does not throw and returns the cells
    of the first column carrying that header. *)
Theorem getColumns_offers_readable_columns
  toString this headers dataRows :
  sheetData this = Some (headers :: dataRows) ->
  (forall h,
      In h (getColumns toString (sheetData this)) <->
      In h headers /\ truthy h = true /\
      Str.trim (cellText toString h) <> ""%string) /\
  (forall c,
      In (VStr c) (getColumns toString (sheetData this)) ->
      exists k,
        nth_error headers k = Some (VStr c) /\
        (forall j, (j < k)%nat -> nth_error headers j <> Some (VStr c)) /\
        getColumnData toString this c
        = Normal (flat_map (columnCell toString k) dataRows)).
Proof.
  intros Hs. rewrite Hs. cbn [getColumns].
  assert (Hin : forall h,
            In h (filter (isHeader toString) headers) <->
            In h headers /\ truthy h = true /\
            Str.trim (cellText toString h) <> ""%string).
  { intros h. rewrite filter_In. unfold isHeader.
    rewrite andb_true_iff, negb_true_iff.
    destruct (String.eqb_spec (Str.trim (cellText toString h)) "");
      intuition congruence. }
  split; [exact Hin|].
  intros c Hc. apply Hin in Hc. destruct Hc as (Hc & Ht & _).
  destruct (findHeader_first c headers Hc) as (k & Hk & Hnth & Hfirst).
  exists k. split; [exact Hnth|]. split; [exact Hfirst|].
  unfold getColumnData. rewrite Hs.
  destruct (String.eqb_spec c "") as [->|_]; [discriminate Ht|].
  now rewrite Hk.
Qed.

Lemma getColumns_example :
  let this := {| workbook := None; currentSheet := Some "S"%string;
                 sheetData := Some [[VStr "Name"; VStr "  "; VStr "Email"];
                                    [VStr "Ann"; VStr ""; VStr "a@x.io"]] |} in
  In (VStr "Email") (getColumns (fun _ => ""%string) (sheetData this)) /\
  exists k,
    getColumnData (fun _ => ""%string) this "Email"
    = Normal (flat_map (columnCell (fun _ => ""%string) k)
                       [[VStr "Ann"; VStr ""; VStr "a@x.io"]]).
Proof.
  cbv zeta.
  assert (Hin : In (VStr "Email")
                   (getColumns (fun _ => ""%string)
                      (Some [[VStr "Name"; VStr "  "; VStr "Email"];
                             [VStr "Ann"; VStr ""; VStr "a@x.io"]])))
    by (vm_compute; tauto).
  split; [exact Hin|].
  destruct (getColumns_offers_readable_columns (fun _ => ""%string)
              {| workbook := None; currentSheet := Some "S"%string;
                 sheetData := Some [[VStr "Name"; VStr "  "; VStr "Email"];
                                    [VStr "Ann"; VStr ""; VStr "a@x.io"]] |}
              _ _ eq_refl) as [_ Hread].
  destruct (Hread "Email"%string Hin) as (k & _ & _ & Hk).
  exists k. exact Hk.
Defined.

(** X18. The current sheet and its rows stay together: if sheetData holds
    the rows read under currentSheet in the workbook (or neither is set),
    this is still so after getSheetData, whatever it is asked for, and after
    reset. A call that returns null changes nothing, and it does so exactly
    when there is no workbook, the name is empty, or the name is neither a
    sheet of the workbook nor a name that Object.prototype defines. A call
    that returns rows makes the name current and never touches the workbook;
    the rows are those of the sheet of that name, and for a name that is no
    sheet but is defined by Object.prototype (constructor, toString, ...)
    they are the empty list. *)
Theorem getSheetData_keeps_sheet_and_rows_together this sheetName :
  sheetConsistent this ->
  let after := fst (getSheetData this sheetName) in
  let result := snd (getSheetData this sheetName) in
  sheetConsistent after /\
  sheetConsistent (resetParser this) /\
  workbook after = workbook this /\
  (result = None -> after = this) /\
  (result = None <->
   workbook this = None \/ sheetName = ""%string \/
   exists wb, workbook this = Some wb /\
              lookupSheet sheetName (Sheets wb) = None /\
              inherited sheetName = false) /\
  (forall data,
      result = Some data ->
      currentSheet after = Some sheetName /\ sheetData after = Some data /\
      exists wb,
        workbook this = Some wb /\
        (lookupSheet sheetName (Sheets wb) = Some data \/
         lookupSheet sheetName (Sheets wb) = None /\
         inherited sheetName = true /\ data = [])).
Proof.
  intros Hc. cbv zeta. unfold getSheetData.
  destruct this as [[wb|] cs sd]; cbn [workbook fst snd].
  2:{ split; [exact Hc|]. split; [exact I|]. split; [reflexivity|].
      split; [reflexivity|]. split; [|discriminate].
      split; [intros _; now left|reflexivity]. }
  destruct (String.eqb_spec sheetName "") as [->|Hne]; cbn [fst snd].
  { split; [exact Hc|]. split; [exact I|]. split; [reflexivity|].
    split; [reflexivity|]. split; [|discriminate].
    split; [intros _; right; now left|reflexivity]. }
  unfold worksheetRows.
  destruct (lookupSheet sheetName (Sheets wb)) as [data|] eqn:Hl.
  - cbn [fst snd workbook currentSheet sheetData].
    split.
    { unfold sheetConsistent. cbn [workbook currentSheet sheetData].
      exists wb. unfold worksheetRows. rewrite Hl. split; reflexivity. }
    split; [exact I|]. split; [reflexivity|]. split; [discriminate|].
    split.
    + split; [discriminate|].
      intros [H|[H|(wb' & Hwb & Hn & _)]];
        [discriminate H|contradiction|].
      injection Hwb as <-. congruence.
    + intros d Hd. injection Hd as <-. split; [reflexivity|].
      split; [reflexivity|]. exists wb. split; [reflexivity|now left].
  - destruct (inherited sheetName) eqn:Hi;
      cbn [fst snd workbook currentSheet sheetData].
    + split.
      { unfold sheetConsistent. cbn [workbook currentSheet sheetData].
        exists wb. unfold worksheetRows. rewrite Hl, Hi.
        split; reflexivity. }
      split; [exact I|]. split; [reflexivity|]. split; [discriminate|].
      split.
      * split; [discriminate|].
        intros [H|[H|(wb' & _ & _ & Hf)]];
          [discriminate H|contradiction|discriminate Hf].
      * intros d Hd. injection Hd as <-. split; [reflexivity|].
        split; [reflexivity|]. exists wb. split; [reflexivity|].
        right. split; [exact Hl|]. split; reflexivity.
    + split; [exact Hc|]. split; [exact I|]. split; [reflexivity|].
      split; [reflexivity|]. split; [|discriminate].
      split; [|reflexivity]. intros _. right. right. exists wb.
      repeat split. exact Hl.
Qed.

Lemma getSheetData_example :
  let wb := {| SheetNames := ["S"%string];
               Sheets := [("S"%string, [[VStr "Email"]; [VStr "a@x.io"]])] |} in
  let this := {| workbook := Some wb; currentSheet := None; sheetData := None |} in
  sheetConsistent this /\
  sheetConsistent (fst (getSheetData this "S")) /\
  fst (getSheetData this "T") = this /\
  snd (getSheetData this "constructor") = Some [].
Proof.
  cbv zeta.
  set (wb := {| SheetNames := ["S"%string];
                Sheets := [("S"%string, [[VStr "Email"]; [VStr "a@x.io"]])] |}).
  set (this := {| workbook := Some wb; currentSheet := None; sheetData := None |}).
  assert (Hc : sheetConsistent this) by exact I.
  split; [exact Hc|].
  destruct (getSheetData_keeps_sheet_and_rows_together this "S" Hc)
    as (H1 & _).
  destruct (getSheetData_keeps_sheet_and_rows_together this "T" Hc)
    as (_ & _ & _ & H2 & _).
  destruct (getSheetData_keeps_sheet_and_rows_together this "constructor" Hc)
    as (_ & _ & _ & _ & _ & H3).
  split; [exact H1|]. split; [apply H2; reflexivity|].
  destruct (snd (getSheetData this "constructor")) as [data|] eqn:E;
    [|discriminate E].
  destruct (H3 data eq_refl) as (_ & _ & wb' & _ & [Hown | (_ & _ & ->)]);
    [|reflexivity].
  injection E as <-. reflexivity.
Defined.

Lemma nth_error_flat_map_cells toString k dataRows : forall j e,
  nth_error (flat_map (columnCell toString k) dataRows) j = Some e ->
  exists j' row,
    nth_error dataRows j' = Some row /\
    columnCell toString k row = [e] /\
    j = List.length (flat_map (columnCell toString k) (firstn j' dataRows)).
Proof.
  induction dataRows as [|row dataRows IH]; intros j e H; cbn [flat_map] in H.
  - destruct j; discriminate.
  - destruct (columnCell_trimmed toString k row) as [_ Hlen].
    destruct (columnCell toString k row) as [|x [|y cells]] eqn:Hcell;
      cbn [List.length] in Hlen; try lia.
    + cbn [app] in H. destruct (IH j e H) as (j' & r & Hr & Hc & Hj).
      exists (S j'), r. split; [exact Hr|]. split; [exact Hc|].
      cbn [firstn flat_map]. rewrite Hcell. exact Hj.
    + cbn [app] in H. destruct j as [|j]; cbn [nth_error] in H.
      * injection H as <-. exists 0%nat, row. repeat split. exact Hcell.
      * destruct (IH j e H) as (j' & r & Hr & Hc & Hj).
        exists (S j'), r. split; [exact Hr|]. split; [exact Hc|].
        cbn [firstn flat_map]. rewrite Hcell. cbn [app List.length]. now rewrite Hj.
Qed.

Lemma flat_map_cells_full toString k l :
  List.length (flat_map (columnCell toString k) l) = List.length l <->
  Forall (fun row => columnCell toString k row <> []) l.
Proof.
  induction l as [|row l IH]; cbn [flat_map List.length].
  - split; [constructor|reflexivity].
  - destruct (columnCell_trimmed toString k row) as [_ Hlen].
    destruct (flat_map_columnCell toString k l) as [_ Hle].
    rewrite length_app.
    destruct (columnCell toString k row) as [|x [|y cells]] eqn:Hcell;
      cbn [List.length] in *; try lia.
    + split; [lia|]. intros H. inversion H; subst. congruence.
    + split.
      * intros H. constructor; [rewrite Hcell; discriminate|]. apply IH. lia.
      * intros H. inversion H; subst.
        assert (E : List.length (flat_map (columnCell toString k) l)
                    = List.length l) by now apply IH.
        lia.
Qed.

(** X19. Which sheet row an invalid entry reports. The data row at index
    [j] is row [j + 2] of the sheet (the header is row 1). For a column read
    by getColumnData and validated by validateEmails, the entry of a
    rejected cell of data row [j] reports row 2 + the number of cells of the
    column above it that were not skipped: never more than [j + 2], and
    exactly [j + 2] when no cell above it was blank. *)
Theorem invalid_rows_count_unskipped_cells
  toString this columnName headers dataRows k data x :
  sheetData this = Some (headers :: dataRows) ->
  findHeader columnName headers = Some k ->
  getColumnData toString this columnName = Normal data ->
  In x (Validation.invalid (validateEmails data)) ->
  exists j row,
    nth_error dataRows j = Some row /\
    columnCell toString k row = [Invalid.email x] /\
    Invalid.row x
    = 2 + Z.of_nat (List.length
                      (flat_map (columnCell toString k) (firstn j dataRows))) /\
    Invalid.row x <= Z.of_nat j + 2 /\
    (Invalid.row x = Z.of_nat j + 2 <->
     Forall (fun r => columnCell toString k r <> []) (firstn j dataRows)).
Proof.
  intros Hs Hk Hdata Hx.
  assert (Hd : data = flat_map (columnCell toString k) dataRows \/ data = []).
  { unfold getColumnData in Hdata. rewrite Hs, Hk in Hdata.
    destruct (String.eqb columnName ""); injection Hdata as <-; auto. }
  destruct Hd as [->| ->].
  2:{ apply invalid_In in Hx. destruct Hx as (p & Hp & _).
      destruct p; discriminate. }
  apply invalid_In in Hx. destruct Hx as (p & Hp & _ & Hrow & _).
  destruct (nth_error_flat_map_cells toString k dataRows p _ Hp)
    as (j & row & Hj & Hcell & Hcount).
  exists j, row. split; [exact Hj|]. split; [exact Hcell|].
  assert (Hjlt : (j < List.length dataRows)%nat)
    by (apply nth_error_Some; congruence).
  assert (Hfl : List.length (firstn j dataRows) = j)
    by (rewrite length_firstn; lia).
  destruct (flat_map_columnCell toString k (firstn j dataRows)) as [_ Hle].
  pose proof (flat_map_cells_full toString k (firstn j dataRows)) as Hfull.
  rewrite Hfl in Hle, Hfull. rewrite <- Hcount in *.
  split; [lia|]. split; [lia|].
  rewrite <- Hfull. lia.
Qed.

Lemma invalid_rows_example :
  let sheet := [[VStr "Email"]; [VStr ""]; [VStr "nope"]] in
  let this := {| workbook := None; currentSheet := Some "S"%string;
                 sheetData := Some sheet |} in
  In (invalidAt 0 "nope") (Validation.invalid (validateEmails ["nope"%string])) /\
  exists j row,
    nth_error [[VStr ""]; [VStr "nope"]] j = Some row /\
    Invalid.row (invalidAt 0 "nope") <= Z.of_nat j + 2.
Proof.
  cbv zeta.
  assert (Hin : In (invalidAt 0 "nope")
                   (Validation.invalid (validateEmails ["nope"%string])))
    by (left; reflexivity).
  split; [exact Hin|].
  destruct (invalid_rows_count_unskipped_cells (fun _ => ""%string)
              {| workbook := None; currentSheet := Some "S"%string;
                 sheetData := Some [[VStr "Email"]; [VStr ""]; [VStr "nope"]] |}
              "Email" [VStr "Email"] [[VStr ""]; [VStr "nope"]] 0
              ["nope"%string] (invalidAt 0 "nope")
              eq_refl eq_refl eq_refl Hin)
    as (j & row & Hj & _ & _ & Hle & _).
  exists j, row. split; assumption.
Defined.

(* ------------------------------------------------------------------------- *)
(** ** ReportGenerator.sanitizeFilename *)

Lemma startsWith_app p s : Chars.startsWith (p ++ s) p = true.
Proof.
  induction p as [|a p IH]; cbn; [reflexivity|].
  now rewrite Ascii.eqb_refl, IH.
Qed.

Lemma startsWith_prefix p : forall s,
  Chars.startsWith s p = true -> exists t, s = p ++ t.
Proof.
  induction p as [|a p IH]; intros s H; cbn in H.
  - now exists s.
  - destruct s as [|b s]; [discriminate|].
    apply andb_prop in H. destruct H as [Hab Hs].
    apply Ascii.eqb_eq in Hab. subst b.
    destruct (IH s Hs) as [t ->]. now exists t.
Qed.

Lemma endsWith_app s suffix : Chars.endsWith (s ++ suffix) suffix = true.
Proof. unfold Chars.endsWith. rewrite rev_app_distr. apply startsWith_app. Qed.

Lemma endsWith_suffix s suffix :
  Chars.endsWith s suffix = true -> exists stem, s = stem ++ suffix.
Proof.
  unfold Chars.endsWith. intros H.
  destruct (startsWith_prefix _ _ H) as [t Ht].
  exists (rev t). rewrite <- (rev_involutive s), Ht, rev_app_distr.
  now rewrite rev_involutive.
Qed.

Lemma replaceAll_clean p by_ s :
  p by_ = false ->
  Forall (fun c => p c = false) (Chars.replaceAll p by_ s).
Proof.
  intros Hby. unfold Chars.replaceAll. apply Forall_forall.
  intros c Hc. apply in_map_iff in Hc. destruct Hc as (x & <- & _).
  destruct (p x) eqn:E; assumption.
Qed.

Lemma replaceAll_id p by_ s :
  Forall (fun c => p c = false) s -> Chars.replaceAll p by_ s = s.
Proof.
  unfold Chars.replaceAll. induction 1 as [|c s Hc _ IH]; cbn; [reflexivity|].
  now rewrite Hc, IH.
Qed.

Lemma lastSegment_incl sep s c :
  In c (Chars.lastSegment sep s) -> In c s.
Proof.
  induction s as [|x s IH]; cbn [Chars.lastSegment]; [tauto|].
  destruct (Chars.includes sep s).
  - intros H. right. apply IH. exact H.
  - destruct (Ascii.eqb x sep); [intros H; now right|tauto].
Qed.

Lemma cutMatchAtEnd_incl r s c :
  In c (Chars.cutMatchAtEnd r s) -> In c s.
Proof.
  induction s as [|x s IH]; cbn [Chars.cutMatchAtEnd].
  - destruct (RegExp.matches r []); tauto.
  - destruct (RegExp.matches r (x :: s)); [intros []|].
    intros [H|H]; [now left|right; now apply IH].
Qed.

Lemma Forall_incl_of {A} (P : A -> Prop) (l l' : list A) :
  (forall x, In x l' -> In x l) -> Forall P l -> Forall P l'.
Proof. rewrite !Forall_forall. auto. Qed.

Lemma timestampOf_clean iso :
  Forall (fun c => isInvalidFilenameChar c = false \/ c = ":"%char) iso ->
  Forall (fun c => isInvalidFilenameChar c = false) (timestampOf iso).
Proof.
  intros H. unfold timestampOf, Chars.dropLast.
  apply (Forall_incl_of _ (Chars.replaceAll
           (fun c => Ascii.eqb c ":" || Ascii.eqb c ".") "-" iso)).
  - intros x Hx. revert Hx. generalize (List.length (Chars.replaceAll
      (fun c => (c =? ":")%char || (c =? ".")%char) "-"%char iso) - 5)%nat.
    intros m. revert m.
    induction (Chars.replaceAll
      (fun c => (c =? ":")%char || (c =? ".")%char) "-"%char iso)
      as [|y l IH]; intros [|m]; cbn; try tauto.
    intros [E|Hx]; [now left|right; now apply (IH m)].
  - unfold Chars.replaceAll. apply Forall_forall. intros c Hc.
    apply in_map_iff in Hc. destruct Hc as (x & <- & Hx).
    rewrite Forall_forall in H. specialize (H x Hx).
    destruct (Ascii.eqb_spec x ":") as [->|Hne]; cbn [orb]; [reflexivity|].
    destruct (Ascii.eqb x "."); [reflexivity|].
    destruct H as [H|H]; [exact H|contradiction].
Qed.

(** X20. The name sanitizeFilename returns always ends in ".xlsx", and it
    holds none of the characters < > : / \ | ? * or the double quote,
    provided the text of toISOString holds none of them but ":" (as an ISO
    date does). *)
Theorem sanitizeFilename_is_a_safe_xlsx_name includeTimestamp iso filename :
  Forall (fun c => isInvalidFilenameChar c = false \/ c = ":"%char)
         (list_ascii_of_string iso) ->
  (exists stem,
      list_ascii_of_string (sanitizeFilename includeTimestamp iso filename)
      = stem ++ list_ascii_of_string ".xlsx") /\
  Forall (fun c => isInvalidFilenameChar c = false)
         (list_ascii_of_string (sanitizeFilename includeTimestamp iso filename)).
Proof.
  intros Hiso. unfold sanitizeFilename.
  rewrite list_ascii_of_string_of_list_ascii. unfold sanitizeChars.
  set (f := list_ascii_of_string filename).
  set (s0 := Chars.replaceAll isInvalidFilenameChar "_" f).
  assert (Hs0 : Forall (fun c => isInvalidFilenameChar c = false) s0)
    by (apply replaceAll_clean; reflexivity).
  set (s1 := if includeTimestamp then _ else s0).
  assert (Hs1 : Forall (fun c => isInvalidFilenameChar c = false) s1).
  { subst s1. destruct includeTimestamp; [|exact Hs0].
    repeat (apply Forall_app; split).
    - eapply Forall_incl_of; [|exact Hs0]. intros x. apply cutMatchAtEnd_incl.
    - repeat constructor.
    - apply timestampOf_clean. exact Hiso.
    - repeat constructor.
    - destruct (Chars.includes "." s0).
      + eapply Forall_incl_of; [|exact Hs0]. intros x. apply lastSegment_incl.
      + repeat constructor. }
  destruct (Chars.endsWith s1 (list_ascii_of_string ".xlsx")) eqn:E.
  - split; [apply endsWith_suffix; exact E|exact Hs1].
  - split; [now exists s1|].
    apply Forall_app. split; [exact Hs1|repeat constructor].
Qed.

Lemma sanitizeFilename_example :
  Forall (fun c => isInvalidFilenameChar c = false \/ c = ":"%char)
         (list_ascii_of_string "2024-05-01T10:00:00.000Z") /\
  Forall (fun c => isInvalidFilenameChar c = false)
         (list_ascii_of_string
            (sanitizeFilename true "2024-05-01T10:00:00.000Z" "re:port?.csv")).
Proof.
  assert (H : Forall (fun c => isInvalidFilenameChar c = false \/ c = ":"%char)
                (list_ascii_of_string "2024-05-01T10:00:00.000Z")).
  { cbn.
    repeat (apply Forall_cons; [first [left; reflexivity|right; reflexivity]|]).
    apply Forall_nil. }
  split; [exact H|].
  apply (sanitizeFilename_is_a_safe_xlsx_name true _ "re:port?.csv" H).
Defined.

Lemma matches_extension_head s :
  RegExp.matches extensionRegex s = true -> exists t, s = "."%char :: t.
Proof.
  intros H. apply matches_lang in H. unfold extensionRegex in H.
  apply lang_Seq_inv in H. destruct H as (s1 & s2 & -> & H1 & _).
  apply lang_Class_eqb in H1. subst s1. now exists s2.
Qed.

Lemma cutMatchAtEnd_no_dot s :
  ~ In "."%char s -> Chars.cutMatchAtEnd extensionRegex s = s.
Proof.
  induction s as [|c s IH]; intros Hno; [reflexivity|].
  cbn [Chars.cutMatchAtEnd].
  destruct (RegExp.matches extensionRegex (c :: s)) eqn:E.
  - apply matches_extension_head in E. destruct E as [t E].
    injection E as -> _. exfalso. apply Hno. now left.
  - f_equal. apply IH. intros Hin. apply Hno. now right.
Qed.

Lemma includes_In c s : Chars.includes c s = true <-> In c s.
Proof.
  unfold Chars.includes. rewrite existsb_exists. split.
  - intros (x & Hx & E). apply Ascii.eqb_eq in E. now subst.
  - intros H. exists c. split; [exact H|apply Ascii.eqb_refl].
Qed.

Lemma replaceAll_no_dot s :
  ~ In "."%char s ->
  ~ In "."%char (Chars.replaceAll isInvalidFilenameChar "_" s).
Proof.
  unfold Chars.replaceAll. intros Hno Hin. apply in_map_iff in Hin.
  destruct Hin as (x & Hx & Hin).
  destruct (isInvalidFilenameChar x); [discriminate|]. subst x. contradiction.
Qed.

(** X21. With includeTimestamp on, a name without a dot (as the two report
    names are) becomes the name with its invalid characters replaced,
    followed by "_", the time stamp and ".xlsx"; the time stamp is the text
    of toISOString with ":" and "." turned into "-" and its last five code
    units dropped. *)
Theorem sanitizeFilename_stamps_a_plain_name iso filename :
  ~ In "."%char (list_ascii_of_string filename) ->
  list_ascii_of_string (sanitizeFilename true iso filename) =
  Chars.replaceAll isInvalidFilenameChar "_" (list_ascii_of_string filename)
    ++ ["_"%char] ++ timestampOf (list_ascii_of_string iso)
    ++ list_ascii_of_string ".xlsx".
Proof.
  intros Hno. unfold sanitizeFilename.
  rewrite list_ascii_of_string_of_list_ascii. unfold sanitizeChars.
  set (s0 := Chars.replaceAll isInvalidFilenameChar "_"
               (list_ascii_of_string filename)).
  assert (Hs0 : ~ In "."%char s0) by (apply replaceAll_no_dot; exact Hno).
  assert (Hinc : Chars.includes "." s0 = false).
  { apply not_true_is_false. intros H. apply includes_In in H. contradiction. }
  rewrite Hinc, (cutMatchAtEnd_no_dot s0 Hs0).
  change (["."%char] ++ list_ascii_of_string "xlsx")
    with (list_ascii_of_string ".xlsx").
  replace (s0 ++ ["_"%char] ++ timestampOf (list_ascii_of_string iso)
              ++ list_ascii_of_string ".xlsx")
    with ((s0 ++ ["_"%char] ++ timestampOf (list_ascii_of_string iso))
            ++ list_ascii_of_string ".xlsx")
    by (now rewrite <- !app_assoc).
  now rewrite endsWith_app.
Qed.

Lemma sanitizeFilename_stamp_example :
  ~ In "."%char (list_ascii_of_string "email_success_report") /\
  sanitizeFilename true "2024-05-01T10:00:00.000Z" "email_success_report"
  = "email_success_report_2024-05-01T10-00-00.xlsx"%string.
Proof.
  assert (H : ~ In "."%char (list_ascii_of_string "email_success_report")).
  { cbn. intuition discriminate. }
  split; [exact H|].
  rewrite <- (string_of_list_ascii_of_string
                (sanitizeFilename true "2024-05-01T10:00:00.000Z"
                   "email_success_report")).
  rewrite (sanitizeFilename_stamps_a_plain_name
             "2024-05-01T10:00:00.000Z" "email_success_report" H).
  reflexivity.
Defined.

(** X22. Without the time stamp sanitizeFilename is idempotent: a name it
    has returned comes back unchanged. *)
Theorem sanitizeFilename_idempotent_without_timestamp iso iso' filename :
  sanitizeFilename false iso' (sanitizeFilename false iso filename)
  = sanitizeFilename false iso filename.
Proof.
  unfold sanitizeFilename at 1.
  set (r := sanitizeFilename false iso filename).
  assert (Hr : list_ascii_of_string r =
               sanitizeChars false (list_ascii_of_string iso)
                 (list_ascii_of_string filename)).
  { subst r. unfold sanitizeFilename.
    apply list_ascii_of_string_of_list_ascii. }
  assert (Hclean : Forall (fun c => isInvalidFilenameChar c = false)
                          (list_ascii_of_string r)).
  { rewrite Hr. unfold sanitizeChars.
    assert (H0 : Forall (fun c => isInvalidFilenameChar c = false)
                   (Chars.replaceAll isInvalidFilenameChar "_"
                      (list_ascii_of_string filename)))
      by (apply replaceAll_clean; reflexivity).
    destruct (Chars.endsWith
                (Chars.replaceAll isInvalidFilenameChar "_"
                   (list_ascii_of_string filename))
                (list_ascii_of_string ".xlsx")); [exact H0|].
    apply Forall_app. split; [exact H0|repeat constructor]. }
  assert (Hends : Chars.endsWith (list_ascii_of_string r)
                    (list_ascii_of_string ".xlsx") = true).
  { rewrite Hr. unfold sanitizeChars.
    set (s0 := Chars.replaceAll isInvalidFilenameChar "_"
                 (list_ascii_of_string filename)).
    destruct (Chars.endsWith s0 (list_ascii_of_string ".xlsx")) eqn:E;
      [exact E|apply endsWith_app]. }
  unfold sanitizeChars. rewrite (replaceAll_id _ _ _ Hclean), Hends.
  apply string_of_list_ascii_of_string.
Qed.

(* ------------------------------------------------------------------------- *)
(** ** App.validateFile *)

Lemma list_ascii_of_string_app a b :
  list_ascii_of_string (a ++ b)%string
  = list_ascii_of_string a ++ list_ascii_of_string b.
Proof. induction a as [|c a IH]; cbn; [reflexivity|now rewrite IH]. Qed.

Lemma lastSegment_after_sep sep stem ext :
  ~ In sep ext -> Chars.lastSegment sep (stem ++ sep :: ext) = ext.
Proof.
  intros Hno. induction stem as [|c stem IH]; cbn [app Chars.lastSegment].
  - assert (E : Chars.includes sep ext = false).
    { apply not_true_is_false. intros H. apply includes_In in H. contradiction. }
    now rewrite E, Ascii.eqb_refl.
  - assert (E : Chars.includes sep (stem ++ sep :: ext) = true).
    { apply includes_In, in_app_iff. right. now left. }
    now rewrite E.
Qed.

Lemma lastSegment_no_sep sep s :
  ~ In sep s -> Chars.lastSegment sep s = s.
Proof.
  intros Hno. destruct s as [|c s]; [reflexivity|]. cbn [Chars.lastSegment].
  assert (E : Chars.includes sep s = false).
  { apply not_true_is_false. intros H. apply includes_In in H.
    apply Hno. now right. }
  rewrite E. destruct (Ascii.eqb_spec c sep) as [->|_]; [|reflexivity].
  exfalso. apply Hno. now left.
Qed.

Lemma validateFile_by_extension file ext :
  map Chars.toLower (Chars.lastSegment "." (list_ascii_of_string (name file)))
  = list_ascii_of_string (toLowerCase ext) ->
  (validateFile upload file = Accepted <->
   size file <= 10485760 /\
   (toLowerCase ext = "xlsx"%string \/ toLowerCase ext = "xls"%string)).
Proof.
  intros Hext. unfold validateFile, extensionOf. rewrite Hext.
  rewrite string_of_list_ascii_of_string.
  cbn [maxFileSize upload allowedTypes existsb].
  change (10 * 1024 * 1024) with 10485760.
  destruct (Z.ltb_spec 10485760 (size file)) as [Hbig|Hok].
  - split; [discriminate|]. intros [H _]. lia.
  - rewrite orb_false_r.
    destruct (String.eqb_spec (String "." (toLowerCase ext)) ".xlsx") as [E|E];
      [|destruct (String.eqb_spec (String "." (toLowerCase ext)) ".xls")
          as [E'|E']]; cbn [orb].
    + injection E as E. split; [intros _; split; [exact Hok|now left]|reflexivity].
    + injection E' as E'.
      split; [intros _; split; [exact Hok|now right]|reflexivity].
    + split; [discriminate|]. intros [_ [H|H]]; rewrite H in *; congruence.
Qed.

(** X23. validateFile with the shipped limits. A file larger than 10 MB
    (10485760 bytes) is refused as too large, whatever its name. Otherwise
    only what follows the last dot of the name counts, in any letter case:
    the file is accepted exactly when that is xlsx or xls. A name without a
    dot is taken whole, so a file named XLSX is accepted. *)
Theorem validateFile_extension_decides file :
  (validateFile upload file = TooLarge <-> 10485760 < size file) /\
  (forall stem ext,
      name file = (stem ++ "." ++ ext)%string ->
      ~ In "."%char (list_ascii_of_string ext) ->
      (validateFile upload file = Accepted <->
       size file <= 10485760 /\
       (toLowerCase ext = "xlsx"%string \/ toLowerCase ext = "xls"%string))) /\
  (~ In "."%char (list_ascii_of_string (name file)) ->
   (validateFile upload file = Accepted <->
    size file <= 10485760 /\
    (toLowerCase (name file) = "xlsx"%string \/
     toLowerCase (name file) = "xls"%string))).
Proof.
  split; [|split].
  - unfold validateFile. cbn [maxFileSize upload].
    change (10 * 1024 * 1024) with 10485760.
    destruct (Z.ltb_spec 10485760 (size file)) as [H|H].
    + tauto.
    + split; [|lia]. destruct (existsb _ _); discriminate.
  - intros stem ext Hname Hno. apply validateFile_by_extension.
    rewrite Hname, list_ascii_of_string_app. cbn [String.append list_ascii_of_string].
    rewrite lastSegment_after_sep by exact Hno.
    unfold toLowerCase. now rewrite list_ascii_of_string_of_list_ascii.
  - intros Hno. apply validateFile_by_extension.
    rewrite lastSegment_no_sep by exact Hno.
    unfold toLowerCase. now rewrite list_ascii_of_string_of_list_ascii.
Qed.

Lemma validateFile_example :
  ~ In "."%char (list_ascii_of_string "XLSX") /\
  validateFile upload {| name := "XLSX"; size := 2048 |} = Accepted /\
  validateFile upload {| name := "Leads.Q3.XlsX"; size := 2048 |} = Accepted.
Proof.
  assert (Hno : ~ In "."%char (list_ascii_of_string "XLSX"))
    by (cbn; intuition discriminate).
  split; [exact Hno|].
  destruct (validateFile_extension_decides {| name := "XLSX"; size := 2048 |})
    as (_ & _ & Hplain).
  destruct (validateFile_extension_decides
              {| name := "Leads.Q3.XlsX"; size := 2048 |})
    as (_ & Hext & _).
  split.
  - apply (Hplain Hno). split; [cbn; lia|left; reflexivity].
  - apply (Hext "Leads.Q3"%string "XlsX"%string eq_refl).
    + cbn. intuition discriminate.
    + split; [cbn; lia|left; reflexivity].
Defined.

(* ------------------------------------------------------------------------- *)
(** ** FormManager: moving between the steps *)

Lemma showStep_bounds this step :
  1 <= FormManager.currentStep this <= FormManager.totalSteps this ->
  1 <= FormManager.currentStep (FormManager.showStep this step)
    <= FormManager.totalSteps this /\
  FormManager.totalSteps (FormManager.showStep this step)
  = FormManager.totalSteps this /\
  FormManager.formData (FormManager.showStep this step)
  = FormManager.formData this /\
  (FormManager.currentStep (FormManager.showStep this step) = step \/
   FormManager.showStep this step = this).
Proof.
  intros H. unfold FormManager.showStep.
  destruct (Z.ltb_spec step 1); cbn [orb]; [tauto|].
  destruct (Z.ltb_spec (FormManager.totalSteps this) step); [tauto|].
  cbn. split; [lia|]. split; [reflexivity|]. split; [reflexivity|]. now left.
Qed.

Lemma perform_bounds this a :
  1 <= FormManager.totalSteps this ->
  1 <= FormManager.currentStep this <= FormManager.totalSteps this ->
  1 <= FormManager.currentStep (FormManager.perform this a)
    <= FormManager.totalSteps this /\
  FormManager.totalSteps (FormManager.perform this a)
  = FormManager.totalSteps this.
Proof.
  intros Ht H. destruct a as [|target| | |]; cbn [FormManager.perform].
  - cbn. lia.
  - destruct (showStep_bounds this target H) as (H1 & H2 & _). tauto.
  - unfold FormManager.nextStep.
    destruct (FormManager.validateStep _ _); [|tauto].
    destruct (_ <? _); [|tauto].
    destruct (showStep_bounds this (FormManager.currentStep this + 1) H)
      as (H1 & H2 & _). tauto.
  - unfold FormManager.previousStep. destruct (_ <? _); [|tauto].
    destruct (showStep_bounds this (FormManager.currentStep this - 1) H)
      as (H1 & H2 & _). tauto.
  - unfold FormManager.resetForm.
    set (r := {| FormManager.currentStep := 1;
                 FormManager.totalSteps := FormManager.totalSteps this;
                 FormManager.formData := FormManager.emptyForm |}).
    assert (Hr : 1 <= FormManager.currentStep r <= FormManager.totalSteps r)
      by (cbn; lia).
    destruct (showStep_bounds r 1 Hr) as (H1 & H2 & _). cbn in *. tauto.
Qed.

(** X24. The step counter never leaves the form: starting from the
    FormManager object as declared, after any sequence of init, showStep
    (with any argument), nextStep, previousStep and resetForm, currentStep
    is between 1 and 4 and totalSteps is still 4. *)
Theorem currentStep_stays_within_the_steps actions :
  let this := fold_left FormManager.perform actions FormManager.initial in
  1 <= FormManager.currentStep this <= 4 /\ FormManager.totalSteps this = 4.
Proof.
  cbv zeta. induction actions as [|a actions IH] using rev_ind.
  - cbn. lia.
  - rewrite fold_left_app. cbn [fold_left].
    destruct IH as [Hc Ht].
    set (st := fold_left FormManager.perform actions FormManager.initial) in *.
    destruct (perform_bounds st a) as [H1 H2]; rewrite ?Ht; try lia.
Qed.

(** X25. nextStep is the only way forward it offers past a check: with the
    form data fixed, after any sequence of nextStep and previousStep from
    step 1, every step before the current one passes validateStep; so step 2
    is reached only with a file, step 3 only with a selected column and at
    least one valid address, step 4 only with a subject and a body that are
    not blank. *)
Theorem nextStep_never_skips_a_check data moves :
  Forall (fun a => a = FormManager.NextStep \/ a = FormManager.PreviousStep)
         moves ->
  let start := {| FormManager.currentStep := 1;
                  FormManager.totalSteps := 4;
                  FormManager.formData := data |} in
  let this := fold_left FormManager.perform moves start in
  FormManager.formData this = data /\
  1 <= FormManager.currentStep this <= 4 /\
  (forall k, 1 <= k < FormManager.currentStep this ->
             FormManager.validateStep start k = true).
Proof.
  intros Hmoves. cbv zeta.
  set (start := {| FormManager.currentStep := 1;
                   FormManager.totalSteps := 4;
                   FormManager.formData := data |}).
  assert (Hinv :
    FormManager.formData (fold_left FormManager.perform moves start) = data /\
    FormManager.totalSteps (fold_left FormManager.perform moves start) = 4 /\
    1 <= FormManager.currentStep (fold_left FormManager.perform moves start) <= 4 /\
    (forall k,
        1 <= k < FormManager.currentStep (fold_left FormManager.perform moves start) ->
        FormManager.validateStep start k = true)).
  { induction moves as [|a moves IH] using rev_ind.
    - cbn. split; [reflexivity|]. split; [reflexivity|].
      split; [lia|]. intros k Hk. lia.
    - apply Forall_app in Hmoves. destruct Hmoves as [Hm Ha].
      inversion Ha as [|? ? Hlast _]; subst.
      rewrite fold_left_app. cbn [fold_left].
      destruct (IH Hm) as (Hd & Ht & Hc & Hv).
      set (st := fold_left FormManager.perform moves start) in *.
      assert (Hval : forall k, FormManager.validateStep st k
                               = FormManager.validateStep start k).
      { intros k. unfold FormManager.validateStep. now rewrite Hd. }
      destruct Hlast as [-> | ->]; cbn [FormManager.perform].
      + unfold FormManager.nextStep.
        destruct (FormManager.validateStep st (FormManager.currentStep st))
          eqn:Ev; [|tauto].
        destruct (Z.ltb_spec (FormManager.currentStep st)
                             (FormManager.totalSteps st)); [|tauto].
        unfold FormManager.showStep.
        destruct (Z.ltb_spec (FormManager.currentStep st + 1) 1); [lia|].
        destruct (Z.ltb_spec (FormManager.totalSteps st)
                             (FormManager.currentStep st + 1)); [lia|].
        cbn. split; [exact Hd|]. split; [exact Ht|]. split; [lia|].
        intros k Hk.
        destruct (Z.eq_dec k (FormManager.currentStep st)) as [->|Hne].
        * now rewrite <- Hval.
        * apply Hv. lia.
      + unfold FormManager.previousStep.
        destruct (Z.ltb_spec 1 (FormManager.currentStep st)); [|tauto].
        unfold FormManager.showStep.
        destruct (Z.ltb_spec (FormManager.currentStep st - 1) 1); [lia|].
        destruct (Z.ltb_spec (FormManager.totalSteps st)
                             (FormManager.currentStep st - 1)); [lia|].
        cbn. split; [exact Hd|]. split; [exact Ht|]. split; [lia|].
        intros k Hk. apply Hv. lia. }
  tauto.
Qed.

Lemma nextStep_example :
  Forall (fun a => a = FormManager.NextStep \/ a = FormManager.PreviousStep)
         [FormManager.NextStep; FormManager.NextStep] /\
  FormManager.currentStep
    (fold_left FormManager.perform
       [FormManager.NextStep; FormManager.NextStep]
       {| FormManager.currentStep := 1;
          FormManager.totalSteps := 4;
          FormManager.formData := FormManager.emptyForm |})
  = 1.
Proof.
  assert (H : Forall (fun a => a = FormManager.NextStep \/
                               a = FormManager.PreviousStep)
                [FormManager.NextStep; FormManager.NextStep])
    by (repeat constructor).
  split; [exact H|].
  destruct (nextStep_never_skips_a_check FormManager.emptyForm _ H)
    as (_ & Hc & Hv).
  cbv zeta in Hc, Hv.
  destruct (Z.eq_dec
              (FormManager.currentStep
                 (fold_left FormManager.perform
                    [FormManager.NextStep; FormManager.NextStep]
                    {| FormManager.currentStep := 1;
                       FormManager.totalSteps := 4;
                       FormManager.formData := FormManager.emptyForm |})) 1)
    as [E|Hne]; [exact E|].
  specialize (Hv 1 ltac:(lia)). cbn in Hv. discriminate Hv.
Defined.

(** X26. Once a column is selected and its cells validated, as
    handleColumnSelect stores them, step 2 passes validateStep exactly when
    the column holds at least one address that the pattern accepts. *)
Theorem step_2_needs_an_accepted_address this columnName data :
  FormManager.selectedColumn (FormManager.formData this) = Some columnName ->
  FormManager.emailValidation (FormManager.formData this)
  = Some (validateEmails data) ->
  (FormManager.validateStep this 2 = true <->
   exists email, In email data /\ RegExp.test emailRegex email = true).
Proof.
  intros Hc Hv. unfold FormManager.validateStep. cbn [Z.eqb].
  rewrite Hc, Hv.
  pose proof (validCount_zero data) as Hzero.
  pose proof (valid_In data) as Hin.
  pose proof (validCount_length data) as Hvc.
  destruct (Z.ltb_spec 0 (Validation.validCount (validateEmails data)))
    as [Hpos|Hle].
  - split; [intros _|reflexivity].
    destruct (Validation.valid (validateEmails data)) as [|e l] eqn:E.
    + rewrite Hvc in Hpos. cbn in Hpos. lia.
    + exists e. apply Hin. now left.
  - split; [discriminate|]. intros (email & He & Hacc).
    assert (H0 : Validation.validCount (validateEmails data) = 0).
    { rewrite Hvc in *. lia. }
    pose proof (proj1 Hzero H0 email He) as Hrej.
    rewrite Hrej in Hacc. discriminate.
Qed.

Lemma step_2_example :
  let this :=
    {| FormManager.currentStep := 2; FormManager.totalSteps := 4;
       FormManager.formData :=
         {| FormManager.file := None; FormManager.fileName := "";
            FormManager.fileSize := 0; FormManager.selectedSheet := None;
            FormManager.selectedColumn := Some "Email"%string;
            FormManager.emailList := ["a@x.io"%string];
            FormManager.emailValidation :=
              Some (validateEmails ["a@x.io"; "nope"]%string);
            FormManager.subject := ""; FormManager.body := "";
            FormManager.emailResults := {| success := []; failure := [] |} |} |} in
  FormManager.validateStep this 2 = true.
Proof.
  intros this.
  apply (step_2_needs_an_accepted_address this "Email"%string
           ["a@x.io"; "nope"]%string eq_refl eq_refl).
  exists "a@x.io"%string. split; [now left|reflexivity].
Defined.

(* ------------------------------------------------------------------------- *)
(** ** The Lambda handler *)

Lemma getProp_prop v k :
  nullish v = false -> getProp v k = Normal (Lambda.prop v k).
Proof.
  destruct v; cbn; intros H; try discriminate H; reflexivity.
Qed.

Lemma isText_eq v text : Lambda.isText v text = true -> v = VStr text.
Proof.
  destruct v; cbn; try discriminate. intros H.
  apply String.eqb_eq in H. now subst.
Qed.

(** A POST is no preflight request. *)
Lemma post_is_no_preflight event :
  Lambda.isText (Lambda.methodOf event) "POST" = true ->
  Lambda.isText (Lambda.httpField event "method") "OPTIONS" = false.
Proof.
  intros H. destruct (Lambda.isText (Lambda.httpField event "method") "OPTIONS")
    eqn:E; [|reflexivity].
  apply isText_eq in E. unfold Lambda.methodOf in H. rewrite E in H.
  cbn in H. discriminate H.
Qed.

(** On the send-email route the handler is the try block, with the catch
    block behind it, applied to the parsed body. *)
Lemma handler_send_route env out event :
  Lambda.isText (Lambda.pathOf event) "/api/send-email"
  || Lambda.isText (Lambda.pathOf event) "/send-email" = true ->
  Lambda.isText (Lambda.methodOf event) "POST" = true ->
  Lambda.handler env out event
  = (b <- Lambda.bodyOf out event ;;
     tryCatch (Lambda.sendTry env out b) (Lambda.sendCatch out b)).
Proof.
  intros Hp Hm. unfold Lambda.handler.
  rewrite (post_is_no_preflight _ Hm), Hp, Hm.
  pose proof (isText_eq _ _ Hm) as Em. rewrite Em.
  cbn [Lambda.isText]. 
  replace (String.eqb "POST" "GET") with false by reflexivity.
  rewrite andb_false_r. reflexivity.
Qed.

(** With a key and the three fields the try block is the request to the
    provider followed by the reply for its status. *)
Lemma sendTry_request env out b :
  Lambda.hasKey env = true ->
  nullish b = false ->
  truthy (Lambda.prop b "toEmail") = true ->
  truthy (Lambda.prop b "subject") = true ->
  truthy (Lambda.prop b "body") = true ->
  Lambda.sendTry env out b
  = (response <-
       Lambda.makeRequest out (Lambda.API_URL env) (Lambda.providerHeaders env)
         (if Lambda.isBrevoKey env
          then Lambda.brevoData env (Lambda.prop b "toEmail")
                 (Lambda.prop b "subject") (Lambda.prop b "body")
          else Lambda.sendGridData env (Lambda.prop b "toEmail")
                 (Lambda.prop b "subject") (Lambda.prop b "body")) ;;
     if (200 <=? Lambda.status response) && (Lambda.status response <? 300)
     then Lambda.successReply env out (Lambda.prop b "toEmail")
            (Lambda.prop b "subject") response
     else Lambda.failureReply out (Lambda.prop b "toEmail")
            (Lambda.prop b "subject") response).
Proof.
  intros Hk Hb H1 H2 H3. unfold Lambda.sendTry.
  rewrite Hk. cbn [negb].
  rewrite !(getProp_prop _ _ Hb). cbn [bind].
  rewrite H1, H2, H3. reflexivity.
Qed.


(** X27. On the send-email route the handler answers without the provider
    when the request cannot be sent: 500 with a configuration message when no
    API key is set, whatever the body holds, and 400 when a key is set and
    toEmail, subject or body is missing or empty. *)
Theorem send_route_validates_before_calling_provider env out event b :
  Lambda.isText (Lambda.pathOf event) "/api/send-email"
  || Lambda.isText (Lambda.pathOf event) "/send-email" = true ->
  Lambda.isText (Lambda.methodOf event) "POST" = true ->
  Lambda.bodyOf out event = Normal b ->
  (Lambda.hasKey env = false ->
   Lambda.handler env out event
   = Normal (Lambda.respond 500
       (Lambda.Json (VObj [ ("success", VBool false);
          ("error", VStr "Email API key not configured. Please set EMAIL_API_KEY, SENDGRID_API_KEY, or BREVO_API_KEY environment variable.") ])))) /\
  (Lambda.hasKey env = true ->
   nullish b = false ->
   truthy (Lambda.prop b "toEmail") && truthy (Lambda.prop b "subject")
   && truthy (Lambda.prop b "body") = false ->
   Lambda.handler env out event
   = Normal (Lambda.respond 400
       (Lambda.Json (VObj [ ("success", VBool false);
          ("error", VStr "Missing required fields: toEmail, subject, and body are required") ])))).
Proof.
  intros Hp Hm Hb. rewrite (handler_send_route _ _ _ Hp Hm), Hb. cbn [bind].
  split.
  - intros Hk. unfold Lambda.sendTry. rewrite Hk. reflexivity.
  - intros Hk Hn Hf. unfold Lambda.sendTry. rewrite Hk. cbn [negb].
    rewrite !(getProp_prop _ _ Hn). cbn [bind].
    destruct (truthy (Lambda.prop b "toEmail")),
             (truthy (Lambda.prop b "subject")),
             (truthy (Lambda.prop b "body")); try discriminate Hf;
      reflexivity.
Qed.

Lemma send_route_validation_example :
  Lambda.handler sendGridEnv (providerReplies (Throw (mkError "down")))
    (sendEvent (VObj [ ("toEmail", VStr "a@x.io") ]))
  = Normal (Lambda.respond 400
      (Lambda.Json (VObj [ ("success", VBool false);
         ("error", VStr "Missing required fields: toEmail, subject, and body are required") ]))).
Proof.
  assert (Hp : Lambda.isText
                 (Lambda.pathOf (sendEvent (VObj [ ("toEmail", VStr "a@x.io") ])))
                 "/api/send-email"
               || Lambda.isText
                    (Lambda.pathOf (sendEvent (VObj [ ("toEmail", VStr "a@x.io") ])))
                    "/send-email" = true) by reflexivity.
  assert (Hm : Lambda.isText
                 (Lambda.methodOf (sendEvent (VObj [ ("toEmail", VStr "a@x.io") ])))
                 "POST" = true) by reflexivity.
  assert (Hb : Lambda.bodyOf (providerReplies (Throw (mkError "down")))
                 (sendEvent (VObj [ ("toEmail", VStr "a@x.io") ]))
               = Normal (VObj [ ("toEmail", VStr "a@x.io") ])) by reflexivity.
  destruct (send_route_validates_before_calling_provider
              sendGridEnv _ _ _ Hp Hm Hb) as [_ H].
  apply H; reflexivity.
Defined.


(** The fallback message id is never empty. *)
Lemma orValue_truthy a b : truthy b = true -> truthy (Lambda.orValue a b) = true.
Proof. intros H. unfold Lambda.orValue. destruct (truthy a) eqn:E; assumption. Qed.



(** X29. A refusal of the provider is passed through: on the send-email
    route, with a key and the three fields, a provider status outside
    200..299 whose body parses to a value that is not null becomes the
    status of the reply, with [success: false], the status in decimal as
    errorCode and an errorMessage that is never empty: the body's [message]
    when it has one, and [HTTP <status>] when the body has neither
    [message], [errors] nor [error]. *)
Theorem provider_refusal_is_passed_through env out event b resp d :
  Lambda.isText (Lambda.pathOf event) "/api/send-email"
  || Lambda.isText (Lambda.pathOf event) "/send-email" = true ->
  Lambda.isText (Lambda.methodOf event) "POST" = true ->
  Lambda.bodyOf out event = Normal b ->
  nullish b = false ->
  Lambda.hasKey env = true ->
  truthy (Lambda.prop b "toEmail") = true ->
  truthy (Lambda.prop b "subject") = true ->
  truthy (Lambda.prop b "body") = true ->
  Lambda.makeRequest out (Lambda.API_URL env) (Lambda.providerHeaders env)
    (if Lambda.isBrevoKey env
     then Lambda.brevoData env (Lambda.prop b "toEmail")
            (Lambda.prop b "subject") (Lambda.prop b "body")
     else Lambda.sendGridData env (Lambda.prop b "toEmail")
            (Lambda.prop b "subject") (Lambda.prop b "body"))
  = Normal resp ->
  ~ (200 <= Lambda.status resp < 300) ->
  Lambda.parseOrEmpty out (Lambda.body resp) = Normal d ->
  nullish d = false ->
  exists errorMessage,
    Lambda.handler env out event
    = Normal (Lambda.respond (Lambda.status resp)
        (Lambda.Json (VObj [ ("success", VBool false);
                             ("email", Lambda.prop b "toEmail");
                             ("subject", Lambda.prop b "subject");
                             ("attemptedAt", VStr (Lambda.nowISO out));
                             ("errorMessage", errorMessage);
                             ("errorCode",
                               VStr (Lambda.decimal (Lambda.status resp))) ]))) /\
    truthy errorMessage = true /\
    (truthy (Lambda.prop d "message") = true ->
     errorMessage = Lambda.prop d "message") /\
    (Lambda.prop d "message" = VUndefined ->
     Lambda.prop d "errors" = VUndefined ->
     Lambda.prop d "error" = VUndefined ->
     errorMessage = VStr ("HTTP " ++ Lambda.decimal (Lambda.status resp))).
Proof.
  intros Hp Hm Hb Hn Hk H1 H2 H3 Hr Hs Hd Hdn.
  rewrite (handler_send_route _ _ _ Hp Hm), Hb. cbn [bind].
  rewrite (sendTry_request _ _ _ Hk Hn H1 H2 H3), Hr. cbn [bind].
  replace ((200 <=? Lambda.status resp) && (Lambda.status resp <? 300))
    with false.
  2:{ symmetry. apply andb_false_iff.
      destruct (Z.leb_spec 200 (Lambda.status resp)); [right|left; reflexivity].
      apply Z.ltb_ge. lia. }
  unfold Lambda.failureReply. rewrite Hd. cbn [bind].
  rewrite !(getProp_prop _ _ Hdn). cbn [bind].
  destruct (truthy (Lambda.prop d "message")) eqn:E1.
  { cbn [bind tryCatch]. eexists. split; [reflexivity|].
    split; [exact E1|]. split; [reflexivity|].
    intros Hu. rewrite Hu in E1. discriminate E1. }
  match goal with
  | |- context [truthy ?m2] =>
      lazymatch m2 with
      | (if nullish _ then _ else _) => set (m2' := m2)
      end
  end.
  destruct (truthy m2') eqn:E2.
  { cbn [bind tryCatch]. eexists. split; [reflexivity|].
    split; [exact E2|]. split; [discriminate|].
    intros _ Hu _. subst m2'. rewrite Hu in E2. discriminate E2. }
  cbn [bind tryCatch]. eexists. split; [reflexivity|].
  split; [apply orValue_truthy; reflexivity|]. split; [discriminate|].
  intros _ _ Hu. rewrite Hu. reflexivity.
Qed.

Lemma provider_refusal_example :
  Lambda.handler sendGridEnv
    (providerReplies
       (Normal {| Lambda.status := 401; Lambda.headers := [];
                  Lambda.body := "" |}))
    (sendEvent mail)
  = Normal (Lambda.respond 401
      (Lambda.Json (VObj [ ("success", VBool false);
                           ("email", VStr "a@x.io");
                           ("subject", VStr "Hello");
                           ("attemptedAt", VStr "2024-01-01T00:00:00.000Z");
                           ("errorMessage", VStr "HTTP 401");
                           ("errorCode", VStr "401") ]))).
Proof.
  pose (resp := {| Lambda.status := 401; Lambda.headers := [];
                   Lambda.body := "" |}).
  assert (Hp : Lambda.isText (Lambda.pathOf (sendEvent mail)) "/api/send-email"
               || Lambda.isText (Lambda.pathOf (sendEvent mail)) "/send-email"
               = true) by reflexivity.
  assert (Hm : Lambda.isText (Lambda.methodOf (sendEvent mail)) "POST" = true)
    by reflexivity.
  assert (Hs : ~ (200 <= Lambda.status resp < 300)) by (cbn; lia).
  destruct (provider_refusal_is_passed_through sendGridEnv
              (providerReplies (Normal resp)) (sendEvent mail) mail resp
              (VObj []) Hp Hm eq_refl eq_refl eq_refl eq_refl eq_refl eq_refl
              eq_refl Hs eq_refl eq_refl)
    as (errorMessage & He & _ & _ & Hh).
  rewrite (Hh eq_refl eq_refl eq_refl) in He. exact He.
Defined.

(** X30. Which errors the handler catches. On the send-email route, with a
    key and the three fields, a rejected request to the provider and a
    provider body that JSON.parse rejects both end in the reply 500 with
    errorCode SERVER_ERROR, the request's address and subject and the
    error's message (or [Internal server error] when it is empty). The body
    of the event is parsed before the try block: if it is a string that
    JSON.parse rejects, every request but a preflight makes the handler
    reject, and so does a body that parses to null on the send-email route
    when a key is set. *)
Theorem handler_catches_provider_errors_only env out event :
  (forall b e,
      Lambda.isText (Lambda.pathOf event) "/api/send-email"
      || Lambda.isText (Lambda.pathOf event) "/send-email" = true ->
      Lambda.isText (Lambda.methodOf event) "POST" = true ->
      Lambda.bodyOf out event = Normal b ->
      nullish b = false ->
      Lambda.hasKey env = true ->
      truthy (Lambda.prop b "toEmail") = true ->
      truthy (Lambda.prop b "subject") = true ->
      truthy (Lambda.prop b "body") = true ->
      (Lambda.makeRequest out (Lambda.API_URL env) (Lambda.providerHeaders env)
         (if Lambda.isBrevoKey env
          then Lambda.brevoData env (Lambda.prop b "toEmail")
                 (Lambda.prop b "subject") (Lambda.prop b "body")
          else Lambda.sendGridData env (Lambda.prop b "toEmail")
                 (Lambda.prop b "subject") (Lambda.prop b "body"))
       = Throw e
       \/ exists resp,
           Lambda.makeRequest out (Lambda.API_URL env)
             (Lambda.providerHeaders env)
             (if Lambda.isBrevoKey env
              then Lambda.brevoData env (Lambda.prop b "toEmail")
                     (Lambda.prop b "subject") (Lambda.prop b "body")
              else Lambda.sendGridData env (Lambda.prop b "toEmail")
                     (Lambda.prop b "subject") (Lambda.prop b "body"))
           = Normal resp /\
           Lambda.parseOrEmpty out (Lambda.body resp) = Throw e) ->
      Lambda.handler env out event
      = Normal (Lambda.respond 500
          (Lambda.Json (VObj [ ("success", VBool false);
                               ("email", Lambda.prop b "toEmail");
                               ("subject", Lambda.prop b "subject");
                               ("attemptedAt", VStr (Lambda.nowISO out));
                               ("errorMessage",
                                 VStr (if String.eqb (message e) ""
                                       then "Internal server error"
                                       else message e));
                               ("errorCode", VStr "SERVER_ERROR") ])))) /\
  (forall s e,
      Lambda.isText (Lambda.httpField event "method") "OPTIONS" = false ->
      Lambda.field event "body" = VStr s ->
      s <> "" ->
      Lambda.parse out s = Throw e ->
      Lambda.handler env out event = Throw e) /\
  (forall b,
      Lambda.isText (Lambda.pathOf event) "/api/send-email"
      || Lambda.isText (Lambda.pathOf event) "/send-email" = true ->
      Lambda.isText (Lambda.methodOf event) "POST" = true ->
      Lambda.bodyOf out event = Normal b ->
      nullish b = true ->
      Lambda.hasKey env = true ->
      exists e, Lambda.handler env out event = Throw e).
Proof.
  split; [|split].
  - intros b e Hp Hm Hb Hn Hk H1 H2 H3 Hfail.
    rewrite (handler_send_route _ _ _ Hp Hm), Hb. cbn [bind].
    rewrite (sendTry_request _ _ _ Hk Hn H1 H2 H3).
    assert (Hc : Lambda.sendCatch out b e
                 = Normal (Lambda.respond 500
                     (Lambda.Json (VObj [ ("success", VBool false);
                        ("email", Lambda.prop b "toEmail");
                        ("subject", Lambda.prop b "subject");
                        ("attemptedAt", VStr (Lambda.nowISO out));
                        ("errorMessage",
                          VStr (if String.eqb (message e) ""
                                then "Internal server error"
                                else message e));
                        ("errorCode", VStr "SERVER_ERROR") ])))).
    { unfold Lambda.sendCatch. rewrite !(getProp_prop _ _ Hn). reflexivity. }
    destruct Hfail as [Hr | (resp & Hr & Hparse)]; rewrite Hr; cbn [bind].
    + cbn [tryCatch]. exact Hc.
    + destruct ((200 <=? Lambda.status resp) && (Lambda.status resp <? 300));
        [unfold Lambda.successReply|unfold Lambda.failureReply];
        rewrite Hparse; cbn [bind tryCatch]; exact Hc.
  - intros s e Hpre Hbody Hs Hparse. unfold Lambda.handler.
    rewrite Hpre. unfold Lambda.bodyOf. rewrite Hbody.
    cbn [truthy].
    destruct (String.eqb_spec s "") as [->|_]; [congruence|].
    cbn [negb]. rewrite Hparse. reflexivity.
  - intros b Hp Hm Hb Hn Hk.
    rewrite (handler_send_route _ _ _ Hp Hm), Hb. cbn [bind].
    unfold Lambda.sendTry. rewrite Hk. cbn [negb].
    destruct b; try discriminate Hn; cbn; eexists; reflexivity.
Qed.

Lemma handler_catches_example :
  Lambda.handler sendGridEnv (providerReplies (Throw (mkError "socket hang up")))
    (sendEvent mail)
  = Normal (Lambda.respond 500
      (Lambda.Json (VObj [ ("success", VBool false);
                           ("email", VStr "a@x.io");
                           ("subject", VStr "Hello");
                           ("attemptedAt", VStr "2024-01-01T00:00:00.000Z");
                           ("errorMessage", VStr "socket hang up");
                           ("errorCode", VStr "SERVER_ERROR") ]))) /\
  Lambda.handler sendGridEnv (providerReplies (Throw (mkError "socket hang up")))
    (sendEvent (VStr "{toEmail"))
  = Throw (mkError "Unexpected token in JSON").
Proof.
  assert (Hp : Lambda.isText (Lambda.pathOf (sendEvent mail)) "/api/send-email"
               || Lambda.isText (Lambda.pathOf (sendEvent mail)) "/send-email"
               = true) by reflexivity.
  assert (Hm : Lambda.isText (Lambda.methodOf (sendEvent mail)) "POST" = true)
    by reflexivity.
  assert (Hne : "{toEmail"%string <> ""%string) by discriminate.
  split.
  - destruct (handler_catches_provider_errors_only sendGridEnv
                (providerReplies (Throw (mkError "socket hang up")))
                (sendEvent mail)) as (H & _ & _).
    apply (H mail (mkError "socket hang up") Hp Hm eq_refl eq_refl eq_refl
             eq_refl eq_refl eq_refl).
    left. reflexivity.
  - destruct (handler_catches_provider_errors_only sendGridEnv
                (providerReplies (Throw (mkError "socket hang up")))
                (sendEvent (VStr "{toEmail"))) as (_ & H & _).
    apply (H "{toEmail"%string (mkError "Unexpected token in JSON")
             eq_refl eq_refl Hne eq_refl).
Defined.
